(** * Chat server and client: framing codec, connection registry, event loop

    A shallow embedding of [server_client/socket.c], [chat_helpers.c],
    [server.c] and [client.c].  C [int]s are integers in [Z]; a [char] array
    is a [list ascii] of the array's length; the linked list of
    [struct client_sock] is the list of its nodes in link order, and a pointer
    into it is an index.  System calls go through an explicit model of the
    operating system ([os]) that is threaded through every function. *)

From Stdlib Require Import ZArith Lia Ascii String.
From stdpp Require Import gmap strings list pretty.

Local Open Scope Z_scope.

(** ** Constants of [socket.h] *)

Definition MAX_USER_MSG : Z := 128.
Definition MAX_PROTO_MSG : Z := MAX_USER_MSG + 2.
Definition BUF_SIZE : Z := MAX_PROTO_MSG + 1.

Definition NUL : ascii := "000"%char.
Definition CR : ascii := "013"%char.
Definition LF : ascii := "010"%char.
Definition CRLF : list ascii := [CR; LF].

(** [buf[i]] for an [int] index; reads outside the array give [NUL]. *)
Definition char_at (buf : list ascii) (i : Z) : ascii :=
  nth (Z.to_nat i) buf NUL.

(** [memcpy(buf + off, bs, length bs)]. *)
Definition store_bytes (buf : list ascii) (off : Z) (bs : list ascii) : list ascii :=
  list_inserts (Z.to_nat off) bs buf.

(** A fresh array of [n] zero bytes ([calloc], [memset 0]). *)
Definition zeroed (n : Z) : list ascii := replicate (Z.to_nat n) NUL.

(** ** Outcome of running a piece of C

    [Undef] is C undefined behaviour (a write outside an array, signed
    overflow); [Timeout] means that the loop bound given to the model was used
    up before the C loop left. *)

Inductive run (A : Type) : Type :=
| Ret (a : A)
| Undef
| Timeout.
Arguments Ret {A} a.
Arguments Undef {A}.
Arguments Timeout {A}.

#[global] Instance run_bind : MBind run := λ A B k m,
  match m with
  | Ret a => k a
  | Undef => Undef
  | Timeout => Timeout
  end.

#[global] Instance run_ret : MRet run := @Ret.

(** ** The operating system *)

(** What the next [read] on a descriptor finds: bytes (none: end of file),
    a failure, or an interruption by a signal ([EINTR]). *)
Inductive in_event :=
| InData (bs : list ascii)
| InErr
| InIntr.

(** What the next [write] on a descriptor does: fail, or accept at most [k]
    bytes ([WCount 0] is a write that returns 0). *)
Inductive wres :=
| WErr
| WCount (k : Z).

(** What the next [select] returns. *)
Inductive sel_event :=
| SelReady (ready : gset Z)
| SelIntr
| SelErr.

(** The calls whose effect is visible from outside, in the order made. *)
Inductive syscall :=
| SysWrite (fd : Z) (data : list ascii) (ret : Z)
| SysClose (fd : Z)
| SysAccept (ret : Z)
| SysDisplay (s : list ascii)
| SysError (s : list ascii).

Record os := mkOS {
  os_closed : gset Z;
  os_in : gmap Z (list in_event);
  os_wr : gmap Z (list wres);
  os_accept : list Z;
  os_select : list sel_event;
  os_log : list syscall;
  os_malloc : list bool
}.

Definition log_call (e : syscall) (o : os) : os :=
  mkOS (os_closed o) (os_in o) (os_wr o) (os_accept o) (os_select o) (os_log o ++ [e])
       (os_malloc o).

Definition set_in (fd : Z) (q : list in_event) (o : os) : os :=
  mkOS (os_closed o) (<[fd := q]> (os_in o)) (os_wr o) (os_accept o) (os_select o) (os_log o)
       (os_malloc o).

Definition set_wr (fd : Z) (q : list wres) (o : os) : os :=
  mkOS (os_closed o) (os_in o) (<[fd := q]> (os_wr o)) (os_accept o) (os_select o) (os_log o)
       (os_malloc o).

Inductive read_result :=
| RdErr (eintr : bool)
| RdBytes (bs : list ascii).

(** [read(fd, p, count)]: a closed descriptor fails ([EBADF]); otherwise the
    head of the descriptor's queue decides.  Data longer than [count] is cut
    and the rest stays queued; an empty queue is end of file. *)
Definition sys_read (fd count : Z) (o : os) : read_result * os :=
  if decide (fd ∈ os_closed o) then (RdErr false, o) else
  match default [] (os_in o !! fd) with
  | [] => (RdBytes [], o)
  | InErr :: q => (RdErr false, set_in fd q o)
  | InIntr :: q => (RdErr true, set_in fd q o)
  | InData bs :: q =>
      let n := Z.to_nat count in
      (RdBytes (take n bs),
       set_in fd (if decide (drop n bs = []) then q else InData (drop n bs) :: q) o)
  end.

(** [write(fd, p, count)] where [data] are the [count] bytes at [p]: a closed
    descriptor fails ([EBADF]); otherwise the head of the descriptor's script
    decides, and without a script the whole of [data] is written. *)
Definition sys_write (fd : Z) (data : list ascii) (o : os) : Z * os :=
  let count := Z.of_nat (length data) in
  if decide (fd ∈ os_closed o) then (-1, log_call (SysWrite fd data (-1)) o) else
  match default [] (os_wr o !! fd) with
  | [] => (count, log_call (SysWrite fd data count) o)
  | WErr :: q => (-1, log_call (SysWrite fd data (-1)) (set_wr fd q o))
  | WCount k :: q =>
      let r := Z.max 0 (Z.min k count) in
      (r, log_call (SysWrite fd data r) (set_wr fd q o))
  end.

Definition sys_close (fd : Z) (o : os) : os :=
  log_call (SysClose fd)
    (mkOS ({[fd]} ∪ os_closed o) (os_in o) (os_wr o) (os_accept o) (os_select o) (os_log o)
          (os_malloc o)).

(** The bytes that reached descriptor [fd], in order. *)
Fixpoint sent_to (fd : Z) (log : list syscall) : list ascii :=
  match log with
  | [] => []
  | SysWrite fd' data ret :: rest =>
      if decide (fd' = fd) then take (Z.to_nat ret) data ++ sent_to fd rest
      else sent_to fd rest
  | _ :: rest => sent_to fd rest
  end.

(** ** socket.c *)

Fixpoint find_from (buf : list ascii) (i : Z) (todo : nat) : Z :=
  match todo with
  | O => -1
  | S k =>
      if decide (char_at buf i = CR ∧ char_at buf (i + 1) = LF) then i + 2
      else find_from buf (i + 1) k
  end.

(** [for (i = 0; i < inbuf - 1; i++)]: [inbuf - 1] rounds, none if that is
    not positive. *)
Definition find_network_newline (buf : list ascii) (inbuf : Z) : Z :=
  find_from buf 0 (Z.to_nat (inbuf - 1)).

(** The receive buffer of a connection: the array and [inbuf]. *)
Record sockbuf := mkBuf { buf : list ascii; inbuf : Z }.

Definition read_from_socket (sock_fd : Z) (b : sockbuf) (o : os) : Z * sockbuf * os :=
  if decide (inbuf b >= BUF_SIZE) then (-1, b, o) else
  match sys_read sock_fd (BUF_SIZE - inbuf b) o with
  | (RdErr _, o') => (-1, b, o')
  | (RdBytes bs, o') =>
      let bytes_read := Z.of_nat (length bs) in
      let b' := mkBuf (store_bytes (buf b) (inbuf b) bs) (inbuf b + bytes_read) in
      if decide (bytes_read = 0) then (1, b', o') else
      let crlf := find_network_newline (buf b') (inbuf b') in
      if decide (crlf ≠ -1 ∧ crlf < BUF_SIZE) then (0, b', o') else
      if decide (inbuf b' >= BUF_SIZE) then (-1, b', o') else
      (2, b', o')
  end.

(** [get_message]: the result is the return value, the new string [dst] (an
    array of [BUF_SIZE] bytes from [calloc]) when one was allocated, and the
    buffer.  The store [dst[crlf] = 0] is outside the array when [crlf = BUF_SIZE]. *)
Definition get_message (b : sockbuf) : run (Z * option (list ascii) * sockbuf) :=
  let crlf := find_network_newline (buf b) (inbuf b) in
  if decide (crlf = -1) then Ret (1, None, b) else
  let dst := store_bytes (zeroed BUF_SIZE) 0 (take (Z.to_nat crlf) (buf b)) in
  if decide (crlf >= BUF_SIZE) then Undef else
  let dst := <[Z.to_nat crlf := NUL]> dst in
  let src :=
    if decide (inbuf b > 0)
    then store_bytes (buf b) 0 (take (Z.to_nat (inbuf b - crlf)) (drop (Z.to_nat crlf) (buf b)))
    else buf b in
  Ret (0, Some dst, mkBuf src (inbuf b - crlf)).

Fixpoint write_loop (fuel : nat) (sock_fd : Z) (data : list ascii)
    (total_written len : Z) (o : os) : run (Z * os) :=
  if decide (total_written < len) then
    match fuel with
    | O => Timeout
    | S fuel' =>
        let chunk := take (Z.to_nat (len - total_written))
                          (drop (Z.to_nat total_written) data) in
        let '(bytes_written, o') := sys_write sock_fd chunk o in
        if decide (bytes_written = -1)
        then Ret (1, log_call (SysError (list_ascii_of_string "ERROR: write")) o')
        else if decide (bytes_written = 0) then Ret (2, o')
        else write_loop fuel' sock_fd data (total_written + bytes_written) len o'
    end
  else Ret (0, o).

(** [write_to_socket]: every round of the loop that does not return adds at
    least one byte, so [len] rounds are enough. *)
Definition write_to_socket (sock_fd : Z) (data : list ascii) (len : Z) (o : os) : run (Z * os) :=
  write_loop (Z.to_nat len) sock_fd data 0 len o.

(** ** C strings and [snprintf] *)

(** The string held by an array: the bytes before the first [NUL]. *)
Fixpoint c_str (a : list ascii) : list ascii :=
  match a with
  | [] => []
  | c :: rest => if decide (c = NUL) then [] else c :: c_str rest
  end.

Definition strlen (a : list ascii) : Z := Z.of_nat (length (c_str a)).

(** [strnlen(a, n)] *)
Definition strnlen (a : list ascii) (n : Z) : Z := Z.min (strlen a) n.

(** [strchr(a, c)] for [c] other than [NUL]: the offset of the first [c] in
    the string, [None] for a null pointer. *)
Fixpoint strchr (a : list ascii) (c : ascii) : option Z :=
  match a with
  | [] => None
  | x :: rest =>
      if decide (x = NUL) then None
      else if decide (x = c) then Some 0
      else (λ i, i + 1) <$> strchr rest c
  end.

(** A local array [char a[BUF_SIZE]] holding string [s]: [s], a [NUL], and
    bytes that C leaves indeterminate (zero here). *)
Definition local_array (s : list ascii) : list ascii :=
  store_bytes (zeroed BUF_SIZE) 0 s.

(** [snprintf(a, n, "%s", msg)] into a local array: at most [n - 1] bytes of
    the string [msg], then [NUL]. *)
Definition snprintf_s (n : Z) (msg : list ascii) : list ascii :=
  local_array (take (Z.to_nat (n - 1)) (c_str msg)).

(** [snprintf(a, BUF_SIZE, "%d", n)] into a local array: an [int] in decimal
    is at most 11 bytes. *)
Definition snprintf_d (n : Z) : list ascii :=
  local_array (list_ascii_of_string (pretty n)).

Definition INT_MAX : Z := 2147483647.
Definition INT_MIN : Z := -2147483648.

(** [*p += d] on an [int]: signed overflow is undefined. *)
Definition int_add (x d : Z) : run Z :=
  if decide (INT_MIN <= x + d <= INT_MAX) then Ret (x + d) else Undef.

(** ** chat_helpers.c *)

(** [struct client_sock]: [rbuf] holds the two fields [buf] and [inbuf]; the
    field [next] is the node's position in the list of clients. *)
Record client_sock := mkClient {
  sock_fd : Z;
  state : Z;
  rbuf : sockbuf
}.

(** [write_buf_to_client]: [a] is the caller's array of [BUF_SIZE] bytes,
    which the function changes; the string in it always has its [NUL], so the
    [strchr] test never fires. *)
Definition write_buf_to_client (c : client_sock) (a : list ascii) (len : Z) (o : os)
    : run (Z * list ascii * os) :=
  if decide (len > BUF_SIZE - 2) then Ret (1, a, o) else
  if decide (len < 0) then Undef else
  let a := <[Z.to_nat len := CR]> a in
  let a := <[Z.to_nat (len + 1) := LF]> a in
  '(r, o') ← write_to_socket (sock_fd c) a (len + 2) o;
  Ret (r, a, o').

(** [remove_client]: [curr] is the node to remove ([None]: a null pointer; an
    index past the end: a node that is not in the list).  Gives the return
    value, the new [*curr] (the successor of the removed node) and the new
    list. *)
Definition remove_client (curr : option nat) (clients : list client_sock)
    : Z * option nat * list client_sock :=
  match clients, curr with
  | [], _ | _, None => (1, curr, clients)
  | _ :: rest, Some O =>
      (0, if decide (rest = []) then None else Some O, rest)
  | _ :: _, Some (S i) =>
      if decide (S i < length clients)%nat
      then (0, if decide (S (S i) < length clients)%nat then Some (S i) else None,
            delete (S i) clients)
      else (1, curr, clients)
  end.

Definition read_from_client (curr : client_sock) (o : os) : Z * client_sock * os :=
  let '(r, b, o') := read_from_socket (sock_fd curr) (rbuf curr) o in
  (r, mkClient (sock_fd curr) (state curr) b, o').

(** Modelled from the spec: [display_message] and [display_error] of
    [io_helpers.h], which is not among the sources, write their argument to
    the operator's output; the model records the call. *)
Definition display_message (s : list ascii) (o : os) : os :=
  log_call (SysDisplay (c_str s)) o.

Definition display_error (s : string) (o : os) : os :=
  log_call (SysError (list_ascii_of_string s)) o.

(** ** server.c *)

Module Server.

(** The variables of [server] that its helpers share. *)
Record server_state := mkState {
  clients : list client_sock;
  all_fds : gset Z;
  client_id : Z;
  client_count : Z;
  max_fd : Z
}.

(** [accept]: the next descriptor of the script, or a failure; a descriptor
    handed out is open. *)
Definition sys_accept (o : os) : Z * os :=
  match os_accept o with
  | [] => (-1, log_call (SysAccept (-1)) o)
  | fd :: q =>
      (fd, log_call (SysAccept fd)
             (mkOS (if decide (fd < 0) then os_closed o else os_closed o ∖ {[fd]})
                   (os_in o) (os_wr o) q (os_select o) (os_log o) (os_malloc o)))
  end.

(** [malloc] in [_accept_connection]: the next result of the script, [false]
    for a null pointer; without a script the allocation succeeds. *)
Definition sys_malloc (o : os) : bool * os :=
  match os_malloc o with
  | [] => (true, o)
  | ok :: q =>
      (ok, mkOS (os_closed o) (os_in o) (os_wr o) (os_accept o) (os_select o) (os_log o) q)
  end.

(** [_accept_connection]: gives the return value (the new descriptor, or
    -1 when [accept] or [malloc] failed), the list and the position of the
    new node in it. *)
Definition _accept_connection (cl : list client_sock) (o : os)
    : Z * list client_sock * nat * os :=
  let '(client_fd, o') := sys_accept o in
  if decide (client_fd < 0)
  then (-1, cl, length cl, display_error "ERROR: server: accept" o')
  else
    let '(allocated, o1) := sys_malloc o' in
    if allocated : bool then
      let newclient := mkClient client_fd 0 (mkBuf (zeroed BUF_SIZE) 0) in
      (client_fd, cl ++ [newclient], length cl, o1)
    else (-1, cl, length cl, sys_close client_fd (display_error "server: malloc" o1)).

Definition _remove_client (st : server_state) (client_fd : Z) (o : os)
    : run (server_state * os) :=
  n ← int_add (client_count st) (-1);
  Ret (mkState (clients st) (all_fds st ∖ {[client_fd]}) (client_id st) n (max_fd st),
       sys_close client_fd o).

Definition _send_client_id (st : server_state) (new_client : client_sock) (o : os)
    : run (Z * server_state * os) :=
  id ← int_add (client_id st) 1;
  n ← int_add (client_count st) 1;
  let st' := mkState (clients st) (all_fds st) id n (max_fd st) in
  let write_buf := snprintf_d id in
  let msg_len := strnlen write_buf BUF_SIZE in
  '(ret, _, o') ← write_buf_to_client new_client write_buf msg_len o;
  if decide (ret = 1) then Ret (-1, st', display_error "ERROR: write_to_socket" o')
  else if decide (ret = 2) then Ret (1, st', o')
  else Ret (0, st', o').

Definition connected_cmd : list ascii := list_ascii_of_string "\connected".

(** [_server_commands]: [c] is the node the caller passes as [clients]. *)
Definition _server_commands (c : client_sock) (msg : list ascii) (data_len : Z)
    (count : Z) (o : os) : run (Z * os) :=
  if decide (data_len - 2 < 0) then Undef else
  let msg := <[Z.to_nat (data_len - 2) := NUL]> msg in
  match strchr msg ":" with
  | Some i =>
      let cmd := drop (Z.to_nat i) msg in
      if decide (char_at cmd 1 ≠ NUL ∧ c_str (drop 1 cmd) = connected_cmd) then
        let cmd_reply := snprintf_d count in
        let reply_len := strnlen cmd_reply BUF_SIZE in
        '(r, _, o') ← write_buf_to_client c cmd_reply reply_len o;
        if decide (r = 2) then Ret (2, o') else Ret (1, o')
      else Ret (0, o)
  | None => Ret (0, o)
  end.

(** The loop of lines 394-401: [dest_c] walks the list from the node it is
    given. *)
Fixpoint broadcast (fuel : nat) (dest_c : nat) (write_buf : list ascii) (data_len : Z)
    (st : server_state) (o : os) : run (list ascii * server_state * os) :=
  match clients st !! dest_c with
  | None => Ret (write_buf, st, o)
  | Some d =>
      match fuel with
      | O => Timeout
      | S fuel' =>
          '(r, write_buf', o1) ← write_buf_to_client d write_buf data_len o;
          if decide (r = 2) then
            '(st', o2) ← _remove_client st (sock_fd d) o1;
            broadcast fuel' dest_c write_buf' data_len st' o2
          else broadcast fuel' (S dest_c) write_buf' data_len st o1
      end
  end.

Definition set_rbuf (cur : nat) (b : sockbuf) (st : server_state) : server_state :=
  mkState (alter (λ c, mkClient (sock_fd c) (state c) b) cur (clients st))
          (all_fds st) (client_id st) (client_count st) (max_fd st).

(** The loop of lines 376-402 for the node at [cur], entered with
    [client_closed == 0]. *)
Fixpoint drain (fuel : nat) (cur : nat) (st : server_state) (o : os)
    : run (server_state * os) :=
  match clients st !! cur with
  | None => Undef
  | Some c =>
      '(failed, dst, b) ← get_message (rbuf c);
      let st := set_rbuf cur b st in
      match dst with
      | None => Ret (st, o)
      | Some msg =>
          match fuel with
          | O => Timeout
          | S fuel' =>
              let write_buf := snprintf_s MAX_USER_MSG msg in
              let data_len := strlen write_buf in
              '(ret, o1) ← _server_commands c msg data_len (client_count st) o;
              if decide (ret > 0) then
                if decide (ret = 2) then _remove_client st (sock_fd c) o1
                else Ret (st, o1)
              else
                let o2 := display_message write_buf o1 in
                '(_, st', o3) ← broadcast fuel cur write_buf data_len st o2;
                drain fuel' cur st' o3
          end
      end
  end.

(** One round of the loop of [_process_client_data] with [clients] at the
    node [cur]: gives the new [clients]. *)
Definition process_client (fuel : nat) (cur : nat) (c : client_sock)
    (listen_fds : gset Z) (st : server_state) (o : os) : run (nat * server_state * os) :=
  if decide (sock_fd c ∉ listen_fds) then Ret (S cur, st, o) else
  let '(r, c', o1) := read_from_client c o in
  let st1 := set_rbuf cur (rbuf c') st in
  let client_closed := if decide (r = -1) then 1 else r in
  '(st2, o2) ← (if decide (client_closed = 0) then drain fuel cur st1 o1 else Ret (st1, o1));
  if decide (client_closed = 1) then
    '(st3, o3) ← _remove_client st2 (sock_fd c) o2;
    Ret (cur, st3, o3)
  else Ret (S cur, st2, o2).

Fixpoint _process_client_data (fuel : nat) (cur : nat) (listen_fds : gset Z)
    (st : server_state) (o : os) : run (server_state * os) :=
  match clients st !! cur with
  | None => Ret (st, o)
  | Some c =>
      match fuel with
      | O => Timeout
      | S fuel' =>
          '(cur', st', o') ← process_client fuel cur c listen_fds st o;
          _process_client_data fuel' cur' listen_fds st' o'
      end
  end.

(** [_fd_close]: the [do ... while] repeats the read while it is interrupted. *)
Fixpoint _fd_close (fuel : nat) (fd : Z) (o : os) : run (Z * os) :=
  match fuel with
  | O => Timeout
  | S fuel' =>
      match sys_read fd 1 o with
      | (RdErr true, o') => _fd_close fuel' fd o'
      | (RdErr false, o') => Ret (-1, display_error "read" o')
      | (RdBytes [], o') => Ret (1, o')
      | (RdBytes (_ :: _), o') => Ret (0, o')
      end
  end.

(** [select]: the next event of the script. *)
Definition sys_select (o : os) : option sel_event * os :=
  match os_select o with
  | [] => (None, o)
  | e :: q =>
      (Some e, mkOS (os_closed o) (os_in o) (os_wr o) (os_accept o) q (os_log o) (os_malloc o))
  end.

(** Where [server] stands after a round of its [while (1)]: at the head of
    the loop again, or past it with [exit_status]. *)
Inductive ctl :=
| Running (st : server_state) (o : os)
| Exited (exit_status : Z) (st : server_state) (o : os).

(** How a round goes on behind the test of the listening socket: on to
    the pipe and the clients, or it is over ([continue] or [break]). *)
Inductive accept_step :=
| GoOn (st : server_state) (o : os)
| Leave (c : ctl).

(** Lines 98-118 of [server], for a listening socket that is ready. *)
Definition accept_client (st : server_state) (o : os) : run accept_step :=
  let '(client_fd, cl, new_client, o1) := _accept_connection (clients st) o in
  if decide (client_fd < 0) then Ret (Leave (Running st o1)) else
  let st1 := mkState cl ({[client_fd]} ∪ all_fds st) (client_id st) (client_count st)
                     (Z.max (max_fd st) client_fd) in
  match cl !! new_client with
  | None => Undef
  | Some c =>
      '(ret, st2, o2) ← _send_client_id st1 c o1;
      if decide (ret = -1) then Ret (Leave (Exited (-1) st2 o2))
      else if decide (ret = 1) then
        '(st3, o3) ← _remove_client st2 client_fd o2;
        Ret (Leave (Running st3 o3))
      else Ret (GoOn st2 o2)
  end.

(** The part of the round after the test of the listening socket. *)
Definition server_rest (fuel : nat) (server_fd : Z) (listen_fds : gset Z)
    (st : server_state) (o : os) : run ctl :=
  '(stop, o1) ←
    (if decide (server_fd ∈ listen_fds) then
       '(server_closed, o') ← _fd_close fuel server_fd o;
       if decide (server_closed < 0) then Ret (Some (-1), o')
       else if decide (server_closed ≠ 0) then Ret (Some 0, o')
       else Ret (None, o')
     else Ret (None, o));
  match stop with
  | Some status => Ret (Exited status st o1)
  | None =>
      '(st', o2) ← _process_client_data fuel 0 listen_fds st o1;
      Ret (Running st' o2)
  end.

(** One round of the [while (1)] of [server]; [s_fd] is the listening
    socket.  With no event left in the script [select] does not return. *)
Definition server_round (fuel : nat) (s_fd server_fd : Z) (st : server_state) (o : os)
    : run ctl :=
  match sys_select o with
  | (None, _) => Timeout
  | (Some SelIntr, o0) => Ret (Running st o0)
  | (Some SelErr, o0) => Ret (Exited (-1) st (display_error "server: select" o0))
  | (Some (SelReady ready), o0) =>
      let listen_fds := all_fds st ∩ ready in
      if decide (s_fd ∈ listen_fds) then
        a ← accept_client st o0;
        match a with
        | Leave c => Ret c
        | GoOn st2 o2 => server_rest fuel server_fd listen_fds st2 o2
        end
      else server_rest fuel server_fd listen_fds st o0
  end.

(** The state in which [server] enters its loop, after the port is parsed and
    the listening socket [s_fd] is set up. *)
Definition server_init (s_fd server_fd : Z) : server_state :=
  mkState [] ({[server_fd]} ∪ ({[s_fd]} ∪ ∅)) 0 0 (Z.max s_fd server_fd).

(** [n] rounds of the loop, fewer if it is left earlier. *)
Fixpoint server_rounds (n : nat) (fuel : nat) (s_fd server_fd : Z)
    (st : server_state) (o : os) : run ctl :=
  match n with
  | O => Ret (Running st o)
  | S n' =>
      c ← server_round fuel s_fd server_fd st o;
      match c with
      | Running st' o' => server_rounds n' fuel s_fd server_fd st' o'
      | Exited _ _ _ => Ret c
      end
  end.

(** [_clean_exit]: closes the descriptor of every node of the list. *)
Definition _clean_exit (s_fd server_fd : Z) (cl : list client_sock) (o : os) : os :=
  sys_close s_fd (sys_close server_fd (foldl (λ o c, sys_close (sock_fd c) o) o cl)).

(** [server] from the entry of its loop: the rounds, then [_clean_exit]. *)
Definition server (n : nat) (fuel : nat) (s_fd server_fd : Z) (o : os) : run (Z * os) :=
  c ← server_rounds n fuel s_fd server_fd (server_init s_fd server_fd) o;
  match c with
  | Running _ _ => Timeout
  | Exited status st o' => Ret (status, _clean_exit s_fd server_fd (clients st) o')
  end.

End Server.

(** ** client.c *)

Module Client.

(** [struct server_sock] of [socket.h]: [sbuf] holds [buf] and [inbuf]. *)
Record server_sock := mkSock {
  sock_fd : Z;
  sbuf : sockbuf
}.

(** The first loop of [_recieve_message]: reads until a frame is there.
    Gives [client_closed]. *)
Fixpoint read_loop (fuel : nat) (s : server_sock) (o : os) : run (Z * server_sock * os) :=
  match fuel with
  | O => Timeout
  | S fuel' =>
      let '(client_closed, b, o1) := read_from_socket (sock_fd s) (sbuf s) o in
      let s1 := mkSock (sock_fd s) b in
      if decide (client_closed ≠ 0) then
        if decide (client_closed = -1) then
          Ret (-1, s1, sys_close (sock_fd s) (display_error "ERROR: server read error" o1))
        else if decide (client_closed = 1) then
          Ret (1, s1, sys_close (sock_fd s) (display_error "ERROR: Server disconnected" o1))
        else read_loop fuel' s1 o1
      else Ret (0, s1, o1)
  end.

(** The second loop of [_recieve_message], entered with
    [client_closed == 0]: gives the return value and [*msg]. *)
Fixpoint message_loop (fuel : nat) (msg_len : Z) (msg : option (list ascii))
    (s : server_sock) (o : os) : run (Z * option (list ascii) * server_sock * os) :=
  if decide (msg_len <= 2) then
    match fuel with
    | O => Timeout
    | S fuel' =>
        '(failed, dst, b) ← get_message (sbuf s);
        let s1 := mkSock (sock_fd s) b in
        match dst with
        | None => message_loop fuel' msg_len msg s1 o
        | Some m =>
            let msg_len := strnlen m MAX_PROTO_MSG in
            if decide (msg_len <= 2) then message_loop fuel' msg_len None s1 o
            else if decide (msg_len > MAX_PROTO_MSG) then
              Ret (1, None, s1,
                   sys_close (sock_fd s) (display_error "ERROR: Server disconnected" o))
            else
              message_loop fuel' msg_len (Some (<[Z.to_nat (msg_len - 2) := NUL]> m)) s1 o
        end
    end
  else Ret (0, msg, s, o).

Definition _recieve_message (fuel : nat) (s : server_sock) (o : os)
    : run (Z * option (list ascii) * server_sock * os) :=
  '(client_closed, s1, o1) ← read_loop fuel s o;
  if decide (client_closed ≠ 0) then Ret (client_closed, None, s1, o1)
  else message_loop fuel (-1) None s1 o1.

(** [strtol(s, NULL, 10)]: white space, a sign, digits.  A value outside
    [long] is clamped and sets [errno] to [ERANGE].  Without a digit the
    result is 0; ISO C and glibc then leave [errno] alone, POSIX lets a
    library set [EINVAL]: [einval] says which library it is.  Gives the value
    and whether [errno] was set. *)
Definition isspace (c : ascii) : bool :=
  bool_decide (c ∈ [" "%char; "009"%char; "010"%char; "011"%char; "012"%char; "013"%char]).

Definition digit_val (c : ascii) : option Z :=
  let n := Z.of_N (N_of_ascii c) in
  if decide (48 <= n <= 57) then Some (n - 48) else None.

Fixpoint skip_space (s : list ascii) : list ascii :=
  match s with
  | c :: rest => if isspace c then skip_space rest else s
  | [] => []
  end.

Fixpoint digits_val (s : list ascii) (acc : Z) : Z :=
  match s with
  | c :: rest =>
      match digit_val c with
      | Some d => digits_val rest (10 * acc + d)
      | None => acc
      end
  | [] => acc
  end.

Definition LONG_MAX : Z := 9223372036854775807.
Definition LONG_MIN : Z := -9223372036854775808.

Definition starts_with_digit (s : list ascii) : bool :=
  match s with
  | c :: _ => bool_decide (is_Some (digit_val c))
  | [] => false
  end.

Definition strtol (einval : bool) (a : list ascii) : Z * bool :=
  let s := skip_space (c_str a) in
  let '(neg, s) :=
    match s with
    | "-"%char :: rest => (true, rest)
    | "+"%char :: rest => (false, rest)
    | _ => (false, s)
    end in
  if negb (starts_with_digit s) then (0, einval) else
  let v := digits_val s 0 in
  let v := if neg : bool then - v else v in
  if decide (v > LONG_MAX) then (LONG_MAX, true)
  else if decide (v < LONG_MIN) then (LONG_MIN, true)
  else (v, false).

(** The conversion of a [long] to [int] that the assignment makes. *)
Definition long_to_int (v : Z) : Z := (v + 2147483648) `mod` 4294967296 - 2147483648.

(** [_get_client_id]: gives the return value and [*client_id] when it was
    assigned. *)
Definition _get_client_id (einval : bool) (fuel : nat) (s : server_sock) (o : os)
    : run (Z * option Z * server_sock * os) :=
  '(ret, msg, s1, o1) ← _recieve_message fuel s o;
  if decide (ret = -1) then Ret (-1, None, s1, o1)
  else if decide (ret = 1) then Ret (1, None, s1, o1)
  else
    match msg with
    | None => Undef
    | Some m =>
        let '(v, errno_set) := strtol einval m in
        let client_id := long_to_int v in
        if errno_set : bool then
          Ret (-1, Some client_id, s1,
               sys_close (sock_fd s) (display_error "ERROR: Server disconnected" o1))
        else Ret (0, Some client_id, s1, o1)
    end.

(** Where [client] stands after it has asked for its id (lines 62-69): it
    has returned, or it goes on to the session with the id. *)
Inductive handshake :=
| Returned (status : Z)
| Session (client_id : Z).

Definition client_handshake (einval : bool) (fuel : nat) (s : server_sock) (o : os)
    : run (handshake * server_sock * os) :=
  '(ret, id, s1, o1) ← _get_client_id einval fuel s o;
  if decide (ret = 1) then Ret (Returned 0, s1, o1)
  else if decide (ret = -1) then Ret (Returned (-1), s1, o1)
  else match id with
       | Some client_id => Ret (Session client_id, s1, o1)
       | None => Undef
       end.

End Client.

(** ** Notions used to state the properties *)

(** The valid bytes of a receive buffer: the first [inbuf] of the array. *)
Definition valid (b : sockbuf) : list ascii := take (Z.to_nat (inbuf b)) (buf b).

(** A receive buffer as both programs keep it. *)
Definition buf_ok (b : sockbuf) : Prop :=
  0 <= inbuf b <= BUF_SIZE ∧ length (buf b) = Z.to_nat BUF_SIZE.

(** A byte sequence holds a terminator. *)
Definition has_crlf (l : list ascii) : Prop := ∃ l1 l2, l = l1 ++ CRLF ++ l2.

(** Position just past the first CRLF of a list, [-1] without one: what
    [find_network_newline] computes, on the valid bytes alone. *)
Fixpoint crlf_pos (l : list ascii) : Z :=
  match l with
  | a :: (b :: _) as t =>
      if decide (a = CR ∧ b = LF) then 2
      else let r := crlf_pos t in if decide (r = -1) then -1 else r + 1
  | _ => -1
  end.

Definition shift (i r : Z) : Z := if decide (r = -1) then -1 else r + i.

(** What [read_from_socket] returns after a read of at least one byte that
    leaves [v] as the valid bytes. *)
Definition classify (v : list ascii) : Z :=
  let crlf := crlf_pos v in
  if decide (crlf ≠ -1 ∧ crlf < BUF_SIZE) then 0
  else if decide (Z.of_nat (length v) >= BUF_SIZE) then -1 else 2.

(** [n] calls of [read_from_socket] in a row, with their return values. *)
Fixpoint read_all (n : nat) (fd : Z) (b : sockbuf) (o : os) : list Z * sockbuf * os :=
  match n with
  | O => ([], b, o)
  | S k =>
      let '(r, b1, o1) := read_from_socket fd b o in
      let '(rs, b2, o2) := read_all k fd b1 o1 in
      (r :: rs, b2, o2)
  end.

(** The bytes received after each chunk of a delivery, [pre] being there
    before. *)
Fixpoint prefixes (pre : list ascii) (chunks : list (list ascii)) : list (list ascii) :=
  match chunks with
  | [] => []
  | c :: rest => (pre ++ c) :: prefixes (pre ++ c) rest
  end.

Definition str (s : string) : list ascii := list_ascii_of_string s.

(** 126 bytes ['A'] and the terminator. *)
Definition frame126 : list ascii := replicate 126 "A"%char ++ CRLF.

(** An operating system in which nothing has happened yet: [ins] is what
    the peers will send, [wrs] how writes will go, [acc] the descriptors that
    [accept] will give and [sel] what [select] will report. *)
Definition os_start (ins : gmap Z (list in_event)) (wrs : gmap Z (list wres))
    (acc : list Z) (sel : list sel_event) : os :=
  mkOS ∅ ins wrs acc sel [] [].

(** *** What the calls of a run show *)

Import Server.

(** An entry that writes only to descriptors in [F] and accepts nothing. *)
Definition touches (F : Z → Prop) (e : syscall) : Prop :=
  match e with
  | SysWrite fd _ _ => F fd
  | SysAccept _ => False
  | _ => True
  end.

(** Nothing more will come from [fd]: it is closed, or its peer is gone. *)
Definition at_end (fd : Z) (o : os) : Prop :=
  fd ∈ os_closed o ∨ default [] (os_in o !! fd) = [].

(** An entry that is a [write] to [fd] or a diagnostic. *)
Definition only_writes (fd : Z) (e : syscall) : Prop :=
  match e with
  | SysWrite fd' _ _ => fd' = fd
  | SysError _ => True
  | _ => False
  end.

(** [o'] comes from [o] by calls that satisfy [P]. *)
Definition log_ext (P : syscall → Prop) (o o' : os) : Prop :=
  ∃ ext, os_log o' = os_log o ++ ext ∧ Forall P ext.

(** The descriptors of the nodes from position [i] on. *)
Definition fds_from (i : nat) (st : server_state) (fd : Z) : Prop :=
  fd ∈ drop i (sock_fd <$> clients st).

(** A string of bytes without [NUL]. *)
Definition text (s : list ascii) : Prop := Forall (λ c, c ≠ NUL) s.

(** The frame that carries the number [k]: its decimal digits and CRLF. *)
Definition decimal_frame (k : Z) : list ascii := str (pretty k) ++ CRLF.

(** The descriptors that [accept] gave, in order. *)
Fixpoint accepted (log : list syscall) : list Z :=
  match log with
  | [] => []
  | SysAccept fd :: rest => if decide (fd < 0) then accepted rest else fd :: accepted rest
  | _ :: rest => accepted rest
  end.

(** The calls [rest] that follow an [accept] begin with the diagnostic of
    [_accept_connection] for a [malloc] that failed: the connection got no
    node. *)
Definition no_node (rest : list syscall) : bool :=
  match rest with
  | SysError s :: _ => bool_decide (s = str "server: malloc")
  | _ => false
  end.

(** The descriptors that [accept] gave and for which a node was allocated,
    in order: the connections that [_accept_connection] accepted. *)
Fixpoint registered (log : list syscall) : list Z :=
  match log with
  | [] => []
  | SysAccept fd :: rest =>
      if decide (fd < 0) then registered rest
      else if no_node rest then registered rest
      else fd :: registered rest
  | _ :: rest => registered rest
  end.

(** For each of these descriptors, the call that follows its [accept] at
    once: the descriptor and the bytes of a [write], [None] for any other
    call. *)
Fixpoint first_writes (log : list syscall) : list (option (Z * list ascii)) :=
  match log with
  | [] => []
  | SysAccept fd :: rest =>
      if decide (fd < 0) then first_writes rest
      else if no_node rest then first_writes rest
      else match rest with
           | SysWrite fd' data _ :: _ => Some (fd', data)
           | _ => None
           end :: first_writes rest
  | _ :: rest => first_writes rest
  end.

(** The log does not end in an [accept] that gave a descriptor. *)
Definition settled (log : list syscall) : Prop :=
  match last log with
  | Some (SysAccept fd) => fd < 0
  | _ => True
  end.

(** The state and the operating system at a point of a run of [server]. *)
Definition ctl_state (c : ctl) : server_state :=
  match c with Running st _ | Exited _ st _ => st end.

Definition ctl_os (c : ctl) : os :=
  match c with Running _ o | Exited _ _ o => o end.

(** Where the round stands behind lines 98-118. *)
Definition step_ctl (a : accept_step) : ctl :=
  match a with
  | GoOn st o => Running st o
  | Leave c => c
  end.

(** An entry that is no [accept] that gave a descriptor. *)
Definition calm (e : syscall) : Prop :=
  match e with
  | SysAccept fd => fd < 0
  | _ => True
  end.

(** What the log says about the ids handed out so far. *)
Definition ids_in_order (st : server_state) (o : os) : Prop :=
  settled (os_log o)
  ∧ client_id st = Z.of_nat (length (registered (os_log o)))
  ∧ first_writes (os_log o) =
    imap (λ k fd, Some (fd, decimal_frame (Z.of_nat k + 1))) (registered (os_log o)).

(** *** Concrete runs of the server

    The listening socket is descriptor 4 and the pipe from the shell is
    descriptor 3; the clients get 5, 6 and 7. *)

(** Two clients connect; the second sends [client2:hello]. *)
Definition os_hello : os :=
  os_start {[ 6 := [InData (str "client2:hello" ++ CRLF)] ]} ∅ [5; 6]
           [SelReady {[4]}; SelReady {[4]}; SelReady {[6]}].

(** Two clients connect; the first sends [client1:hello]. *)
Definition os_hello_first : os :=
  os_start {[ 5 := [InData (str "client1:hello" ++ CRLF)] ]} ∅ [5; 6]
           [SelReady {[4]}; SelReady {[4]}; SelReady {[5]}].

(** Two clients connect; the first sends [client1:hello], and the [write] of
    the broadcast to it returns 0. *)
Definition os_hello_lost : os :=
  os_start {[ 5 := [InData (str "client1:hello" ++ CRLF)] ]}
           {[ 5 := [WCount 3; WCount 0] ]} [5; 6]
           [SelReady {[4]}; SelReady {[4]}; SelReady {[5]}].

(** Three clients connect.  The first is gone before its id is written (the
    [write] returns 0) and is removed; the second closes its end, and the
    third connects in the round in which [select] reports that. *)
Definition os_ids : os :=
  os_start ∅ {[ 5 := [WCount 0] ]} [5; 6; 7]
           [SelReady {[4]}; SelReady {[4]}; SelReady {[4; 6]}].

Definition ids_run : run ctl := server_rounds 2 8 4 3 (server_init 4 3) os_ids.

(** The server of [os_ids] after two rounds. *)
Definition ids_state : server_state :=
  mkState [mkClient 5 0 (mkBuf (zeroed BUF_SIZE) 0); mkClient 6 0 (mkBuf (zeroed BUF_SIZE) 0)]
          ({[6]} ∪ ({[3]} ∪ ({[4]} ∪ ∅))) 2 1 6.

Definition ids_head : os :=
  mkOS {[5]} ∅ {[ 5 := [] ]} [7] [SelReady {[4; 6]}]
       [SysAccept 5; SysWrite 5 (str "1" ++ CRLF) 0; SysClose 5;
        SysAccept 6; SysWrite 6 (str "2" ++ CRLF) 3] [].

(** The operating system when the third round of [os_ids] gets to its
    [accept]. *)
Definition ids_os (c : ctl) : os :=
  mkOS (os_closed (ctl_os c)) (os_in (ctl_os c)) (os_wr (ctl_os c)) (os_accept (ctl_os c))
       [] (os_log (ctl_os c)) (os_malloc (ctl_os c)).

(** [malloc] gives no node for the first connection; a second one
    connects. *)
Definition os_refused : os :=
  mkOS ∅ ∅ ∅ [5; 6] [SelReady {[4]}; SelReady {[4]}] [] [false].

(** One client connects and leaves; then the shell closes the pipe. *)
Definition os_leave : os :=
  os_start ∅ ∅ [5] [SelReady {[4]}; SelReady {[5]}; SelReady {[3]}].

(** The server of [os_leave] after the client has connected. *)
Definition leaving_client : client_sock :=
  mkClient 5 0 (mkBuf (zeroed BUF_SIZE) 0).

Definition leave_state : server_state :=
  mkState [leaving_client] ({[5]} ∪ ({[3]} ∪ ({[4]} ∪ ∅))) 1 1 5.

Definition leave_os : os :=
  mkOS ∅ ∅ ∅ [] [SelReady {[5]}; SelReady {[3]}]
       [SysAccept 5; SysWrite 5 (str "1" ++ CRLF) 3] [].

(** One client connects, sends the status query and a message in one
    delivery, and leaves. *)
Definition os_query_then_leave : os :=
  os_start {[ 5 := [InData (str "client1:\connected" ++ CRLF ++ str "client1:hi" ++ CRLF)] ]}
           ∅ [5] [SelReady {[4]}; SelReady {[5]}; SelReady {[5]}].

(** *** Concrete deliveries for the codec *)

Definition delivery126 : list (list ascii) :=
  [replicate 100 "A"%char; replicate 26 "A"%char ++ [CR]; [LF]].
Definition os126 : os := os_start {[ 4 := InData <$> delivery126 ]} ∅ [] [].
Definition empty_buf : sockbuf := mkBuf (zeroed BUF_SIZE) 0.
Definition two_frames_buf : sockbuf :=
  mkBuf (str "hi" ++ CRLF ++ str "yo" ++ zeroed 125) 6.

Definition delivery131 : list (list ascii) :=
  [replicate 60 "B"%char; replicate 70 "B"%char; ["B"%char]].
Definition os131 : os := os_start {[ 4 := InData <$> delivery131 ]} ∅ [] [].
Definition almost_full_buf : sockbuf := mkBuf (replicate 131 "B"%char) 130.
Definition os_one_more : os := os_start {[ 4 := [InData ["B"%char]] ]} ∅ [] [].

(** Three clients are connected; the second has sent the status query and
    the server has read it. *)
Definition query_frame : list ascii := str "client2:\connected" ++ CRLF.

Definition asking_client : client_sock :=
  mkClient 6 0 (mkBuf (store_bytes (zeroed BUF_SIZE) 0 query_frame) 20).

Definition query_state : server_state :=
  mkState [mkClient 5 0 (mkBuf (zeroed BUF_SIZE) 0); asking_client;
           mkClient 7 0 (mkBuf (zeroed BUF_SIZE) 0)]
          ({[7]} ∪ ({[6]} ∪ ({[5]} ∪ ({[3]} ∪ ({[4]} ∪ ∅))))) 3 3 7.

Definition query_os : os := os_start ∅ ∅ [] [].

(** Three clients connect; the second sends the status query. *)
Definition os_three : os :=
  os_start {[ 6 := [InData query_frame] ]} ∅ [5; 6; 7]
           [SelReady {[4]}; SelReady {[4]}; SelReady {[4]}; SelReady {[6]}].

(** One client connects and sends the status query; the reply cannot be
    written. *)
Definition os_reply_fails : os :=
  os_start {[ 5 := [InData (str "client1:\connected" ++ CRLF)] ]}
           {[ 5 := [WCount 3; WErr] ]} [5] [SelReady {[4]}; SelReady {[5]}].

(** One client connects and sends the status query behind a name of 115
    bytes: a frame of 128 bytes. *)
Definition long_query : list ascii :=
  replicate 115 "x"%char ++ str ":\connected" ++ CRLF.

Definition os_long_query : os :=
  os_start {[ 5 := [InData long_query] ]} ∅ [5] [SelReady {[4]}; SelReady {[5]}].

(** One client connects and stays; the shell closes the pipe. *)
Definition os_shutdown : os := os_start ∅ ∅ [5] [SelReady {[4]}; SelReady {[3]}].

(** The reply that [_server_commands] makes for the count [n]. *)
Definition reply (c : client_sock) (n : Z) (o : os) : run (Z * list ascii * os) :=
  write_buf_to_client c (snprintf_d n) (strnlen (snprintf_d n) BUF_SIZE) o.

(** An entry that shows nothing to the operator. *)
Definition not_display (e : syscall) : Prop :=
  match e with
  | SysDisplay _ => False
  | _ => True
  end.

(** *** Concrete sessions of the client

    The client's socket is descriptor 5 and its buffer is empty;
    [os_sends bytes] is a server whose first delivery is [bytes], [os_gone]
    one that has left. *)
Definition fresh_sock : Client.server_sock := Client.mkSock 5 empty_buf.

Definition os_sends (bytes : list ascii) : os :=
  os_start {[ 5 := [InData bytes] ]} ∅ [] [].

Definition os_gone : os := os_start ∅ ∅ [] [].


(** * More of the four files *)

(** ** Notions for the codec *)

(** The byte stream that carries the messages [ms]: each one and its CRLF. *)
Definition frames (ms : list (list ascii)) : list ascii :=
  concat ((λ m, m ++ CRLF) <$> ms).

(** [get_message] called until it finds no frame: the strings it handed
    over, in order, and the buffer it leaves. *)
Fixpoint get_messages (fuel : nat) (b : sockbuf) : run (list (list ascii) * sockbuf) :=
  '(r, dst, b') ← get_message b;
  match dst with
  | None => Ret ([], b')
  | Some m =>
      match fuel with
      | O => Timeout
      | S k => '(ms, b'') ← get_messages k b'; Ret (c_str m :: ms, b'')
      end
  end.

(** The bytes that a [read] of [n] bytes on [fd] brings. *)
Definition arriving (fd n : Z) (o : os) : list ascii :=
  if decide (fd ∈ os_closed o) then [] else
  match default [] (os_in o !! fd) with
  | InData bs :: _ => take (Z.to_nat n) bs
  | _ => []
  end.

(** The sum of the counts [ks]. *)
Definition total_of (ks : list Z) : Z := foldr Z.add 0 ks.

(** The calls of [write] that the short writes [ks] answer, for the bytes
    [frame] of which [total] are written: each call is given the bytes that
    are left, and the next one goes on behind what it took. *)
Fixpoint short_writes (fd : Z) (frame : list ascii) (total : Z) (ks : list Z)
    : list syscall :=
  match ks with
  | [] => []
  | k :: ks' =>
      SysWrite fd (drop (Z.to_nat total) frame) k :: short_writes fd frame (total + k) ks'
  end.

(** The next [write] of the script [w] is not a short one for [n] bytes. *)
Definition not_short (n : Z) (w : list wres) : Prop :=
  match w with
  | WCount k :: _ => k <= 0 ∨ n <= k
  | _ => True
  end.

(** How [write_to_socket] ends when a [write] that is not short gets the
    bytes [rest]: the return value and the calls. *)
Definition last_write (fd : Z) (rest : list ascii) (w : list wres) : Z * list syscall :=
  match w with
  | WErr :: _ => (1, [SysWrite fd rest (-1); SysError (str "ERROR: write")])
  | WCount k :: _ =>
      if decide (k <= 0) then (2, [SysWrite fd rest 0])
      else (0, [SysWrite fd rest (Z.of_nat (length rest))])
  | [] => (0, [SysWrite fd rest (Z.of_nat (length rest))])
  end.

(** Writes to [fd] go through in full: it is open and no failure or short
    write is scripted for it. *)
Definition writable (fd : Z) (o : os) : Prop :=
  (fd ∉ os_closed o) ∧ default [] (os_wr o !! fd) = [].

(** The bytes [v] begin with a frame that the buffer accepts: a terminator
    ends within their first 130. *)
Definition frame_ready (v : list ascii) : Prop :=
  ∃ m rest, v = m ++ CRLF ++ rest ∧ (length m <= 128)%nat.

(** ** Notions for the server *)

(** A message that asks for the number of clients: [\connected] and nothing
    else follows its first colon. *)
Definition is_query (s : list ascii) : Prop :=
  ∃ pre, s = pre ++ ":"%char :: connected_cmd ∧ ":"%char ∉ pre.

(** What the log says about the list: its nodes are the connections that
    were registered, in order. *)
Definition nodes_in_order (st : server_state) (o : os) : Prop :=
  settled (os_log o) ∧ sock_fd <$> clients st = registered (os_log o).

(** Every node's receive buffer is within its array. *)
Definition bufs_ok (st : server_state) : Prop :=
  Forall (λ c, buf_ok (rbuf c)) (clients st).

(** Three clients are connected; the second has sent [client2:hello] and the
    server has read it. *)
Definition talking_client : client_sock :=
  mkClient 6 0 (mkBuf (store_bytes (zeroed BUF_SIZE) 0 (str "client2:hello" ++ CRLF)) 15).

Definition talk_state : server_state :=
  mkState [mkClient 5 0 (mkBuf (zeroed BUF_SIZE) 0); talking_client;
           mkClient 7 0 (mkBuf (zeroed BUF_SIZE) 0)]
          ({[7]} ∪ ({[6]} ∪ ({[5]} ∪ ({[3]} ∪ ({[4]} ∪ ∅))))) 3 3 7.

(** Three clients are connected; the server holds the beginning of a message
    of the second, [client2:he]. *)
Definition waiting_client : client_sock :=
  mkClient 6 0 (mkBuf (store_bytes (zeroed BUF_SIZE) 0 (str "client2:he")) 10).

Definition wait_state : server_state :=
  mkState [mkClient 5 0 (mkBuf (zeroed BUF_SIZE) 0); waiting_client;
           mkClient 7 0 (mkBuf (zeroed BUF_SIZE) 0)]
          ({[7]} ∪ ({[6]} ∪ ({[5]} ∪ ({[3]} ∪ ({[4]} ∪ ∅))))) 3 3 7.

(** The rest of the message arrives, with its terminator. *)
Definition os_rest_arrives : os :=
  os_start {[ 6 := [InData (str "llo" ++ CRLF)] ]} ∅ [] [].

(** Three more bytes of the message arrive. *)
Definition os_more_arrives : os :=
  os_start {[ 6 := [InData (str "llo")] ]} ∅ [] [].

(** A connection for which [malloc] gives no node, then one that is
    registered, and then the shell closes the pipe. *)
Definition os_refused_then_shutdown : os :=
  mkOS ∅ ∅ ∅ [5; 6] [SelReady {[4]}; SelReady {[4]}; SelReady {[3]}] [] [false].

(** One client connects and sends a frame that begins with a [NUL]. *)
Definition os_nul_frame : os :=
  os_start {[ 5 := [InData (NUL :: str "hi" ++ CRLF)] ]} ∅ [5]
           [SelReady {[4]}; SelReady {[5]}].

(** The server of [os_nul_frame] after it has read the frame. *)
Definition nul_client : client_sock :=
  mkClient 5 0 (mkBuf (store_bytes (zeroed BUF_SIZE) 0 (NUL :: str "hi" ++ CRLF)) 5).

Definition nul_state : server_state :=
  mkState [nul_client] ({[5]} ∪ ({[3]} ∪ ({[4]} ∪ ∅))) 1 1 5.

(** One client connects, but the [write] of its id fails. *)
Definition os_id_fails : os :=
  os_start ∅ {[ 5 := [WErr] ]} [5] [SelReady {[4]}].

(** The operating system after [select] has returned. *)
Definition after_select (o : os) : os :=
  mkOS (os_closed o) (os_in o) (os_wr o) (os_accept o) (tail (os_select o)) (os_log o)
       (os_malloc o).

(** The shell has closed the pipe, and a client has sent a message that
    the server has not read yet. *)
Definition os_late : os :=
  os_start {[ 6 := [InData (str "late" ++ CRLF)]; 3 := [InIntr] ]} ∅ []
           [SelReady {[3; 6]}].

(** ** The C library: [strncat] and the standard input *)

(** [strncat(dst, src, n)] on the array [dst]: at most [n] bytes of the
    string [src] go behind the string that [dst] holds, and a [NUL] behind
    them.  A store outside the array is undefined. *)
Definition strncat (dst src : list ascii) (n : Z) : run (list ascii) :=
  let s := take (Z.to_nat n) (c_str src) in
  let off := strlen dst in
  if decide (off + Z.of_nat (length s) + 1 <= Z.of_nat (length dst))
  then Ret (store_bytes dst off (s ++ [NUL]))
  else Undef.

(** [perror(s)]: a diagnostic, recorded like [display_error]. *)
Definition perror (s : string) (o : os) : os :=
  log_call (SysError (list_ascii_of_string s)) o.

(** The standard input: the bytes that are still to come and the
    end-of-file indicator of the stream. *)
Record stdin := mkStdin { pending : list ascii; at_eof : bool }.

(** The bytes that [fgets] takes: at most [k], up to and with the first
    line feed. *)
Fixpoint take_line (k : nat) (inp : list ascii) : list ascii :=
  match k, inp with
  | S k', c :: rest => if decide (c = LF) then [c] else c :: take_line k' rest
  | _, _ => []
  end.

(** [fgets(a, n, stdin)]: reads at most [n - 1] bytes and stops behind a
    line feed.  Gives the bytes read, which it stores with a [NUL] behind
    them, or [None] for the null pointer that it returns when the input is
    at its end before a byte was read.  Reaching the end sets the
    end-of-file indicator, and a stream whose indicator is set gives no
    byte. *)
Definition fgets (n : Z) (inp : stdin) : option (list ascii) * stdin :=
  if at_eof inp then (None, inp) else
  if decide (n <= 0) then (None, inp) else
  let k := Z.to_nat (n - 1) in
  let line := take_line k (pending inp) in
  let rest := drop (length line) (pending inp) in
  if decide (last line = Some LF ∨ length line = k) then (Some line, mkStdin rest false)
  else if decide (line = []) then (None, mkStdin rest true)
  else (Some line, mkStdin rest true).

(** [ungetc(c, stdin)] for a [char] [c]: the byte goes back in front of the
    input and the end-of-file indicator is cleared.  A [char] of value -1
    (the byte 255, [char] being signed as on x86) is [EOF], for which the
    call does nothing. *)
Definition ungetc (c : ascii) (inp : stdin) : stdin :=
  if decide (c = "255"%char) then inp else mkStdin (c :: pending inp) false.

(** ** The rest of server.c *)

Module ServerMain.

(** [_parse_port_num] of server.c.  [tokens] are the strings of the array
    before the null pointer that ends it, the name of the command first.
    Gives the return value and the port when it was assigned. *)
Definition _parse_port_num (einval : bool) (tokens : list (list ascii)) (server_fd : Z)
    (o : os) : Z * option Z * os :=
  match tokens !! 1%nat with
  | None => (-1, None, sys_close server_fd (display_error "ERROR: No port provided" o))
  | Some port =>
      match tokens !! 2%nat with
      | Some _ =>
          (-1, None,
           sys_close server_fd
             (display_error
                "ERROR: Too many arguments: start-server takes a single port number" o))
      | None =>
          let '(v, errno_set) := Client.strtol einval port in
          let server_port := Client.long_to_int v in
          if errno_set : bool
          then (-1, Some server_port,
                sys_close server_fd (display_error "ERROR: No port provided" o))
          else (0, Some server_port, o)
      end
  end.

End ServerMain.

(** ** The rest of client.c *)

Module ClientMain.
Import Client.

(** [_read_user_input]: [write_buf] is the caller's array of [BUF_SIZE]
    bytes.  Gives the return value, the array, the length [*write_len] when
    it was assigned, the standard input and the operating system.  The
    local array [msg_buf] has [BUF_SIZE] bytes. *)
Definition _read_user_input (s : server_sock) (write_buf : list ascii) (prepend_len : Z)
    (inp : stdin) (o : os) : run (Z * list ascii * option Z * stdin * os) :=
  match fgets ((MAX_USER_MSG + 2) - prepend_len) inp with
  | (None, inp') => Ret (1, write_buf, None, inp', sys_close (sock_fd s) o)
  | (Some line, inp') =>
      if decide (Z.of_nat (length line) + 1 > BUF_SIZE) then Undef else
      write_buf ← strncat write_buf (line ++ [NUL]) ((MAX_USER_MSG + 2) - prepend_len);
      match strchr write_buf LF with
      | Some nl =>
          let write_len := strnlen write_buf (MAX_USER_MSG + 1) + 1 in
          if decide (nl + 1 < Z.of_nat (length write_buf)) then
            Ret (0, <[Z.to_nat (nl + 1) := LF]> (<[Z.to_nat nl := CR]> write_buf),
                 Some write_len, inp', o)
          else Undef
      | None =>
          if decide (MAX_USER_MSG + 1 < Z.of_nat (length write_buf)) then
            Ret (0, <[Z.to_nat (MAX_USER_MSG + 1) := LF]>
                      (<[Z.to_nat MAX_USER_MSG := CR]> write_buf),
                 Some (MAX_USER_MSG + 2),
                 ungetc (char_at write_buf MAX_USER_MSG) inp', o)
          else Undef
      end
  end.

(** What [snprintf] prints for ["client%d:"]. *)
Definition id_prompt (client_id : Z) : list ascii :=
  list_ascii_of_string "client" ++ list_ascii_of_string (pretty client_id) ++ [":"%char].

(** [snprintf(write_buf, BUF_SIZE, "client%d:", client_id)] on the array
    [a]: the string and a [NUL]; the bytes behind them stay as they are. *)
Definition snprintf_id (a : list ascii) (client_id : Z) : list ascii :=
  store_bytes a 0 (take (Z.to_nat (BUF_SIZE - 1)) (id_prompt client_id) ++ [NUL]).

(** Lines 115-121 of [client], for a socket that is ready.  The pointer
    [msg] is assigned only when [_recieve_message] returns 0; in the other
    cases [strncat] gets a pointer that was never set or was freed. *)
Definition show_message (fuel : nat) (s : server_sock) (o : os) : run (server_sock * os) :=
  '(ret, msg, s1, o1) ← _recieve_message fuel s o;
  match msg with
  | None => Undef
  | Some m =>
      m' ← strncat m [LF; NUL] 2;
      Ret (s1, display_message m' o1)
  end.

(** Lines 90-112 of [client], for a standard input that is ready: gives
    the status when [client] returns here, and the array. *)
Definition send_line (client_id : Z) (write_buf : list ascii) (prepend_len : Z)
    (s : server_sock) (inp : stdin) (o : os) : run (option Z * list ascii * stdin * os) :=
  '(r, wb, write_len, inp', o1) ← _read_user_input s write_buf prepend_len inp o;
  if decide (r = 1) then Ret (Some 0, wb, inp', o1) else
  match write_len with
  | None => Undef
  | Some len =>
      '(ret, o2) ← write_to_socket (sock_fd s) wb len o1;
      if decide (ret = 1) then
        Ret (Some (-1), wb, inp',
             sys_close (sock_fd s) (display_error "ERROR: Server write failure" o2))
      else if decide (ret = 2) then
        Ret (Some 0, wb, inp',
             sys_close (sock_fd s) (display_error "ERROR: Server disconnected" o2))
      else Ret (None, snprintf_id wb client_id, inp', o2)
  end.

(** The loop of [client] (lines 79-125); the standard input is descriptor
    0.  With no event left in the script [select] does not return. *)
Fixpoint client_loop (fuel : nat) (client_id : Z) (write_buf : list ascii) (prepend_len : Z)
    (s : server_sock) (inp : stdin) (o : os) : run (Z * stdin * os) :=
  if at_eof inp then Ret (0, inp, sys_close (sock_fd s) o) else
  match fuel with
  | O => Timeout
  | S fuel' =>
      match Server.sys_select o with
      | (None, _) => Timeout
      | (Some (SelReady ready), o0) =>
          '(stop, wb, inp1, o1) ←
            (if decide (0 ∈ ready) then send_line client_id write_buf prepend_len s inp o0
             else Ret (None, write_buf, inp, o0));
          match stop with
          | Some status => Ret (status, inp1, o1)
          | None =>
              '(s', o2) ←
                (if decide (sock_fd s ∈ ready) then show_message fuel s o1 else Ret (s, o1));
              client_loop fuel' client_id wb prepend_len s' inp1 o2
          end
      | (Some _, o0) => Ret (-1, inp, sys_close (sock_fd s) (perror "ERROR: select" o0))
      end
  end.

(** [client] from the point where the connection stands (lines 62-125):
    [a0] is what the array [write_buf] holds when the function gets it. *)
Definition client_session (einval : bool) (fuel : nat) (a0 : list ascii) (s : server_sock)
    (inp : stdin) (o : os) : run (Z * stdin * os) :=
  '(h, s1, o1) ← client_handshake einval fuel s o;
  match h with
  | Returned status => Ret (status, inp, o1)
  | Session client_id =>
      let write_buf := snprintf_id a0 client_id in
      let prepend_len := strnlen write_buf BUF_SIZE in
      client_loop fuel client_id write_buf prepend_len s1 inp o1
  end.

(** [_verify_user_input] *)
Definition _verify_user_input (tokens : list (list ascii)) (o : os) : Z * os :=
  match tokens !! 1%nat, tokens !! 2%nat, tokens !! 3%nat with
  | None, _, _ => (-1, display_error "ERROR: No port provided" o)
  | Some _, None, _ => (-1, display_error "ERROR: No hostname provided" o)
  | Some _, Some _, Some _ =>
      (-1, display_error
             "ERROR: Too many arguments: start-client takes a single port-number and hostname" o)
  | Some _, Some _, None => (0, o)
  end.

(** [_parse_port_num] of client.c; [tokens[1]] is a string when it is
    called. *)
Definition _parse_port_num (einval : bool) (tokens : list (list ascii)) (o : os)
    : run (Z * Z * os) :=
  match tokens !! 1%nat with
  | None => Undef
  | Some port =>
      let '(v, errno_set) := strtol einval port in
      let server_port := long_to_int v in
      if errno_set : bool
      then Ret (-1, server_port, display_error "ERROR: No port provided" o)
      else Ret (0, server_port, o)
  end.

(** What the calls that set the connection up return: [socket],
    [inet_pton], whether [errno] is set behind it, and [connect]. *)
Record net := mkNet {
  net_socket : Z;
  net_pton : Z;
  net_errno : bool;
  net_connect : Z
}.

(** [_client_setup]: [b0] is what the array of the [struct server_sock]
    holds.  Gives the return value and the structure. *)
Definition _client_setup (env : net) (b0 : list ascii) (o : os) : Z * server_sock * os :=
  let s := mkSock (net_socket env) (mkBuf b0 0) in
  if decide (net_socket env < 0) then (-1, s, perror "client: socket" o) else
  let o := mkOS (os_closed o ∖ {[net_socket env]}) (os_in o) (os_wr o) (os_accept o)
                (os_select o) (os_log o) (os_malloc o) in
  if decide (net_pton env < 1) then
    (-1, s, sys_close (net_socket env)
              (if net_errno env then perror "client: inet_pton" o
               else display_error "ERROR: No hostname provided" o))
  else if decide (net_connect env = -1) then
    (-1, s, sys_close (net_socket env) (perror "ERROR: client: connect" o))
  else (0, s, o).

(** The loop of [send_msg] (lines 359-364) over the tokens from the fourth
    on; [MAX_STR_LEN] is a constant of [io_helpers.h]. *)
Fixpoint append_tokens (MAX_STR_LEN : Z) (toks : list (list ascii)) (write_buf : list ascii)
    (append_total : Z) : run (list ascii) :=
  match toks with
  | [] => Ret write_buf
  | t :: rest =>
      if decide (BUF_SIZE - append_total > 0) then
        wb ← strncat write_buf t (BUF_SIZE - append_total);
        let append_total := append_total + strnlen t MAX_STR_LEN in
        wb ← strncat wb [" "%char; NUL] 2;
        append_tokens MAX_STR_LEN rest wb (append_total + 1)
      else Ret write_buf
  end.

(** [send_msg] *)
Definition send_msg (einval : bool) (MAX_STR_LEN : Z) (env : net) (b0 : list ascii)
    (tokens : list (list ascii)) (o : os) : run (Z * os) :=
  match tokens !! 1%nat, tokens !! 2%nat with
  | None, _ => Ret (-1, display_error "ERROR: No port provided" o)
  | Some _, None => Ret (-1, display_error "ERROR: No hostname provided" o)
  | Some port, Some _ =>
      let '(v, errno_set) := strtol einval port in
      if errno_set : bool then Ret (-1, display_error "ERROR: No port provided" o) else
      let '(r, s, o1) := _client_setup env b0 o in
      if decide (r = -1) then Ret (-1, o1) else
      wb ← append_tokens MAX_STR_LEN (drop 3 tokens) (zeroed BUF_SIZE) 0;
      wb ← strncat wb [CR; LF; NUL] 3;
      let msg_len := strnlen wb BUF_SIZE in
      '(ret, o2) ← write_to_socket (sock_fd s) wb msg_len o1;
      if decide (ret = 1) then
        Ret (-1, sys_close (sock_fd s) (perror "ERROR: write_to_socket" o2))
      else if decide (ret = 2) then
        Ret (-1, sys_close (sock_fd s) (display_error "ERROR: Server disconnected" o2))
      else Ret (0, sys_close (sock_fd s) o2)
  end.

(** [client] *)
Definition client (einval : bool) (fuel : nat) (env : net) (b0 a0 : list ascii)
    (tokens : list (list ascii)) (inp : stdin) (o : os) : run (Z * stdin * os) :=
  let '(r, o1) := _verify_user_input tokens o in
  if decide (r = -1) then Ret (-1, inp, o1) else
  let inp := mkStdin (pending inp) false in
  '(r, _, o2) ← _parse_port_num einval tokens o1;
  if decide (r = -1) then Ret (-1, inp, o2) else
  let '(r, s, o3) := _client_setup env b0 o2 in
  if decide (r = -1) then Ret (-1, inp, o3) else
  client_session einval fuel a0 s inp o3.

End ClientMain.

(** *** Concrete sessions of the client, continued *)

(** The server sends two empty frames and then [hello]; the beginning of
    another frame follows. *)
Definition os_hello_after_empty : os :=
  os_sends (CRLF ++ CRLF ++ str "hello" ++ CRLF ++ str "wor").

(** A byte is a decimal digit. *)
Definition is_digit (c : ascii) : Prop := is_Some (Client.digit_val c).

(** A client with id 1 in its session: the array [write_buf] holds the
    prompt, and behind it what an earlier, longer line has left. *)
Definition prompt1 : list ascii := ClientMain.id_prompt 1.

Definition used_buf : list ascii :=
  ClientMain.snprintf_id (replicate 128 "z"%char ++ CRLF ++ [NUL]) 1.

(** The socket of a client that has shown a broadcast message: the second
    CRLF of the server is what its buffer holds. *)
Definition sock_after_message : Client.server_sock :=
  Client.mkSock 5 (mkBuf (store_bytes (zeroed BUF_SIZE) 0 CRLF) 2).

(** The server has gone: the socket is ready, and the read finds its
    end. *)
Definition os_server_gone : os := os_start ∅ ∅ [] [SelReady {[5]}].

(** The user has closed the input. *)
Definition os_input_ready : os := os_start ∅ ∅ [] [SelReady {[0]}].

(** The server sends the id 7; the input is ready twice. *)
Definition os_one_line : os :=
  os_start {[ 5 := [InData (decimal_frame 7)] ]} ∅ [] [SelReady {[0]}; SelReady {[0]}].

(** A connection that can be set up, on descriptor 5. *)
Definition net_ok : ClientMain.net := ClientMain.mkNet 5 1 false 0.

(** The words of a message, each followed by a space. *)
Definition spaced (words : list (list ascii)) : list ascii :=
  concat ((λ w, w ++ [" "%char]) <$> words).

(** The command [send 8080 127.0.0.1 hello world]. *)
Definition send_hello : list (list ascii) :=
  [str "send"; str "8080"; str "127.0.0.1"; str "hello"; str "world"].

(** The same command with a word of 128 bytes. *)
Definition send_long : list (list ascii) :=
  [str "send"; str "8080"; str "127.0.0.1"; replicate 128 "w"%char].

(** * Properties of the framing codec *)

(** ** [find_network_newline] on the valid bytes *)

Lemma char_at_drop buf i j :
  0 <= i -> 0 <= j -> char_at (drop (Z.to_nat i) buf) j = char_at buf (i + j).
Proof.
  intros Hi Hj. unfold char_at.
  rewrite <- (take_drop (Z.to_nat i) buf) at 2.
  destruct (decide (Z.to_nat i <= length buf)%nat) as [Hle|Hgt].
  - rewrite app_nth2; rewrite length_take; [|lia].
    f_equal. lia.
  - rewrite drop_ge by lia. rewrite take_ge by lia. rewrite app_nil_r.
    rewrite !nth_overflow; simpl; auto; lia.
Qed.

Lemma crlf_pos_cons a b t :
  crlf_pos (a :: b :: t) =
  if decide (a = CR ∧ b = LF) then 2 else shift 1 (crlf_pos (b :: t)).
Proof. reflexivity. Qed.

Lemma crlf_pos_range l : crlf_pos l = -1 ∨ 2 <= crlf_pos l <= Z.of_nat (length l).
Proof.
  induction l as [|a l IH]; [by left|].
  destruct l as [|b t]; [by left|].
  rewrite crlf_pos_cons. case_decide; [right; simpl; lia|].
  unfold shift. case_decide; [by left|]. right.
  destruct IH as [?|?]; [done|]. rewrite (length_cons a). lia.
Qed.

(** The loop from index [i] with [todo] rounds left sees the [todo + 1]
    bytes from [i] on, no more. *)
Lemma find_from_spec todo : ∀ buf i, 0 <= i ->
  find_from buf i todo = shift i (crlf_pos (take (S todo) (drop (Z.to_nat i) buf))).
Proof.
  induction todo as [|k IH]; intros buf i Hi.
  - simpl. destruct (drop _ _) as [|a [|b t]]; reflexivity.
  - cbn [find_from]. rewrite IH by lia.
    rewrite <- (char_at_drop buf i 1) by lia.
    replace (char_at buf i) with (char_at (drop (Z.to_nat i) buf) 0)
      by (rewrite char_at_drop by lia; f_equal; lia).
    replace (Z.to_nat (i + 1)) with (Z.to_nat i + 1)%nat by lia.
    rewrite <- drop_drop.
    destruct (drop (Z.to_nat i) buf) as [|a [|b t]].
    + reflexivity.
    + change (char_at [a] 1) with NUL.
      case_decide as Hc; [destruct Hc as [_ Hc]; discriminate Hc|reflexivity].
    + change (char_at (a :: b :: t) 0) with a. change (char_at (a :: b :: t) 1) with b.
      change (drop 1 (a :: b :: t)) with (b :: t).
      change (take (S (S k)) (a :: b :: t)) with (a :: take (S k) (b :: t)).
      change (take (S k) (b :: t)) with (b :: take k t).
      rewrite crlf_pos_cons. pose proof (crlf_pos_range (b :: take k t)).
      unfold shift. repeat case_decide; lia.
Qed.

Lemma crlf_pos_short l : (length l <= 1)%nat -> crlf_pos l = -1.
Proof. intros H. destruct l as [|a [|b t]]; [done..|]. rewrite !length_cons in H. lia. Qed.

(** The result depends on the first [n] bytes of the array alone. *)
Lemma find_network_newline_spec buf n :
  find_network_newline buf n = crlf_pos (take (Z.to_nat n) buf).
Proof.
  unfold find_network_newline. rewrite find_from_spec by lia.
  change (Z.to_nat 0) with O. rewrite drop_0. unfold shift.
  destruct (decide (n <= 1)) as [Hn|Hn].
  - replace (Z.to_nat (n - 1)) with O by lia.
    rewrite !crlf_pos_short; [done| |]; rewrite length_take; lia.
  - replace (S (Z.to_nat (n - 1))) with (Z.to_nat n) by lia.
    case_decide; lia.
Qed.

(** ** Reading a delivery chunk by chunk *)

Lemma store_bytes_spec (a : list ascii) off bs :
  0 <= off -> (Z.to_nat off + length bs <= length a)%nat ->
  store_bytes a off bs =
  take (Z.to_nat off) a ++ bs ++ drop (Z.to_nat off + length bs) a.
Proof.
  intros Hoff Hlen. unfold store_bytes.
  rewrite <- (take_drop (Z.to_nat off) a) at 1.
  replace (Z.to_nat off) with (length (take (Z.to_nat off) a) + 0)%nat at 1
    by (rewrite length_take; lia).
  rewrite list_inserts_app_r. f_equal.
  rewrite <- (take_drop (length bs) (drop (Z.to_nat off) a)) at 1.
  rewrite list_inserts_0_r by (rewrite length_take, length_drop; lia).
  by rewrite drop_drop.
Qed.

Lemma length_store_bytes (a : list ascii) off bs :
  length (store_bytes a off bs) = length a.
Proof. apply length_inserts. Qed.

Section Reading.
Context (fd : Z).

Lemma sys_read_data count o bs q :
  fd ∉ os_closed o ->
  os_in o !! fd = Some (InData bs :: q) ->
  (length bs <= Z.to_nat count)%nat ->
  sys_read fd count o = (RdBytes bs, set_in fd q o).
Proof.
  intros Hopen Hq Hlen. unfold sys_read.
  rewrite decide_False by done. rewrite Hq. simpl.
  rewrite take_ge, drop_ge by lia. by rewrite decide_True.
Qed.

(** A read that finds the chunk [c], which fits: the valid bytes grow by
    [c] and the return value is that of [classify]. *)
Lemma read_from_socket_data b o c q :
  fd ∉ os_closed o ->
  os_in o !! fd = Some (InData c :: q) ->
  c ≠ [] ->
  0 <= inbuf b ->
  inbuf b + Z.of_nat (length c) <= BUF_SIZE ->
  length (buf b) = Z.to_nat BUF_SIZE ->
  ∃ b', read_from_socket fd b o = (classify (valid b ++ c), b', set_in fd q o)
        ∧ valid b' = valid b ++ c
        ∧ inbuf b' = inbuf b + Z.of_nat (length c)
        ∧ length (buf b') = length (buf b).
Proof.
  intros Hopen Hq Hc Hin Hfit Hlen.
  assert (0 < length c)%nat by (destruct c; [done|simpl; lia]).
  unfold read_from_socket.
  rewrite decide_False by lia. rewrite (sys_read_data _ _ c q) by (done || lia).
  cbv zeta.
  exists (mkBuf (store_bytes (buf b) (inbuf b) c) (inbuf b + Z.of_nat (length c))). rewrite decide_False by lia.
  cbn [buf inbuf]. rewrite find_network_newline_spec.
  assert (Hv : take (Z.to_nat (inbuf b + Z.of_nat (length c)))
                    (store_bytes (buf b) (inbuf b) c) = valid b ++ c).
  { rewrite store_bytes_spec by lia. unfold valid.
    rewrite app_assoc. rewrite take_app_length'; [done|].
    rewrite length_app, length_take. lia. }
  rewrite Hv. split; [|split; [exact Hv|split; [done|apply length_store_bytes]]].
  unfold classify. cbv zeta.
  replace (Z.of_nat (length (valid b ++ c))) with (inbuf b + Z.of_nat (length c)).
  2:{ unfold valid. rewrite length_app, length_take. lia. }
  repeat case_decide; try done; lia.
Qed.

Lemma read_all_chunks chunks : ∀ b o,
  fd ∉ os_closed o ->
  os_in o !! fd = Some (InData <$> chunks) ->
  Forall (λ c, c ≠ []) chunks ->
  0 <= inbuf b ->
  inbuf b + Z.of_nat (length (concat chunks)) <= BUF_SIZE ->
  length (buf b) = Z.to_nat BUF_SIZE ->
  ∃ b' o', read_all (length chunks) fd b o = (classify <$> prefixes (valid b) chunks, b', o')
           ∧ valid b' = valid b ++ concat chunks
           ∧ inbuf b' = inbuf b + Z.of_nat (length (concat chunks))
           ∧ length (buf b') = length (buf b).
Proof.
  induction chunks as [|c rest IH]; intros b o Hopen Hq Hne Hin Hfit Hlen.
  - exists b, o. simpl. rewrite app_nil_r. repeat split; lia.
  - inversion Hne as [|?? Hc Hne']; subst.
    simpl in Hfit. rewrite length_app in Hfit.
    destruct (read_from_socket_data b o c (InData <$> rest)) as (b1 & Hr & Hv & Hi & Hl);
      try done; try lia.
    destruct (IH b1 (set_in fd (InData <$> rest) o)) as (b2 & o2 & Hr2 & Hv2 & Hi2 & Hl2);
      try done; try lia.
    { simpl. apply lookup_insert_eq. }
    exists b2, o2. cbn [read_all length]. rewrite Hr, Hr2. cbn [prefixes fmap list_fmap].
    rewrite Hv. split; [done|]. simpl concat. rewrite length_app.
    split; [by rewrite Hv2, Hv, app_assoc|]. split; [lia|congruence].
Qed.
End Reading.

(** ** Extraction *)

Lemma crlf_pos_has_crlf l : crlf_pos l ≠ -1 -> has_crlf l.
Proof.
  induction l as [|a l IH]; [done|].
  destruct l as [|b t]; [done|].
  rewrite crlf_pos_cons. case_decide as Hc.
  - destruct Hc as [-> ->]. intros _. by exists [], t.
  - unfold shift. case_decide; [done|]. intros _.
    destruct IH as (l1 & l2 & E); [done|].
    exists (a :: l1), l2. by rewrite E.
Qed.

Lemma has_crlf_app l s : has_crlf l -> has_crlf (l ++ s).
Proof. intros (l1 & l2 & ->). exists l1, (l2 ++ s). by rewrite <- !app_assoc. Qed.

Lemma valid_length b :
  0 <= inbuf b -> (Z.to_nat (inbuf b) <= length (buf b))%nat ->
  Z.of_nat (length (valid b)) = inbuf b.
Proof. intros. unfold valid. rewrite length_take. lia. Qed.

(** What [get_message] gives when the valid bytes hold a frame: the frame
    in a zeroed array, and the rest of the valid bytes at the front. *)
Lemma get_message_frame b :
  let crlf := crlf_pos (valid b) in
  crlf ≠ -1 -> crlf < BUF_SIZE ->
  0 <= inbuf b -> length (buf b) = Z.to_nat BUF_SIZE -> inbuf b <= BUF_SIZE ->
  get_message b =
  Ret (0, Some (take (Z.to_nat crlf) (valid b) ++ replicate (Z.to_nat (BUF_SIZE - crlf)) NUL),
       mkBuf (drop (Z.to_nat crlf) (valid b) ++ drop (Z.to_nat (inbuf b - crlf)) (buf b))
             (inbuf b - crlf)).
Proof.
  intros crlf Hne Hlt Hin Hlen Hcap.
  pose proof (crlf_pos_range (valid b)) as Hr. fold crlf in Hr.
  rewrite valid_length in Hr by lia.
  destruct Hr as [?|Hr]; [done|].
  unfold get_message. rewrite find_network_newline_spec. fold (valid b). fold crlf.
  rewrite decide_False by done. rewrite decide_False by lia.
  rewrite decide_True by lia.
  assert (Ht : take (Z.to_nat crlf) (buf b) = take (Z.to_nat crlf) (valid b)).
  { unfold valid. rewrite take_take. f_equal. lia. }
  f_equal. f_equal; [f_equal; f_equal|f_equal].
  - rewrite store_bytes_spec; [|lia|].
    2:{ rewrite length_take. unfold zeroed. rewrite length_replicate. lia. }
    change (Z.to_nat 0) with O. rewrite take_0. cbn [app Nat.add].
    rewrite length_take. unfold zeroed. rewrite drop_replicate.
    rewrite Ht.
    replace (Z.to_nat crlf `min` length (buf b))%nat with (Z.to_nat crlf) by lia.
    replace (Z.to_nat BUF_SIZE - Z.to_nat crlf)%nat with (Z.to_nat (BUF_SIZE - crlf)) by lia.
    assert (length (valid b) = Z.to_nat (inbuf b)) as Hvl
      by (unfold valid; rewrite length_take; lia).
    apply list_insert_id.
    rewrite lookup_app_r by (rewrite length_take; lia).
    apply lookup_replicate. split; [done|]. rewrite length_take. lia.
  - rewrite store_bytes_spec; [|lia|].
    2:{ rewrite length_take, length_drop. lia. }
    change (Z.to_nat 0) with O. rewrite take_0. cbn [app Nat.add].
    rewrite length_take, length_drop. f_equal.
    + unfold valid. rewrite take_drop_commute. f_equal. f_equal. lia.
    + f_equal. lia.
Qed.

Lemma classify_frame126_prefix k : (k < 128)%nat -> classify (take k frame126) = 2.
Proof.
  intros Hk.
  do 128 (destruct k as [|k]; [reflexivity|]). lia.
Qed.

Lemma prefix_is_take {A} (p s l : list A) : p ++ s = l -> p = take (length p) l.
Proof. intros <-. by rewrite take_app_length. Qed.

Lemma classify_codes_frame126 chunks : ∀ pre,
  pre ++ concat chunks = frame126 ->
  Forall (λ c, c ≠ []) chunks ->
  chunks ≠ [] ->
  classify <$> prefixes pre chunks = replicate (length chunks - 1) 2 ++ [0].
Proof.
  induction chunks as [|c rest IH]; intros pre Hcat Hne Hnil; [done|].
  inversion Hne as [|?? Hc Hne']; subst.
  cbn [prefixes fmap list_fmap]. simpl in Hcat. rewrite app_assoc in Hcat.
  destruct rest as [|c' rest'].
  - simpl in Hcat. rewrite app_nil_r in Hcat. rewrite Hcat. reflexivity.
  - rewrite (IH (pre ++ c)) by done.
    rewrite (prefix_is_take _ _ _ Hcat). rewrite classify_frame126_prefix.
    + simpl. by rewrite Nat.sub_0_r.
    + apply (f_equal length) in Hcat. rewrite length_app in Hcat.
      inversion Hne' as [|?? Hc' _]; subst.
      change (length frame126) with 128%nat in Hcat.
      destruct c' as [|x c'']; [done|]. cbn [concat] in Hcat.
      rewrite !length_app, length_cons in Hcat. rewrite length_app. lia.
Qed.

Lemma c_str_frame126_padded n :
  c_str (frame126 ++ replicate n NUL) = frame126.
Proof. destruct n; [by rewrite app_nil_r|]. reflexivity. Qed.

(** C5: however the 126 bytes ['A'] and their CRLF are cut into non-empty
    chunks, one per read into an empty buffer, every read but the last
    returns 2 (partial) and the last returns 0 (frame ready), so 0 comes
    exactly once; [get_message] then hands over the frame, whose first 126
    bytes are the payload, and leaves the buffer empty.  For every buffer in
    which [find_network_newline] finds a frame, [get_message] pops the bytes up
    to and with that terminator and leaves the unread bytes at offset zero, in
    order, none lost and none twice, with [inbuf] smaller by the length of
    the frame. *)
Theorem frame126_ready_once_and_compaction :
  (∀ (chunks : list (list ascii)) (fd : Z) (b : sockbuf) (o : os),
     concat chunks = frame126 ->
     Forall (λ c, c ≠ []) chunks ->
     inbuf b = 0 ->
     length (buf b) = Z.to_nat BUF_SIZE ->
     fd ∉ os_closed o ->
     os_in o !! fd = Some (InData <$> chunks) ->
     ∃ b1 o1 dst b2,
       read_all (length chunks) fd b o = (replicate (length chunks - 1) 2 ++ [0], b1, o1)
       ∧ get_message b1 = Ret (0, Some dst, b2)
       ∧ c_str dst = frame126
       ∧ take 126 dst = replicate 126 "A"%char
       ∧ inbuf b2 = 0)
  ∧ (∀ (b : sockbuf),
       let crlf := find_network_newline (buf b) (inbuf b) in
       crlf ≠ -1 -> crlf < BUF_SIZE ->
       0 <= inbuf b <= BUF_SIZE ->
       length (buf b) = Z.to_nat BUF_SIZE ->
       ∃ dst b',
         get_message b = Ret (0, Some dst, b')
         ∧ take (Z.to_nat crlf) dst ++ valid b' = valid b
         ∧ Z.of_nat (length (take (Z.to_nat crlf) dst)) = crlf
         ∧ dst !! Z.to_nat crlf = Some NUL
         ∧ inbuf b' = inbuf b - crlf
         ∧ length (buf b') = length (buf b)).
Proof.
  split.
  - intros chunks fd b o Hcat Hne Hin Hlen Hopen Hq.
    assert (Hnil : chunks ≠ []) by (intros ->; discriminate Hcat).
    destruct (read_all_chunks fd chunks b o) as (b1 & o1 & Hr & Hv & Hi & Hl);
      try done; try lia.
    { rewrite Hcat, Hin. by vm_compute. }
    assert (Hvb : valid b = []) by (unfold valid; by rewrite Hin).
    rewrite Hvb in Hr, Hv. simpl in Hv. rewrite Hcat in Hv, Hi.
    rewrite classify_codes_frame126 in Hr by (done || by rewrite Hcat).
    pose proof (get_message_frame b1) as Hg. rewrite Hv in Hg.
    change (crlf_pos frame126) with 128 in Hg. cbv zeta in Hg.
    eexists b1, o1, _, _. split; [exact Hr|]. split.
    { apply Hg; try done; try lia. rewrite Hi, Hin. by vm_compute. }
    split; [apply c_str_frame126_padded|]. split; [reflexivity|].
    cbn [inbuf]. rewrite Hi, Hin. reflexivity.
  - intros b crlf Hne Hlt Hin Hlen.
    unfold crlf in *. clear crlf. rewrite find_network_newline_spec in *.
    fold (valid b) in *.
    pose proof (crlf_pos_range (valid b)) as Hr.
    assert (Hvl : length (valid b) = Z.to_nat (inbuf b))
      by (unfold valid; rewrite length_take; lia).
    destruct Hr as [?|Hr]; [done|].
    eexists _, _. split; [apply get_message_frame; try done; lia|].
    set (crlf := crlf_pos (valid b)) in *.
    rewrite take_app_length' by (rewrite length_take; lia).
    split.
    { unfold valid at 2. cbn [buf inbuf].
      rewrite take_app_length' by (rewrite length_drop; lia).
      apply take_drop. }
    split; [rewrite length_take; lia|]. split.
    { rewrite lookup_app_r by (rewrite length_take; lia).
      apply lookup_replicate. split; [done|]. rewrite length_take. lia. }
    split; [done|]. cbn [buf].
    rewrite length_app, !length_drop. lia.
Qed.

Lemma frame126_witness :
  (∃ b1 o1 dst b2,
     read_all 3 4 empty_buf os126 = ([2; 2; 0], b1, o1)
     ∧ get_message b1 = Ret (0, Some dst, b2)
     ∧ c_str dst = frame126
     ∧ take 126 dst = replicate 126 "A"%char
     ∧ inbuf b2 = 0)
  ∧ (∃ dst b',
       get_message two_frames_buf = Ret (0, Some dst, b')
       ∧ take 4 dst ++ valid b' = str "hi" ++ CRLF ++ str "yo"
       ∧ Z.of_nat (length (take 4 dst)) = 4
       ∧ dst !! 4%nat = Some NUL
       ∧ inbuf b' = 2
       ∧ length (buf b') = 131%nat).
Proof.
  split.
  - apply (proj1 frame126_ready_once_and_compaction delivery126 4 empty_buf os126).
    + reflexivity.
    + repeat constructor; discriminate.
    + reflexivity.
    + reflexivity.
    + vm_compute. inversion 1.
    + reflexivity.
  - apply (proj2 frame126_ready_once_and_compaction two_frames_buf).
    + vm_compute. discriminate.
    + vm_compute. reflexivity.
    + vm_compute. split; discriminate.
    + reflexivity.
Defined.

(** ** The capacity of the buffer *)

Lemma sys_read_bound fd count o bs o' :
  sys_read fd count o = (RdBytes bs, o') -> (length bs <= Z.to_nat count)%nat.
Proof.
  unfold sys_read. case_decide; [done|].
  destruct (default [] (os_in o !! fd)) as [|[c| |] q]; intros E; simplify_eq.
  - simpl. lia.
  - rewrite length_take. lia.
Qed.

Lemma read_from_socket_capacity fd b o r b' o' :
  read_from_socket fd b o = (r, b', o') ->
  buf_ok b ->
  buf_ok b' ∧ (inbuf b' >= BUF_SIZE -> ¬ has_crlf (valid b') -> r = -1).
Proof.
  intros Hr [Hin Hlen]. unfold read_from_socket in Hr.
  case_decide; [by simplify_eq|].
  destruct (sys_read fd (BUF_SIZE - inbuf b) o) as [[e|bs] o1] eqn:Hs; [by simplify_eq|].
  apply sys_read_bound in Hs. cbv zeta in Hr.
  set (b1 := mkBuf (store_bytes (buf b) (inbuf b) bs) (inbuf b + Z.of_nat (length bs))) in *.
  assert (Hok : buf_ok b1).
  { split; unfold b1; cbn [buf inbuf]; [lia|by rewrite length_store_bytes]. }
  case_decide as Hz; [simplify_eq; split; [done|]; cbn [inbuf]; lia|].
  rewrite find_network_newline_spec in Hr. fold (valid b1) in Hr.
  case_decide as Hc.
  { simplify_eq. split; [done|]. intros _ Hno. destruct Hno.
    apply crlf_pos_has_crlf. tauto. }
  case_decide; simplify_eq; split; try done; lia.
Qed.

Lemma read_all_capacity n : ∀ fd b o rs b' o',
  read_all n fd b o = (rs, b', o') -> buf_ok b -> buf_ok b'.
Proof.
  induction n as [|n IH]; intros fd b o rs b' o' Hr Hok;
    [cbn [read_all] in Hr; by simplify_eq|].
  cbn [read_all] in Hr.
  destruct (read_from_socket fd b o) as [[r b1] o1] eqn:H1.
  destruct (read_all n fd b1 o1) as [[rs' b2] o2] eqn:H2. simplify_eq.
  eapply IH; [exact H2|]. by eapply read_from_socket_capacity.
Qed.

Lemma classify_codes_overflow (stream : list ascii) chunks : ∀ pre,
  pre ++ concat chunks = stream ->
  Z.of_nat (length stream) = BUF_SIZE ->
  ¬ has_crlf stream ->
  Forall (λ c, c ≠ []) chunks ->
  chunks ≠ [] ->
  classify <$> prefixes pre chunks = replicate (length chunks - 1) 2 ++ [-1].
Proof.
  induction chunks as [|c rest IH]; intros pre Hcat Hlen Hno Hne Hnil; [done|].
  inversion Hne as [|?? Hc Hne']; subst.
  cbn [prefixes fmap list_fmap]. cbn [concat] in *. rewrite app_assoc in *.
  assert (Hcrlf : crlf_pos (pre ++ c) = -1).
  { destruct (decide (crlf_pos (pre ++ c) = -1)) as [|Hx]; [done|].
    destruct Hno. by apply has_crlf_app, crlf_pos_has_crlf. }
  destruct rest as [|c' rest'].
  - cbn [concat] in *. rewrite app_nil_r in *. simpl.
    unfold classify. cbv zeta. rewrite Hcrlf.
    rewrite decide_False by (intros [? _]; done). by rewrite decide_True by lia.
  - rewrite (IH (pre ++ c)) by done.
    unfold classify. cbv zeta. rewrite Hcrlf.
    rewrite decide_False by (intros [? _]; done).
    rewrite decide_False.
    + simpl. by rewrite Nat.sub_0_r.
    + inversion Hne' as [|?? Hc' _]; subst.
      destruct c' as [|x c'']; [done|]. cbn [concat] in Hlen.
      rewrite !length_app, length_cons in Hlen. rewrite length_app. lia.
Qed.

(** C6: a read that brings the valid bytes to [BUF_SIZE] without a CRLF among
    them returns -1; no read, however many are made, takes [inbuf] above
    [BUF_SIZE]; and 131 bytes without a terminator, in whatever non-empty
    chunks they come, end in a read that returns -1, all reads before it
    returning 2. *)
Theorem capacity_without_terminator_is_error :
  (∀ fd b o r b' o',
     read_from_socket fd b o = (r, b', o') ->
     buf_ok b ->
     buf_ok b' ∧ (inbuf b' >= BUF_SIZE -> ¬ has_crlf (valid b') -> r = -1))
  ∧ (∀ n fd b o rs b' o',
       read_all n fd b o = (rs, b', o') -> buf_ok b -> inbuf b' <= BUF_SIZE)
  ∧ (∀ (stream : list ascii) (chunks : list (list ascii)) (fd : Z) (b : sockbuf) (o : os),
       length stream = 131%nat ->
       ¬ has_crlf stream ->
       concat chunks = stream ->
       Forall (λ c, c ≠ []) chunks ->
       inbuf b = 0 ->
       length (buf b) = Z.to_nat BUF_SIZE ->
       fd ∉ os_closed o ->
       os_in o !! fd = Some (InData <$> chunks) ->
       ∃ b' o',
         read_all (length chunks) fd b o = (replicate (length chunks - 1) 2 ++ [-1], b', o')
         ∧ valid b' = stream).
Proof.
  split; [exact read_from_socket_capacity|]. split.
  - intros n fd b o rs b' o' Hr Hok.
    destruct (read_all_capacity n fd b o rs b' o' Hr Hok) as [? _]. lia.
  - intros stream chunks fd b o Hlen Hno Hcat Hne Hin Hbl Hopen Hq.
    assert (Hnil : chunks ≠ []) by (intros ->; subst stream; discriminate Hlen).
    destruct (read_all_chunks fd chunks b o) as (b1 & o1 & Hr & Hv & Hi & Hl);
      try done; try lia.
    { rewrite Hcat, Hin, Hlen. by vm_compute. }
    assert (Hvb : valid b = []) by (unfold valid; by rewrite Hin).
    rewrite Hvb in Hr, Hv. simpl in Hv.
    rewrite (classify_codes_overflow stream) in Hr; try done.
    + exists b1, o1. split; [done|congruence].
    + rewrite Hlen. reflexivity.
Qed.

Lemma no_crlf_in_B n : ¬ has_crlf (replicate n "B"%char).
Proof.
  intros (l1 & l2 & E).
  assert (Hin : CR ∈ replicate n "B"%char) by (rewrite E; set_solver).
  apply elem_of_replicate in Hin as [? _]. discriminate.
Qed.

Lemma capacity_witness :
  (buf_ok almost_full_buf
   ∧ ∃ r b' o', read_from_socket 4 almost_full_buf os_one_more = (r, b', o')
                ∧ buf_ok b' ∧ inbuf b' = BUF_SIZE ∧ r = -1)
  ∧ inbuf (read_all 3 4 empty_buf os131).1.2 <= BUF_SIZE
  ∧ ∃ b' o', read_all 3 4 empty_buf os131 = ([2; 2; -1], b', o')
             ∧ valid b' = replicate 131 "B"%char.
Proof.
  pose proof capacity_without_terminator_is_error as (H1 & H2 & H3).
  split; [|split].
  - assert (Hok : buf_ok almost_full_buf)
      by (split; [vm_compute; split; discriminate|reflexivity]).
    split; [exact Hok|].
    destruct (read_from_socket 4 almost_full_buf os_one_more) as [[r b'] o'] eqn:E.
    exists r, b', o'. split; [reflexivity|].
    destruct (H1 _ _ _ _ _ _ E Hok) as [Hok' Hr].
    vm_compute in E. injection E as <- <- <-.
    split; [exact Hok'|]. split; [reflexivity|].
    apply Hr; [vm_compute; discriminate|]. apply (no_crlf_in_B 131).
  - destruct (read_all 3 4 empty_buf os131) as [[rs b'] o'] eqn:E.
    apply (H2 3%nat 4 empty_buf os131 rs b' o' E).
    split; [vm_compute; split; discriminate|reflexivity].
  - apply (H3 (replicate 131 "B"%char) delivery131 4 empty_buf os131).
    + reflexivity.
    + apply no_crlf_in_B.
    + reflexivity.
    + repeat constructor; discriminate.
    + reflexivity.
    + reflexivity.
    + vm_compute. inversion 1.
    + reflexivity.
Defined.

(** * Properties of the server *)

(** ** The calls that the helpers of the server make *)

Lemma bind_Ret {A B} (m : run A) (k : A → run B) (b : B) :
  m ≫= k = Ret b -> ∃ a, m = Ret a ∧ k a = Ret b.
Proof. destruct m as [a| |]; [|done..]. intros H. by exists a. Qed.

Ltac run_inv H :=
  let a := fresh "a" in
  let Ha := fresh "Hrun" in
  apply bind_Ret in H as (a & Ha & H).

Lemma log_ext_refl P o : log_ext P o o.
Proof. exists []. by rewrite app_nil_r. Qed.

Lemma log_ext_trans P o1 o2 o3 : log_ext P o1 o2 -> log_ext P o2 o3 -> log_ext P o1 o3.
Proof.
  intros (e1 & H1 & F1) (e2 & H2 & F2). exists (e1 ++ e2).
  split; [by rewrite H2, H1, app_assoc|by apply Forall_app].
Qed.

Lemma log_ext_weaken (P Q : syscall → Prop) o o' :
  (∀ e, P e -> Q e) -> log_ext P o o' -> log_ext Q o o'.
Proof. intros HPQ (e & H & F). exists e. split; [done|]. eapply Forall_impl; eauto. Qed.

Lemma log_ext_call P e o : P e -> log_ext P o (log_call e o).
Proof. intros He. exists [e]. split; [done|]. by constructor. Qed.

Lemma log_ext_same P o o' : os_log o' = os_log o -> log_ext P o o'.
Proof. intros H. exists []. by rewrite app_nil_r. Qed.

Lemma touches_weaken (F G : Z → Prop) e : (∀ fd, F fd -> G fd) -> touches F e -> touches G e.
Proof. intros HFG. destruct e; simpl; auto. Qed.

Lemma only_writes_touches (F : Z → Prop) fd e : F fd -> only_writes fd e -> touches F e.
Proof. intros HF. destruct e; simpl; try done. by intros ->. Qed.

Lemma log_ext_only_writes (F : Z → Prop) fd o o' :
  F fd -> log_ext (only_writes fd) o o' -> log_ext (touches F) o o'.
Proof. intros HF. apply log_ext_weaken. intros e. by apply only_writes_touches. Qed.

Lemma sys_write_log fd data o r o' :
  sys_write fd data o = (r, o') -> os_log o' = os_log o ++ [SysWrite fd data r].
Proof.
  unfold sys_write. case_decide; [by intros [= <- <-]|].
  destruct (default [] (os_wr o !! fd)) as [|[|k] q]; by intros [= <- <-].
Qed.

Lemma sys_read_log fd count o r o' : sys_read fd count o = (r, o') -> os_log o' = os_log o.
Proof.
  unfold sys_read. case_decide; [by intros [= <- <-]|].
  destruct (default [] (os_in o !! fd)) as [|[bs| |] q]; by intros [= <- <-].
Qed.

Lemma write_loop_log fuel : ∀ fd data total len o r o',
  write_loop fuel fd data total len o = Ret (r, o') -> log_ext (only_writes fd) o o'.
Proof.
  induction fuel as [|fuel IH]; intros fd data total len o r o' H; cbn [write_loop] in H.
  - case_decide; [done|]. injection H as <- <-. apply log_ext_refl.
  - case_decide; [|injection H as <- <-; apply log_ext_refl].
    destruct (sys_write _ _ _) as [bw o1] eqn:Hw. apply sys_write_log in Hw.
    assert (log_ext (only_writes fd) o o1) as H1 by (eexists [_]; split; [exact Hw|by repeat constructor]).
    case_decide.
    { injection H as <- <-. eapply log_ext_trans; [exact H1|]. by apply log_ext_call. }
    case_decide; [by injection H as <- <-|].
    eapply log_ext_trans; [exact H1|]. by eapply IH.
Qed.

(** The first call of [write_to_socket] is a [write] of the [len] bytes. *)
Lemma write_to_socket_first fd data len o r o' :
  write_to_socket fd data len o = Ret (r, o') -> 0 < len ->
  ∃ ret ext, os_log o' = os_log o ++ SysWrite fd (take (Z.to_nat len) data) ret :: ext
             ∧ Forall (only_writes fd) ext.
Proof.
  unfold write_to_socket. intros H Hlen.
  destruct (Z.to_nat len) as [|fuel] eqn:Hf; [lia|]. cbn [write_loop] in H.
  rewrite decide_True in H by lia.
  replace (Z.to_nat (len - 0)) with (S fuel) in H by lia.
  change (Z.to_nat 0) with O in H. rewrite drop_0 in H.
  destruct (sys_write _ _ _) as [bw o1] eqn:Hw. apply sys_write_log in Hw.
  exists bw.
  case_decide.
  { injection H as <- <-. eexists [_]. simpl. rewrite Hw, <- app_assoc. split; [done|].
    by repeat constructor. }
  case_decide.
  { injection H as <- <-. exists []. by rewrite Hw. }
  apply write_loop_log in H as (ext & He & Hf'). exists ext.
  rewrite He, Hw, <- app_assoc. done.
Qed.

Lemma write_buf_to_client_log c a len o r a' o' :
  write_buf_to_client c a len o = Ret (r, a', o') ->
  log_ext (only_writes (sock_fd c)) o o'.
Proof.
  unfold write_buf_to_client. intros H.
  case_decide; [injection H as <- <- <-; apply log_ext_refl|].
  case_decide; [done|]. run_inv H. destruct a0 as [r0 o0].
  injection H as <- <- <-. by eapply write_loop_log.
Qed.

(** [_remove_client] leaves the list of clients as it is. *)
Lemma _remove_client_spec st fd o st' o' :
  _remove_client st fd o = Ret (st', o') ->
  clients st' = clients st ∧ client_id st' = client_id st
  ∧ all_fds st' = all_fds st ∖ {[fd]}
  ∧ client_count st' = client_count st - 1
  ∧ os_log o' = os_log o ++ [SysClose fd]
  ∧ os_closed o' = {[fd]} ∪ os_closed o.
Proof.
  unfold _remove_client. intros H. run_inv H. unfold int_add in Hrun.
  case_decide; [|done]. injection Hrun as <-. injection H as <- <-. done.
Qed.

Lemma _remove_client_log F st fd o st' o' :
  _remove_client st fd o = Ret (st', o') -> log_ext (touches F) o o'.
Proof.
  intros H. apply _remove_client_spec in H as (_ & _ & _ & _ & Hl & _).
  exists [SysClose fd]. split; [done|]. by repeat constructor.
Qed.

Lemma _server_commands_log c msg data_len count o r o' :
  _server_commands c msg data_len count o = Ret (r, o') ->
  log_ext (only_writes (sock_fd c)) o o'.
Proof.
  unfold _server_commands. intros H. case_decide; [done|].
  destruct (strchr _ _) as [i|]; [|injection H as <- <-; apply log_ext_refl].
  case_decide; [|injection H as <- <-; apply log_ext_refl].
  run_inv H. destruct a as [[r0 a0] o0]. apply write_buf_to_client_log in Hrun.
  by case_decide; injection H as <- <-.
Qed.

Lemma fds_from_lookup i st c : clients st !! i = Some c -> fds_from i st (sock_fd c).
Proof.
  intros H. unfold fds_from. apply list_elem_of_lookup. exists O.
  by rewrite lookup_drop, Nat.add_0_r, list_lookup_fmap, H.
Qed.

Lemma fds_from_S i st fd : fds_from (S i) st fd -> fds_from i st fd.
Proof.
  unfold fds_from. rewrite !list_elem_of_lookup. intros [j Hj].
  exists (S j). rewrite lookup_drop in *. by replace (i + S j)%nat with (S i + j)%nat by lia.
Qed.

(** A broadcast from the node at [dest_c] writes to descriptors of the nodes
    from [dest_c] on and to no other. *)
Lemma broadcast_spec fuel : ∀ dest_c wb len st o wb' st' o',
  broadcast fuel dest_c wb len st o = Ret (wb', st', o') ->
  clients st' = clients st ∧ client_id st' = client_id st
  ∧ log_ext (touches (fds_from dest_c st)) o o'.
Proof.
  induction fuel as [|fuel IH]; intros dest_c wb len st o wb' st' o' H; cbn [broadcast] in H.
  - destruct (clients st !! dest_c); [done|]. injection H as <- <- <-.
    split; [done|]. split; [done|]. apply log_ext_refl.
  - destruct (clients st !! dest_c) as [d|] eqn:Hd.
    2:{ injection H as <- <- <-. split; [done|]. split; [done|]. apply log_ext_refl. }
    run_inv H. destruct a as [[r wb1] o1]. apply write_buf_to_client_log in Hrun.
    assert (log_ext (touches (fds_from dest_c st)) o o1) as H1.
    { eapply log_ext_only_writes; [|exact Hrun]. by apply fds_from_lookup. }
    case_decide.
    + run_inv H. destruct a as [st2 o2].
      pose proof (_remove_client_log (fds_from dest_c st) _ _ _ _ _ Hrun0) as H2.
      apply _remove_client_spec in Hrun0 as (Hc & Hi & _).
      apply IH in H as (Hc' & Hi' & H3).
      split; [congruence|]. split; [congruence|].
      eapply log_ext_trans; [exact H1|]. eapply log_ext_trans; [exact H2|].
      unfold fds_from in *. by rewrite Hc in H3.
    + apply IH in H as (Hc' & Hi' & H3). split; [done|]. split; [done|].
      eapply log_ext_trans; [exact H1|].
      eapply log_ext_weaken; [|exact H3]. intros e. apply touches_weaken, fds_from_S.
Qed.

Lemma set_rbuf_fds cur b st :
  sock_fd <$> clients (set_rbuf cur b st) = sock_fd <$> clients st.
Proof.
  unfold set_rbuf. cbn [clients].
  rewrite (list_fmap_alter _ _ id) by (by apply Forall_true).
  by apply list_alter_id.
Qed.

Lemma fds_from_same i st st' fd :
  sock_fd <$> clients st' = sock_fd <$> clients st -> fds_from i st' fd -> fds_from i st fd.
Proof. unfold fds_from. by intros ->. Qed.

Lemma drain_spec fuel : ∀ cur st o st' o',
  drain fuel cur st o = Ret (st', o') ->
  sock_fd <$> clients st' = sock_fd <$> clients st ∧ client_id st' = client_id st
  ∧ log_ext (touches (fds_from cur st)) o o'.
Proof.
  induction fuel as [|fuel IH]; intros cur st o st' o' H; cbn [drain] in H;
    destruct (clients st !! cur) as [c|] eqn:Hc; try done;
    run_inv H; destruct a as [[failed dst] b]; destruct dst as [msg|]; try done;
    try (injection H as <- <-; split; [apply set_rbuf_fds|]; split; [done|]; apply log_ext_refl).
  cbv zeta in H. run_inv H. destruct a as [ret o1].
  apply _server_commands_log in Hrun0.
  assert (log_ext (touches (fds_from cur st)) o o1) as L1.
  { eapply log_ext_only_writes; [|exact Hrun0]. by apply fds_from_lookup. }
  case_decide.
  { case_decide.
    - pose proof (_remove_client_log (fds_from cur st) _ _ _ _ _ H) as L2.
      apply _remove_client_spec in H as (Hcl & Hi & _).
      rewrite Hcl, Hi. split; [apply set_rbuf_fds|]. split; [done|].
      by eapply log_ext_trans.
    - injection H as <- <-. split; [apply set_rbuf_fds|]. by split. }
  run_inv H. destruct a as [[wb st2] o3].
  apply broadcast_spec in Hrun1 as (Hcl & Hi & L3).
  apply IH in H as (Hcl' & Hi' & L4).
  rewrite Hcl', Hcl, Hi', Hi. split; [apply set_rbuf_fds|]. split; [done|].
  assert (log_ext (touches (fds_from cur st)) o1
            (display_message (snprintf_s MAX_USER_MSG msg) o1)) as L2
    by (apply log_ext_call; exact I).
  eapply log_ext_trans; [exact L1|]. eapply log_ext_trans; [exact L2|].
  eapply log_ext_trans.
  - eapply log_ext_weaken; [|exact L3]. intros e. apply touches_weaken.
    intros fd. apply fds_from_same, set_rbuf_fds.
  - eapply log_ext_weaken; [|exact L4]. intros e. apply touches_weaken.
    intros fd Hfd. eapply fds_from_same; [|exact Hfd]. rewrite Hcl. apply set_rbuf_fds.
Qed.

Lemma read_from_socket_log fd b o r b' o' :
  read_from_socket fd b o = (r, b', o') -> os_log o' = os_log o.
Proof.
  unfold read_from_socket. case_decide; [by intros [= <- <- <-]|].
  destruct (sys_read _ _ _) as [[e|bs] o1] eqn:Hs; apply sys_read_log in Hs;
    [by intros [= <- <- <-]|].
  cbv zeta. repeat case_decide; by intros [= <- <- <-].
Qed.

Lemma process_client_spec fuel cur c listen st o cur' st' o' :
  process_client fuel cur c listen st o = Ret (cur', st', o') ->
  clients st !! cur = Some c ->
  sock_fd <$> clients st' = sock_fd <$> clients st ∧ client_id st' = client_id st
  ∧ (cur <= cur')%nat
  ∧ log_ext (touches (fds_from cur st)) o o'.
Proof.
  unfold process_client. intros H Hc.
  case_decide; [injection H as <- <- <-; repeat split; [lia|apply log_ext_refl]|].
  unfold read_from_client in H.
  destruct (read_from_socket _ _ _) as [[r b] o1] eqn:Hr. apply read_from_socket_log in Hr.
  cbv zeta in H. cbn [rbuf] in H.
  set (client_closed := if decide (r = -1) then 1 else r) in H.
  run_inv H. destruct a as [st2 o2].
  assert (sock_fd <$> clients st2 = sock_fd <$> clients st ∧ client_id st2 = client_id st
          ∧ log_ext (touches (fds_from cur st)) o o2) as (Hcl & Hi & L1).
  { destruct (decide (client_closed = 0)).
    - apply drain_spec in Hrun as (Hcl & Hi & L1). rewrite Hcl, Hi.
      split; [apply set_rbuf_fds|]. split; [done|].
      eapply log_ext_trans; [by apply log_ext_same|].
      eapply log_ext_weaken; [|exact L1]. intros ev. apply touches_weaken.
      intros fd. apply fds_from_same, set_rbuf_fds.
    - injection Hrun as <- <-. split; [apply set_rbuf_fds|]. split; [done|].
      by apply log_ext_same. }
  destruct (decide (client_closed = 1)).
  - run_inv H. destruct a as [st3 o3]. injection H as <- <- <-.
    pose proof (_remove_client_log (fds_from cur st) _ _ _ _ _ Hrun0) as L2.
    apply _remove_client_spec in Hrun0 as (Hcl' & Hi' & _).
    rewrite Hcl', Hi'. repeat split; [done..|lia|by eapply log_ext_trans].
  - injection H as <- <- <-. repeat split; [done..|lia|done].
Qed.

Lemma fds_from_le i j st fd : (i <= j)%nat -> fds_from j st fd -> fds_from i st fd.
Proof. induction 1 as [|j Hle IH]; [done|]. intros Hj. apply IH. by apply fds_from_S. Qed.

Lemma _process_client_data_spec fuel : ∀ cur listen st o st' o',
  _process_client_data fuel cur listen st o = Ret (st', o') ->
  sock_fd <$> clients st' = sock_fd <$> clients st ∧ client_id st' = client_id st
  ∧ log_ext (touches (fds_from cur st)) o o'.
Proof.
  induction fuel as [|fuel IH]; intros cur listen st o st' o' H;
    cbn [_process_client_data] in H;
    destruct (clients st !! cur) as [c|] eqn:Hc; try done;
    try (injection H as <- <-; repeat split; apply log_ext_refl).
  run_inv H. destruct a as [[cur1 st1] o1].
  apply process_client_spec in Hrun as (Hcl & Hi & Hle & L1); [|done].
  apply IH in H as (Hcl' & Hi' & L2).
  rewrite Hcl', Hi'. repeat split; [done..|].
  eapply log_ext_trans; [exact L1|].
  eapply log_ext_weaken; [|exact L2]. intros e. apply touches_weaken.
  intros fd Hfd. eapply fds_from_le; [exact Hle|]. by eapply fds_from_same.
Qed.

(** ** Numbers in decimal *)

Lemma pretty_N_char_text x : pretty_N_char x ≠ NUL.
Proof. unfold pretty_N_char. by repeat case_match. Qed.

Lemma pretty_N_go_text x : ∀ s k,
  (x < 10 ^ N.of_nat k)%N ->
  text (str s) ->
  text (str (pretty_N_go x s))
  ∧ (String.length (pretty_N_go x s) <= String.length s + k)%nat.
Proof.
  intros s k. revert x s.
  induction k as [|k IH]; intros x s Hx Hs.
  - assert (x = 0%N) as -> by (simpl in Hx; lia). rewrite pretty_N_go_0. split; [done|lia].
  - destruct (decide (x = 0%N)) as [->|Hne].
    { rewrite pretty_N_go_0. split; [done|lia]. }
    rewrite pretty_N_go_step by lia.
    destruct (IH (x `div` 10)%N (String (pretty_N_char (x `mod` 10)) s)) as [Ht Hl].
    + apply N.Div0.div_lt_upper_bound.
      replace (N.of_nat (S k)) with (N.succ (N.of_nat k)) in Hx by lia.
      by rewrite N.pow_succ_r' in Hx.
    + constructor; [apply pretty_N_char_text|done].
    + split; [done|]. simpl in Hl. lia.
Qed.

Lemma length_str s : length (str s) = String.length s.
Proof. induction s as [|c s IH]; [done|]. simpl. by rewrite IH. Qed.

Lemma str_app s1 s2 : str (s1 +:+ s2) = str s1 ++ str s2.
Proof. induction s1 as [|c s1 IH]; [done|]. simpl. by rewrite IH. Qed.

(** An [int] in decimal has no [NUL] and at most 11 bytes. *)
Lemma pretty_int_text (n : Z) :
  INT_MIN <= n <= INT_MAX ->
  text (str (pretty n)) ∧ (length (str (pretty n)) <= 11)%nat.
Proof.
  intros Hn. rewrite length_str.
  assert (Hp : ∀ p : positive, (Z.pos p <= 2147483648) ->
            text (str (pretty p)) ∧ (String.length (pretty p) <= 10)%nat).
  { intros p Hp. unfold pretty, pretty_positive, pretty, pretty_N.
    rewrite decide_False by done.
    apply (pretty_N_go_text (N.pos p) "" 10); [|constructor].
    change (10 ^ N.of_nat 10)%N with 10000000000%N. lia. }
  destruct n as [|p|p].
  - split; [by repeat constructor|vm_compute; lia].
  - destruct (Hp p) as [Ht Hl]; [unfold INT_MAX in Hn; lia|].
    split; [exact Ht|]. change (pretty (Z.pos p)) with (pretty p). lia.
  - destruct (Hp p) as [Ht Hl]; [unfold INT_MIN in Hn; lia|].
    change (pretty (Z.neg p)) with ("-" +:+ pretty p). split.
    + rewrite str_app. apply Forall_app. split; [by repeat constructor|exact Ht].
    + change ("-" +:+ pretty p) with (String "-" (pretty p)).
      cbn [String.length]. lia.
Qed.

Lemma local_array_spec s :
  (length s <= Z.to_nat BUF_SIZE)%nat ->
  local_array s = s ++ replicate (Z.to_nat BUF_SIZE - length s) NUL.
Proof.
  intros Hl. unfold local_array.
  rewrite store_bytes_spec; [|lia|unfold zeroed; rewrite length_replicate; lia].
  change (Z.to_nat 0) with O. rewrite take_0. cbn [app Nat.add].
  unfold zeroed. by rewrite drop_replicate.
Qed.

Lemma c_str_text s rest : text s -> c_str (s ++ NUL :: rest) = s.
Proof.
  induction 1 as [|c s Hc Hs IH]; [done|].
  cbn [app c_str]. rewrite decide_False by done. by rewrite IH.
Qed.

Lemma c_str_local_array s :
  text s -> (length s < Z.to_nat BUF_SIZE)%nat -> c_str (local_array s) = s.
Proof.
  intros Ht Hl. rewrite local_array_spec by lia.
  destruct (Z.to_nat BUF_SIZE - length s)%nat as [|n] eqn:E; [lia|].
  apply c_str_text, Ht.
Qed.

(** The bytes that [write_buf_to_client] hands to [write] for the string
    [s] in a local array. *)
Lemma frame_in_array s :
  (length s + 2 <= Z.to_nat BUF_SIZE)%nat ->
  take (length s + 2)
       (<[S (length s) := LF]> (<[length s := CR]> (local_array s))) = s ++ CRLF.
Proof.
  intros Hl. rewrite local_array_spec by lia.
  destruct (Z.to_nat BUF_SIZE - length s)%nat as [|[|n]] eqn:E; [lia..|].
  cbn [replicate].
  rewrite (insert_app_r_alt s) by lia. rewrite Nat.sub_diag. cbn [insert list_insert].
  rewrite (insert_app_r_alt s) by lia.
  replace (S (length s) - length s)%nat with 1%nat by lia. cbn [insert list_insert].
  rewrite take_app_add'; [|done]. done.
Qed.

Lemma write_buf_to_client_first c s o r a' o' :
  text s -> (length s + 2 <= Z.to_nat BUF_SIZE)%nat ->
  write_buf_to_client c (local_array s) (Z.of_nat (length s)) o = Ret (r, a', o') ->
  ∃ ret ext, os_log o' = os_log o ++ SysWrite (sock_fd c) (s ++ CRLF) ret :: ext
             ∧ Forall (only_writes (sock_fd c)) ext.
Proof.
  intros Ht Hl H. unfold write_buf_to_client in H.
  rewrite decide_False in H by (unfold BUF_SIZE, MAX_PROTO_MSG, MAX_USER_MSG in *; lia).
  rewrite decide_False in H by lia.
  run_inv H. destruct a as [r0 o0]. injection H as <- <- <-.
  apply write_to_socket_first in Hrun; [|lia].
  replace (Z.to_nat (Z.of_nat (length s) + 2)) with (length s + 2)%nat in Hrun by lia.
  replace (Z.to_nat (Z.of_nat (length s) + 1)) with (S (length s)) in Hrun by lia.
  rewrite Nat2Z.id in Hrun. by rewrite frame_in_array in Hrun.
Qed.

Lemma strnlen_snprintf_d n :
  INT_MIN <= n <= INT_MAX ->
  strnlen (snprintf_d n) BUF_SIZE = Z.of_nat (length (str (pretty n))).
Proof.
  intros Hn. destruct (pretty_int_text n Hn) as [Ht Hl].
  unfold strnlen, strlen, snprintf_d. fold (str (pretty n)).
  rewrite c_str_local_array; [|done|change (Z.to_nat BUF_SIZE) with 131%nat; lia].
  unfold BUF_SIZE, MAX_PROTO_MSG, MAX_USER_MSG. lia.
Qed.

(** Sending a number the way [_send_client_id] and [_server_commands] do. *)
Lemma send_decimal_first c n o r a' o' :
  INT_MIN <= n <= INT_MAX ->
  write_buf_to_client c (snprintf_d n) (strnlen (snprintf_d n) BUF_SIZE) o = Ret (r, a', o') ->
  ∃ ret ext, os_log o' = os_log o ++ SysWrite (sock_fd c) (decimal_frame n) ret :: ext
             ∧ Forall (only_writes (sock_fd c)) ext.
Proof.
  intros Hn H. rewrite strnlen_snprintf_d in H by done.
  destruct (pretty_int_text n Hn) as [Ht Hl].
  eapply write_buf_to_client_first; [exact Ht| |exact H].
  change (Z.to_nat BUF_SIZE) with 131%nat. lia.
Qed.

Lemma _send_client_id_spec st c o ret st' o' :
  _send_client_id st c o = Ret (ret, st', o') ->
  client_id st' = client_id st + 1
  ∧ clients st' = clients st
  ∧ ∃ r ext, os_log o' = os_log o ++ SysWrite (sock_fd c) (decimal_frame (client_id st + 1)) r :: ext
             ∧ Forall (only_writes (sock_fd c)) ext.
Proof.
  unfold _send_client_id. intros H.
  run_inv H. unfold int_add in Hrun. case_decide as Hid; [|done]. injection Hrun as <-.
  run_inv H. unfold int_add in Hrun. case_decide as Hn; [|done]. injection Hrun as <-.
  cbv zeta in H. run_inv H. destruct a as [[r a'] o1].
  apply send_decimal_first in Hrun as (r0 & ext & He & Hf); [|done].
  repeat case_decide; injection H as <- <- <-; (split; [done|]; split; [done|]).
  - exists r0, (ext ++ [SysError (str "ERROR: write_to_socket")]).
    cbn [log_call os_log display_error]. rewrite He, <- app_assoc. split; [done|].
    apply Forall_app. split; [done|]. by repeat constructor.
  - by exists r0, ext.
  - by exists r0, ext.
Qed.

(** ** The ids handed out *)

Lemma accepted_app l1 l2 : accepted (l1 ++ l2) = accepted l1 ++ accepted l2.
Proof.
  induction l1 as [|e l1 IH]; [done|]. destruct e; simpl; try done.
  case_decide; [done|]. by rewrite IH.
Qed.

Lemma no_node_app l1 l2 : l1 ≠ [] -> no_node (l1 ++ l2) = no_node l1.
Proof. by destruct l1 as [|[] l1]. Qed.

Lemma settled_tail e l : settled (e :: l) -> l ≠ [] -> settled l.
Proof.
  intros Hs Hl. destruct l as [|e1 l']; [done|]. unfold settled in *.
  by rewrite last_cons_cons in Hs.
Qed.

Lemma registered_app l1 l2 :
  settled l1 -> registered (l1 ++ l2) = registered l1 ++ registered l2.
Proof.
  induction l1 as [|e l1 IH]; [done|]. intros Hs.
  assert (registered (l1 ++ l2) = registered l1 ++ registered l2) as IH'.
  { destruct l1 as [|e1 l1']; [done|]. apply IH. by eapply settled_tail. }
  destruct e; cbn [app registered]; try done.
  case_decide as Hr; [done|].
  destruct l1 as [|e1 l1']; [unfold settled in Hs; simpl in Hs; lia|].
  rewrite no_node_app by done. destruct (no_node (e1 :: l1')); [done|]. by rewrite IH'.
Qed.

Lemma first_writes_app l1 l2 :
  settled l1 -> first_writes (l1 ++ l2) = first_writes l1 ++ first_writes l2.
Proof.
  induction l1 as [|e l1 IH]; [done|]. intros Hs.
  assert (first_writes (l1 ++ l2) = first_writes l1 ++ first_writes l2) as IH'.
  { destruct l1 as [|e1 l1']; [done|]. apply IH. by eapply settled_tail. }
  destruct e; cbn [app first_writes]; try done.
  case_decide as Hr; [done|].
  destruct l1 as [|e1 l1']; [unfold settled in Hs; simpl in Hs; lia|].
  rewrite no_node_app by done. destruct (no_node (e1 :: l1')); [done|]. by rewrite IH'.
Qed.

Lemma touches_calm F e : touches F e -> calm e.
Proof. by destruct e. Qed.

Lemma log_ext_calm F o o' : log_ext (touches F) o o' -> log_ext calm o o'.
Proof. apply log_ext_weaken. intros e. apply touches_calm. Qed.

Lemma calm_settled ext l :
  Forall calm ext -> ext ≠ [] ∨ settled l -> settled (l ++ ext).
Proof.
  intros Hf Hs. unfold settled in *. rewrite last_app.
  destruct (last ext) as [e|] eqn:He.
  - apply last_Some_elem_of in He. rewrite Forall_forall in Hf.
    specialize (Hf _ He). by destruct e.
  - apply last_None in He. by destruct Hs.
Qed.

Lemma calm_accepted ext : Forall calm ext -> accepted ext = [] ∧ first_writes ext = [].
Proof.
  induction 1 as [|e ext He _ [IH1 IH2]]; [done|].
  destruct e; try done. simpl in *. by rewrite !decide_True by done.
Qed.

Lemma calm_registered ext : Forall calm ext -> registered ext = [].
Proof.
  induction 1 as [|e ext He _ IH]; [done|].
  destruct e; try done. simpl in *. by rewrite decide_True by done.
Qed.

(** Calls that register nobody keep [ids_in_order]. *)
Lemma ids_in_order_ext st o st' o' ext :
  ids_in_order st o ->
  os_log o' = os_log o ++ ext ->
  registered ext = [] -> first_writes ext = [] ->
  settled (os_log o ++ ext) ->
  client_id st' = client_id st ->
  ids_in_order st' o'.
Proof.
  intros (Hs & Hi & Hw) He Hr Hfw Hs' Hid. unfold ids_in_order.
  rewrite He, registered_app, first_writes_app, Hr, Hfw, !app_nil_r by done.
  split; [done|]. split; [congruence|done].
Qed.

Lemma ids_in_order_calm st o st' o' :
  ids_in_order st o -> log_ext calm o o' -> client_id st' = client_id st ->
  ids_in_order st' o'.
Proof.
  intros Hinv (ext & He & Hf) Hid. destruct (calm_accepted ext Hf) as [_ Hfw].
  eapply ids_in_order_ext; [exact Hinv|exact He|by apply calm_registered|exact Hfw| |exact Hid].
  destruct Hinv as (Hs & _). apply calm_settled; auto.
Qed.

Lemma _fd_close_log F fuel : ∀ fd o r o',
  _fd_close fuel fd o = Ret (r, o') -> log_ext (touches F) o o'.
Proof.
  induction fuel as [|fuel IH]; intros fd o r o' H; [done|]. cbn [_fd_close] in H.
  destruct (sys_read fd 1 o) as [[[|]|[|x bs]] o1] eqn:Hs; apply sys_read_log in Hs.
  - eapply log_ext_trans; [by apply log_ext_same|]. by eapply IH.
  - injection H as <- <-. eapply log_ext_trans; [by apply log_ext_same|].
    by apply log_ext_call.
  - injection H as <- <-. by apply log_ext_same.
  - injection H as <- <-. by apply log_ext_same.
Qed.

Lemma server_rest_spec fuel server_fd listen st o c :
  server_rest fuel server_fd listen st o = Ret c ->
  client_id (ctl_state c) = client_id st ∧ log_ext calm o (ctl_os c).
Proof.
  unfold server_rest. intros H. run_inv H. destruct a as [stop o1].
  assert (log_ext calm o o1) as L1.
  { case_decide; [|injection Hrun as <- <-; apply log_ext_refl].
    run_inv Hrun. destruct a as [closed o0].
    apply (_fd_close_log (λ _, True)), log_ext_calm in Hrun0.
    by repeat case_decide; injection Hrun as <- <-. }
  destruct stop as [status|].
  - injection H as <-. done.
  - run_inv H. destruct a as [st' o2]. injection H as <-.
    apply _process_client_data_spec in Hrun0 as (_ & Hi & L2).
    split; [done|]. eapply log_ext_trans; [exact L1|]. by eapply log_ext_calm.
Qed.

Lemma sys_select_log o e o' : sys_select o = (e, o') -> os_log o' = os_log o.
Proof. unfold sys_select. destruct (os_select o); by intros [= <- <-]. Qed.

Lemma ids_in_order_accept st o fd frame r ext st' o' :
  ids_in_order st o -> ¬ fd < 0 ->
  os_log o' = (os_log o ++ [SysAccept fd]) ++ SysWrite fd frame r :: ext ->
  Forall calm ext ->
  frame = decimal_frame (client_id st + 1) ->
  client_id st' = client_id st + 1 ->
  ids_in_order st' o'.
Proof.
  intros (Hs & Hi & Hw) Hfd He Hf -> Hid. unfold ids_in_order.
  destruct (calm_accepted ext Hf) as [_ Hfw]. pose proof (calm_registered ext Hf) as Ha.
  split.
  { rewrite He. apply calm_settled; [by constructor|by left]. }
  rewrite He, <- app_assoc, registered_app, first_writes_app by done.
  cbn [app registered first_writes no_node]. rewrite !decide_False by done.
  rewrite Ha, Hfw, Hw. split.
  - rewrite length_app. simpl. lia.
  - rewrite imap_app. simpl. rewrite Nat.add_0_r, Hi. done.
Qed.

(** An [accept] whose [malloc] fails registers nobody. *)
Lemma ids_in_order_no_node st o fd o' :
  ids_in_order st o -> ¬ fd < 0 ->
  os_log o' = os_log o ++ [SysAccept fd; SysError (str "server: malloc"); SysClose fd] ->
  ids_in_order st o'.
Proof.
  intros Hinv Hfd He.
  eapply ids_in_order_ext; [exact Hinv|exact He| | | |done].
  - cbn [registered no_node]. by rewrite decide_False by done.
  - cbn [first_writes no_node]. by rewrite decide_False by done.
  - unfold settled. by rewrite last_app.
Qed.

(** Lines 98-118 of [server] keep [ids_in_order]. *)
Lemma accept_client_ids st o a :
  ids_in_order st o ->
  accept_client st o = Ret a ->
  ids_in_order (ctl_state (step_ctl a)) (ctl_os (step_ctl a)).
Proof.
  intros Hinv H. unfold accept_client, _accept_connection, sys_accept in H.
  destruct (os_accept o) as [|fd q] eqn:Hq.
  { cbn [fst snd] in H. rewrite decide_True in H by lia. rewrite decide_True in H by lia.
    injection H as <-. eapply ids_in_order_calm; [exact Hinv| |done].
    exists [SysAccept (-1); SysError (str "ERROR: server: accept")].
    cbn [step_ctl ctl_os display_error log_call os_log]. rewrite <- app_assoc. split; [done|].
    by repeat constructor. }
  destruct (decide (fd < 0)) as [Hneg|Hpos].
  { rewrite decide_True in H by lia. injection H as <-.
    eapply ids_in_order_calm; [exact Hinv| |done].
    exists [SysAccept fd; SysError (str "ERROR: server: accept")].
    cbn [step_ctl ctl_os display_error log_call os_log]. rewrite <- app_assoc. split; [done|].
    by repeat constructor. }
  unfold sys_malloc in H. cbn [os_malloc log_call] in H.
  assert (Hno : ∀ o1, os_log o1 = os_log o ++ [SysAccept fd] ->
            ids_in_order st (sys_close fd (display_error "server: malloc" o1))).
  { intros o1 Ho1. eapply ids_in_order_no_node; [exact Hinv|exact Hpos|].
    cbn [sys_close display_error log_call os_log]. rewrite Ho1, <- !app_assoc. done. }
  destruct (os_malloc o) as [|[|] m] eqn:Hm; cbn [os_log] in H.
  3:{ rewrite decide_True in H by lia. injection H as <-. by apply Hno. }
  all: rewrite decide_False in H by lia;
    rewrite lookup_app_r in H by done; rewrite Nat.sub_diag in H;
    cbn [lookup list_lookup] in H;
    run_inv H; destruct a0 as [[ret st2] o2];
    apply _send_client_id_spec in Hrun as (Hid & Hcl & r & ext & He & Hf);
    cbn [sock_fd client_id log_call os_log] in *;
    assert (ids_in_order st2 o2) as Hinv2
      by (eapply (ids_in_order_accept st o); try done;
          eapply Forall_impl; [exact Hf|]; intros e He';
          by eapply (touches_calm (λ _, True)), only_writes_touches);
    (case_decide; [by injection H as <-|]);
    (case_decide; [|by injection H as <-]);
    run_inv H; destruct a0 as [st3 o3]; injection H as <-;
    pose proof (_remove_client_log (λ _, True) _ _ _ _ _ Hrun) as L%log_ext_calm;
    apply _remove_client_spec in Hrun as (_ & Hi & _);
    by eapply ids_in_order_calm.
Qed.

(** A round of the server keeps [ids_in_order]. *)
Lemma server_round_ids fuel s_fd server_fd st o c :
  ids_in_order st o ->
  server_round fuel s_fd server_fd st o = Ret c ->
  ids_in_order (ctl_state c) (ctl_os c).
Proof.
  intros Hinv H. unfold server_round in H.
  destruct (sys_select o) as [[[ready| |]|] o0] eqn:Hsel; [| | |done];
    apply sys_select_log in Hsel.
  - assert (ids_in_order st o0) as Hinv0
      by (eapply ids_in_order_calm; [exact Hinv|by apply log_ext_same|done]).
    cbv zeta in H. case_decide.
    2:{ apply server_rest_spec in H as [Hi L]. by eapply ids_in_order_calm. }
    run_inv H. apply accept_client_ids in Hrun; [|done].
    destruct a as [st2 o2|c']; [|by injection H as <-].
    cbn [step_ctl ctl_state ctl_os] in Hrun.
    apply server_rest_spec in H as [Hi L].
    eapply ids_in_order_calm; [exact Hrun|exact L|exact Hi].
  - injection H as <-. eapply ids_in_order_calm; [exact Hinv|by apply log_ext_same|done].
  - injection H as <-. eapply ids_in_order_calm; [exact Hinv| |done].
    eapply log_ext_trans; [by apply log_ext_same|]. by apply log_ext_call.
Qed.

Lemma server_rounds_ids n : ∀ fuel s_fd server_fd st o c,
  ids_in_order st o ->
  server_rounds n fuel s_fd server_fd st o = Ret c ->
  ids_in_order (ctl_state c) (ctl_os c).
Proof.
  induction n as [|n IH]; intros fuel s_fd server_fd st o c Hinv H; cbn [server_rounds] in H.
  - by injection H as <-.
  - run_inv H. apply server_round_ids in Hrun; [|done].
    destruct a as [st1 o1|status st1 o1]; [by eapply IH|by injection H as <-].
Qed.

Lemma decimal_frame_inj i j : decimal_frame i = decimal_frame j -> i = j.
Proof.
  unfold decimal_frame. intros H. apply app_inv_tail in H.
  apply (inj pretty). apply (f_equal string_of_list_ascii) in H.
  unfold str in H. by rewrite !string_of_list_ascii_of_string in H.
Qed.


(** * The server on the connections it holds *)

(** ** A client that leaves *)

Lemma read_from_socket_at_end fd b o :
  at_end fd o ->
  ∃ r b', read_from_socket fd b o = (r, b', o) ∧ (r = 1 ∨ r = -1).
Proof.
  intros Hend. unfold read_from_socket. case_decide; [by eexists _, _; split; [|right]|].
  unfold sys_read. destruct (decide (fd ∈ os_closed o)) as [Hc|Hc].
  { by eexists _, _; split; [|right]. }
  destruct Hend as [?|He]; [done|]. rewrite He. cbv zeta. cbn [length].
  rewrite decide_True by done. by eexists _, _; split; [|left].
Qed.

Lemma set_rbuf_lookup cur b st c :
  clients st !! cur = Some c ->
  clients (set_rbuf cur b st) !! cur = Some (mkClient (sock_fd c) (state c) b).
Proof. intros H. unfold set_rbuf. cbn [clients]. by rewrite list_lookup_alter_eq, H. Qed.

Lemma process_client_at_end fuel cur c listen st o :
  clients st !! cur = Some c ->
  sock_fd c ∈ listen ->
  at_end (sock_fd c) o ->
  ∃ b, process_client fuel cur c listen st o =
       (x ← _remove_client (set_rbuf cur b st) (sock_fd c) o; Ret (cur, x.1, x.2)).
Proof.
  intros Hc Hl Hend.
  destruct (read_from_socket_at_end (sock_fd c) (rbuf c) o Hend) as (r & b & Hrd & Hr).
  exists b. unfold process_client. case_decide; [done|].
  unfold read_from_client. rewrite Hrd. cbn [rbuf].
  assert ((if decide (r = -1) then 1 else r) = 1) as -> by (case_decide; lia).
  destruct (decide (1 = 0)); [lia|]. destruct (decide (1 = 1)); [|lia].
  cbn [mbind run_bind]. by destruct (_remove_client _ _ _) as [[st3 o3]| |].
Qed.

(** On a ready node whose descriptor is closed or at end of file,
    [_process_client_data] never gets past that node: each round reads,
    removes and stays. *)
Lemma never_past_a_closed_client fuel : ∀ cur c listen st o res,
  clients st !! cur = Some c ->
  sock_fd c ∈ listen ->
  at_end (sock_fd c) o ->
  _process_client_data fuel cur listen st o ≠ Ret res.
Proof.
  induction fuel as [|fuel IH]; intros cur c listen st o res Hc Hl Hend;
    cbn [_process_client_data]; rewrite Hc; [done|].
  destruct (process_client_at_end (S fuel) cur c listen st o Hc Hl Hend) as [b ->].
  destruct (_remove_client _ _ _) as [[st3 o3]| |] eqn:Hr; [|done..].
  cbn [mbind run_bind fst snd].
  apply _remove_client_spec in Hr as (Hcl & _ & _ & _ & _ & Hclosed).
  eapply (IH cur (mkClient (sock_fd c) (state c) b)); [|done|].
  - rewrite Hcl. by apply set_rbuf_lookup.
  - left. cbn [sock_fd]. rewrite Hclosed. apply elem_of_union. left. by apply elem_of_singleton.
Qed.


Lemma server_rounds_S n fuel s_fd server_fd st o :
  server_rounds (S n) fuel s_fd server_fd st o =
  (c ← server_round fuel s_fd server_fd st o;
   match c with
   | Running st' o' => server_rounds n fuel s_fd server_fd st' o'
   | Exited _ _ _ => Ret c
   end).
Proof. reflexivity. Qed.

Lemma _process_client_data_end fuel cur listen st o :
  clients st !! cur = None -> _process_client_data fuel cur listen st o = Ret (st, o).
Proof. intros H. destruct fuel; cbn [_process_client_data]; by rewrite H. Qed.

Lemma leave_round1 : server_rounds 1 8 4 3 (server_init 4 3) os_leave = Ret (Running leave_state leave_os).
Proof. vm_compute. reflexivity. Qed.

Lemma leave_round2 fuel c : server_round fuel 4 3 leave_state leave_os ≠ Ret c.
Proof.
  unfold server_round.
  change (sys_select leave_os)
    with (Some (SelReady {[5]}), mkOS ∅ ∅ ∅ [] [SelReady {[3]}] (os_log leave_os) []).
  cbv beta iota zeta.
  set (listen := all_fds leave_state ∩ {[5]}).
  assert (Hl : ∀ fd, fd ∈ listen -> fd = 5).
  { intros fd [_ Hfd%elem_of_singleton]%elem_of_intersection. done. }
  case_decide as Hin; [by apply Hl in Hin|]. clear Hin.
  unfold server_rest.
  case_decide as Hin; [by apply Hl in Hin|]. clear Hin.
  cbn [mbind run_bind mret run_ret].
  intros H. apply bind_Ret in H as ([st o] & H & _). revert H.
  eapply never_past_a_closed_client; [reflexivity| |].
  - apply elem_of_intersection. split; [|by apply elem_of_singleton].
    apply elem_of_union. left. by apply elem_of_singleton.
  - right. reflexivity.
Qed.

(** After the client of [os_leave] has connected, no further round ends. *)
Theorem rounds_hang_when_a_client_leaves :
  server_rounds 1 8 4 3 (server_init 4 3) os_leave = Ret (Running leave_state leave_os)
  ∧ ∀ n fuel c, server_rounds (S n) fuel 4 3 leave_state leave_os ≠ Ret c.
Proof.
  split; [exact leave_round1|]. intros n fuel c H.
  rewrite server_rounds_S in H. apply bind_Ret in H as (c2 & H & _).
  by apply leave_round2 in H.
Qed.

(** The first round on [os_leave], for any loop bound: the client is
    accepted, unless the bound is too small for the round. *)
Lemma leave_first_round fuel :
  server_round fuel 4 3 (server_init 4 3) os_leave = Ret (Running leave_state leave_os)
  ∨ server_round fuel 4 3 (server_init 4 3) os_leave = Timeout.
Proof.
  unfold server_round.
  change (sys_select os_leave)
    with (Some (SelReady {[4]}), os_start ∅ ∅ [5] [SelReady {[5]}; SelReady {[3]}]).
  cbv beta iota zeta.
  set (listen := all_fds (server_init 4 3) ∩ {[4]}).
  assert (Hl : ∀ fd, fd ∈ listen ↔ fd = 4).
  { intros fd. unfold listen. rewrite elem_of_intersection, elem_of_singleton.
    split; [tauto|]. intros ->. split; [|done]. vm_compute. set_solver. }
  case_decide as Hin; [clear Hin|by destruct Hin; apply Hl].
  unfold accept_client.
  change (_accept_connection (clients (server_init 4 3))
            (os_start ∅ ∅ [5] [SelReady {[5]}; SelReady {[3]}]))
    with (5, [leaving_client], 0%nat,
          mkOS ∅ ∅ ∅ [] [SelReady {[5]}; SelReady {[3]}] [SysAccept 5] []).
  cbv beta iota zeta.
  case_decide; [lia|].
  change ([leaving_client] !! 0%nat) with (Some leaving_client).
  cbv beta iota.
  match goal with |- context [_send_client_id ?s ?c ?o] =>
    assert (_send_client_id s c o = Ret (0, leave_state, leave_os)) as ->
      by (vm_compute; reflexivity)
  end.
  cbn [mbind run_bind].
  case_decide; [lia|]. case_decide; [lia|].
  cbn [mbind run_bind].
  unfold server_rest.
  case_decide as Hin; [by apply Hl in Hin|]. clear Hin.
  cbn [mbind run_bind mret run_ret].
  destruct fuel as [|fuel]; [by right|left].
  cbn [_process_client_data]. change (clients leave_state !! 0%nat) with (Some leaving_client).
  cbv beta iota. unfold process_client.
  case_decide as Hin; [|by apply Hl in Hin].
  cbn [mbind run_bind]. rewrite _process_client_data_end by reflexivity.
  reflexivity.
Qed.

(** C4: a client connects and leaves, and then the shell closes the pipe.
    Whatever number of rounds and whatever loop bound the model is given,
    [server] does not return: [_process_client_data] stays on the node of the
    client that left, reading its closed descriptor and removing it again
    without end. *)
Theorem server_never_returns_once_a_client_left :
  ∀ n fuel res, server n fuel 4 3 os_leave ≠ Ret res.
Proof.
  intros n fuel res H. unfold server in H. apply bind_Ret in H as (c & H & Hc).
  destruct n as [|n]; [injection H as <-; done|].
  rewrite server_rounds_S in H.
  destruct (leave_first_round fuel) as [E|E]; rewrite E in H; [|done].
  cbn [mbind run_bind] in H.
  destruct n as [|n]; [injection H as <-; done|].
  by apply rounds_hang_when_a_client_leaves in H.
Qed.

(** What [remove_client] of [chat_helpers.c] does for a node of the list: the
    node is unlinked and [*curr] becomes its successor, a null pointer after
    the last node.  The server never calls it. *)
Lemma remove_client_unlinks (i : nat) (cl : list client_sock) :
  (i < length cl)%nat ->
  remove_client (Some i) cl =
  (0, if decide (S i < length cl)%nat then Some i else None, delete i cl).
Proof.
  intros Hi. destruct cl as [|c rest]; [simpl in Hi; lia|].
  destruct i as [|i]; cbn [remove_client].
  - cbn [length]. destruct rest; [done|].
    rewrite decide_False by done. rewrite decide_True by (cbn [length]; lia). done.
  - by rewrite decide_True by done.
Qed.

(** C2: a client connects and leaves.  When the server has read the end of
    its stream and called [_remove_client], the descriptor is closed, out of
    the watched set and the count is down, but the node is still in the list
    of clients: [_remove_client] never unlinks or frees, and [remove_client]
    of [chat_helpers.c], which does, is not called. *)
Theorem removed_connection_stays_linked :
  server_rounds 1 8 4 3 (server_init 4 3) os_leave = Ret (Running leave_state leave_os)
  ∧ (∃ st o,
      process_client 8 0 leaving_client {[5]} leave_state leave_os = Ret (0%nat, st, o)
      ∧ sock_fd <$> clients st = [5]
      ∧ (5 ∉ all_fds st)
      ∧ 5 ∈ os_closed o
      ∧ client_count st = 0).
Proof.
  split; [exact leave_round1|].
  eexists _, _. split; [vm_compute; reflexivity|].
  split; [reflexivity|]. split; [apply (bool_decide_unpack _); by vm_compute|].
  split; [apply (bool_decide_unpack _); by vm_compute|reflexivity].
Qed.

(** C3, as the code has it: when the read on a ready connection reports that
    the peer has closed (or fails), the round for that connection takes no
    frame out of its buffer, shows nothing to the operator and sends nothing:
    the one call it makes is the [close] of the descriptor, which it also
    takes out of the watched set, and the count goes down by one. *)
Theorem closed_read_removes_without_draining fuel cur c listen st o r c' o1 :
  clients st !! cur = Some c ->
  sock_fd c ∈ listen ->
  read_from_client c o = (r, c', o1) ->
  r = 1 ∨ r = -1 ->
  INT_MIN < client_count st <= INT_MAX ->
  ∃ cur' st' o',
    process_client fuel cur c listen st o = Ret (cur', st', o')
    ∧ os_log o' = os_log o ++ [SysClose (sock_fd c)]
    ∧ rbuf <$> clients st' !! cur = Some (rbuf c')
    ∧ all_fds st' = all_fds st ∖ {[sock_fd c]}
    ∧ client_count st' = client_count st - 1
    ∧ os_closed o' = {[sock_fd c]} ∪ os_closed o1.
Proof.
  intros Hc Hl Hrd Hr Hn. unfold process_client. case_decide; [done|].
  rewrite Hrd.
  assert (os_log o1 = os_log o) as Hlog.
  { unfold read_from_client in Hrd.
    destruct (read_from_socket _ _ _) as [[r0 b0] o0] eqn:E. injection Hrd as <- <- <-.
    by apply read_from_socket_log in E. }
  assert ((if decide (r = -1) then 1 else r) = 1) as -> by (case_decide; lia).
  destruct (decide (1 = 0)); [lia|]. destruct (decide (1 = 1)); [|lia].
  cbn [mbind run_bind]. unfold _remove_client, int_add.
  rewrite decide_True by (cbn [client_count set_rbuf]; unfold INT_MIN, INT_MAX in *; lia).
  cbn [mbind run_bind]. eexists _, _, _. split; [reflexivity|].
  cbn [clients all_fds client_count set_rbuf sys_close log_call os_log os_closed].
  rewrite Hlog, list_lookup_alter_eq, Hc. done.
Qed.

(** The client of [os_leave], whose stream has ended. *)
Lemma closed_read_witness :
  ∃ cur' st' o',
    process_client 8 0 leaving_client {[5]} leave_state leave_os = Ret (cur', st', o')
    ∧ os_log o' = os_log leave_os ++ [SysClose 5]
    ∧ rbuf <$> clients st' !! 0%nat = Some (mkBuf (zeroed BUF_SIZE) 0)
    ∧ all_fds st' = all_fds leave_state ∖ {[5]}
    ∧ client_count st' = 0
    ∧ os_closed o' = {[5]} ∪ ∅.
Proof.
  apply (closed_read_removes_without_draining 8 0 leaving_client {[5]} leave_state leave_os
           1 leaving_client leave_os).
  - reflexivity.
  - by apply elem_of_singleton.
  - reflexivity.
  - by left.
  - vm_compute. split; [reflexivity|discriminate].
Defined.

(** C3 fails as stated: a client sends the status query and [client1:hi] in
    one delivery and leaves.  The query ends the draining of that round, so
    the frame [client1:hi] is complete in the buffer when the next read
    reports the close; the server closes the connection and the frame is
    neither shown nor sent. *)
Lemma buffered_frame_lost_on_close :
  ∃ st o c,
    server_rounds 2 8 4 3 (server_init 4 3) os_query_then_leave = Ret (Running st o)
    ∧ clients st !! 0%nat = Some c
    ∧ valid (rbuf c) = str "client1:hi" ++ CRLF
    ∧ find_network_newline (buf (rbuf c)) (inbuf (rbuf c)) = 12
    ∧ (read_from_client c o).1.1 = 1
    ∧ ∃ st' o',
        process_client 8 0 c {[5]} st o = Ret (0%nat, st', o')
        ∧ os_log o' = os_log o ++ [SysClose 5]
        ∧ 5 ∉ all_fds st'.
Proof.
  eexists _, _, _. split; [vm_compute; reflexivity|].
  split; [reflexivity|]. split; [reflexivity|]. split; [reflexivity|].
  split; [reflexivity|].
  eexists _, _. split; [vm_compute; reflexivity|]. split; [reflexivity|].
  apply (bool_decide_unpack _). by vm_compute.
Qed.

(** ** What reaches whom *)

Lemma sent_to_app fd l1 l2 : sent_to fd (l1 ++ l2) = sent_to fd l1 ++ sent_to fd l2.
Proof.
  induction l1 as [|e l1 IH]; [done|]. destruct e; cbn [app sent_to]; try done.
  case_decide; [|done]. by rewrite IH, app_assoc.
Qed.

Lemma sent_to_untouched (F : Z → Prop) fd ext :
  Forall (touches F) ext -> ¬ F fd -> sent_to fd ext = [].
Proof.
  intros Hf Hfd. induction Hf as [|e ext He _ IH]; [done|].
  destruct e; cbn [sent_to]; try done. rewrite decide_False; [done|].
  intros ->. by apply Hfd.
Qed.

Lemma only_writes_sent fd0 fd ext :
  Forall (only_writes fd0) ext -> fd ≠ fd0 -> sent_to fd ext = [].
Proof.
  intros Hf Hfd. induction Hf as [|e ext He _ IH]; [done|].
  destruct e; cbn [sent_to]; try done. simpl in He. subst.
  by rewrite decide_False by done.
Qed.

Lemma closes_sent fd fd0 tl : Forall (eq (SysClose fd0)) tl -> sent_to fd tl = [].
Proof. induction 1 as [|e tl <- _ IH]; done. Qed.

Lemma only_writes_not_display fd e : only_writes fd e -> not_display e.
Proof. by destruct e. Qed.

(** Whatever a broadcast from the node at [dest_c] does, a descriptor that no
    node from [dest_c] on holds receives nothing from it. *)
Lemma broadcast_skips fuel dest_c wb len st o wb' st' o' fd :
  broadcast fuel dest_c wb len st o = Ret (wb', st', o') ->
  ¬ fds_from dest_c st fd ->
  sent_to fd (os_log o') = sent_to fd (os_log o).
Proof.
  intros H Hfd. apply broadcast_spec in H as (_ & _ & ext & He & Hf).
  by rewrite He, sent_to_app, (sent_to_untouched _ _ _ Hf Hfd), app_nil_r.
Qed.

(** C1: two clients are connected and the second sends [client2:hello].  The
    server shows the frame and sends it to the second client, with a second
    CRLF behind it; the first client, still registered and watched, is sent
    nothing but its id: the broadcast starts at the sender's node, not at the
    head of the list. *)
Theorem broadcast_skips_earlier_connections :
  ∃ st o,
    server_rounds 3 8 4 3 (server_init 4 3) os_hello = Ret (Running st o)
    ∧ sock_fd <$> clients st = [5; 6]
    ∧ 5 ∈ all_fds st
    ∧ SysDisplay (str "client2:hello" ++ CRLF) ∈ os_log o
    ∧ sent_to 6 (os_log o) = str "2" ++ CRLF ++ str "client2:hello" ++ CRLF ++ CRLF
    ∧ sent_to 5 (os_log o) = str "1" ++ CRLF.
Proof.
  eexists _, _. split; [vm_compute; reflexivity|].
  split; [reflexivity|]. split; [apply (bool_decide_unpack _); by vm_compute|].
  split; [|split; reflexivity].
  apply list_elem_of_In. vm_compute. tauto.
Qed.

(** When it is the first client that sends, the broadcast starts at the head
    of the list and both clients are sent the frame. *)
Example broadcast_from_head_reaches_both :
  ∃ st o,
    server_rounds 3 8 4 3 (server_init 4 3) os_hello_first = Ret (Running st o)
    ∧ sent_to 5 (os_log o) = str "1" ++ CRLF ++ str "client1:hello" ++ CRLF ++ CRLF
    ∧ sent_to 6 (os_log o) = str "2" ++ CRLF ++ str "client1:hello" ++ CRLF ++ CRLF.
Proof.
  eexists _, _. split; [vm_compute; reflexivity|]. split; reflexivity.
Qed.

(** A destination whose [write] returns 0 is removed and then tried once
    more: the second [write], on the closed descriptor, fails, and only then
    does the broadcast go on to the next node. *)
Example broadcast_retries_removed_destination :
  ∃ st o,
    server_rounds 3 8 4 3 (server_init 4 3) os_hello_lost = Ret (Running st o)
    ∧ drop 4 (os_log o) =
      [SysDisplay (str "client1:hello" ++ CRLF);
       SysWrite 5 (str "client1:hello" ++ CRLF ++ CRLF) 0;
       SysClose 5;
       SysWrite 5 (str "client1:hello" ++ CRLF ++ CRLF) (-1);
       SysError (str "ERROR: write");
       SysWrite 6 (str "client1:hello" ++ CRLF ++ CRLF) 17]
    ∧ sock_fd <$> clients st = [5; 6]
    ∧ client_count st = 1.
Proof.
  eexists _, _. split; [vm_compute; reflexivity|]. repeat split; reflexivity.
Qed.

(** ** The status query *)

Lemma c_str_is_text a : text (c_str a).
Proof.
  induction a as [|c a IH]; [constructor|]. cbn [c_str].
  case_decide; [constructor|]. by constructor.
Qed.

Lemma c_str_split a : ∃ rest, a = c_str a ++ rest ∧ (rest = [] ∨ ∃ t, rest = NUL :: t).
Proof.
  induction a as [|c a (rest & E & Hr)]; [by exists []; split; [|left]|].
  cbn [c_str]. case_decide as Hc.
  - subst c. exists (NUL :: a). split; [done|right; by exists a].
  - exists rest. split; [by rewrite <- app_comm_cons, <- E|done].
Qed.

Lemma strchr_found pre c rest :
  text pre -> c ∉ pre -> c ≠ NUL -> strchr (pre ++ c :: rest) c = Some (Z.of_nat (length pre)).
Proof.
  intros Ht Hc Hn. induction Ht as [|x pre Hx Ht IH]; cbn [app strchr].
  - rewrite decide_False by done. by rewrite decide_True.
  - rewrite decide_False by done.
    rewrite decide_False by (intros ->; apply Hc; by left).
    rewrite IH by (intros ?; apply Hc; by right). cbn [fmap option_fmap option_map length].
    f_equal. lia.
Qed.

Lemma sys_write_range fd data o r o' :
  sys_write fd data o = (r, o') -> r = -1 ∨ 0 <= r <= Z.of_nat (length data).
Proof.
  unfold sys_write. case_decide; [intros [= <- <-]; by left|].
  destruct (default [] (os_wr o !! fd)) as [|[|k] q]; intros [= <- <-]; [right|by left|right]; lia.
Qed.

Lemma write_loop_returns fuel : ∀ fd data total len o,
  0 <= total -> (Z.to_nat (len - total) <= fuel)%nat ->
  ∃ r o', write_loop fuel fd data total len o = Ret (r, o').
Proof.
  induction fuel as [|fuel IH]; intros fd data total len o Ht Hf; cbn [write_loop].
  - rewrite decide_False by lia. by eexists _, _.
  - case_decide; [|by eexists _, _].
    destruct (sys_write _ _ _) as [bw o1] eqn:Hw. apply sys_write_range in Hw.
    rewrite length_take in Hw.
    case_decide; [by eexists _, _|]. case_decide; [by eexists _, _|].
    apply IH; lia.
Qed.

Lemma write_buf_to_client_returns c a len o :
  0 <= len <= BUF_SIZE - 2 ->
  ∃ r a' o', write_buf_to_client c a len o = Ret (r, a', o').
Proof.
  intros Hl. unfold write_buf_to_client.
  rewrite decide_False by lia. rewrite decide_False by lia.
  destruct (write_loop_returns (Z.to_nat (len + 2)) (sock_fd c)
              (<[Z.to_nat (len + 1):=LF]> (<[Z.to_nat len:=CR]> a)) 0 (len + 2) o)
    as (r & o' & E); [lia..|].
  unfold write_to_socket. rewrite E. by eexists _, _, _.
Qed.

Lemma reply_returns c n o :
  INT_MIN <= n <= INT_MAX -> ∃ r a o', reply c n o = Ret (r, a, o').
Proof.
  intros Hn. unfold reply. apply write_buf_to_client_returns.
  rewrite strnlen_snprintf_d by done. destruct (pretty_int_text n Hn) as [_ Hl].
  unfold BUF_SIZE, MAX_PROTO_MSG, MAX_USER_MSG. lia.
Qed.

(** [_server_commands] on a frame that holds the query: it answers. *)
Lemma _server_commands_query c msg pre count o :
  length msg = Z.to_nat BUF_SIZE ->
  c_str msg = pre ++ ":"%char :: connected_cmd ++ CRLF ->
  ":"%char ∉ pre ->
  (length pre <= 114)%nat ->
  strlen (snprintf_s MAX_USER_MSG msg) = Z.of_nat (length (c_str msg))
  ∧ _server_commands c msg (Z.of_nat (length (c_str msg))) count o =
    ('(r, _, o') ← reply c count o; if decide (r = 2) then Ret (2, o') else Ret (1, o')).
Proof.
  intros Hlen Hmsg Hpre Hshort.
  pose proof (c_str_is_text msg) as Ht. rewrite Hmsg in Ht.
  apply Forall_app in Ht as [Htpre _].
  assert (Hl : length (c_str msg) = (length pre + 13)%nat).
  { rewrite Hmsg, length_app. reflexivity. }
  split.
  { unfold strlen, snprintf_s. f_equal.
    change (Z.to_nat (MAX_USER_MSG - 1)) with 127%nat.
    rewrite take_ge by lia.
    rewrite c_str_local_array; [done|apply c_str_is_text|].
    change (Z.to_nat BUF_SIZE) with 131%nat. lia. }
  destruct (c_str_split msg) as (rest & E & Hrest).
  assert (∃ t, rest = NUL :: t) as [t ->].
  { destruct Hrest as [->|?]; [|done]. rewrite app_nil_r in E.
    rewrite <- E in Hl. change (Z.to_nat BUF_SIZE) with 131%nat in Hlen. lia. }
  unfold _server_commands. rewrite decide_False by lia.
  replace (Z.to_nat (Z.of_nat (length (c_str msg)) - 2)) with (length pre + 11)%nat by lia.
  rewrite E, Hmsg.
  change (pre ++ ":"%char :: connected_cmd ++ CRLF)
    with (pre ++ (":"%char :: connected_cmd) ++ CRLF).
  rewrite <- !app_assoc.
  rewrite (insert_app_r_alt pre) by lia.
  replace (length pre + 11 - length pre)%nat with 11%nat by lia.
  change (<[11%nat:=NUL]> ((":"%char :: connected_cmd) ++ CRLF ++ NUL :: t))
    with (":"%char :: connected_cmd ++ NUL :: LF :: NUL :: t).
  rewrite strchr_found by done.
  rewrite Nat2Z.id, drop_app_length.
  rewrite decide_True; [done|]. split; [done|].
  change (drop 1 (":"%char :: connected_cmd ++ NUL :: LF :: NUL :: t))
    with (connected_cmd ++ NUL :: LF :: NUL :: t).
  apply c_str_text. by repeat constructor.
Qed.

(** X28: what the server does with a status query.  The frame taken from
    the buffer of the node at [cur] is at most 127 bytes long with its
    terminator, has no [NUL], and holds exactly [\connected] between its first
    [:] and the terminator.  Then the server answers that node alone: the
    first call is a [write] on its descriptor of the count in decimal and
    CRLF, every other call of the answer is a [write] on that descriptor or a
    diagnostic, and nothing is shown or broadcast.  When the answer returns 2 (a [write] that returned
    0) the descriptor is removed with [_remove_client]; when it returns
    anything else, an error included, the state stays as it is.  In both
    cases the draining of this connection stops. *)
Theorem status_query_is_answered_in_private fuel cur st o c msg b' pre :
  clients st !! cur = Some c ->
  get_message (rbuf c) = Ret (0, Some msg, b') ->
  length msg = Z.to_nat BUF_SIZE ->
  c_str msg = pre ++ ":"%char :: connected_cmd ++ CRLF ->
  ":"%char ∉ pre ->
  (length pre <= 114)%nat ->
  INT_MIN <= client_count st <= INT_MAX ->
  ∃ r a o1,
    reply c (client_count st) o = Ret (r, a, o1)
    ∧ (∃ ret ext,
         os_log o1 = os_log o ++ SysWrite (sock_fd c) (decimal_frame (client_count st)) ret :: ext
         ∧ Forall (only_writes (sock_fd c)) ext)
    ∧ drain (S fuel) cur st o =
      (if decide (r = 2) then _remove_client (set_rbuf cur b' st) (sock_fd c) o1
       else Ret (set_rbuf cur b' st, o1))
    ∧ (∀ st' o',
         drain (S fuel) cur st o = Ret (st', o') ->
         (∀ fd, fd ≠ sock_fd c -> sent_to fd (os_log o') = sent_to fd (os_log o))
         ∧ (∃ ext, os_log o' = os_log o ++ ext ∧ Forall not_display ext)
         ∧ rbuf <$> clients st' !! cur = Some b').
Proof.
  intros Hc Hg Hlen Hmsg Hpre Hshort Hn.
  destruct (reply_returns c (client_count st) o Hn) as (r & a & o1 & Hr).
  exists r, a, o1. split; [exact Hr|].
  pose proof (send_decimal_first _ _ _ _ _ _ Hn Hr) as (ret & ext & He & Hf).
  split; [by exists ret, ext|].
  destruct (_server_commands_query c msg pre (client_count st) o) as [Hs Hq]; try done.
  assert (drain (S fuel) cur st o =
          (if decide (r = 2) then _remove_client (set_rbuf cur b' st) (sock_fd c) o1
           else Ret (set_rbuf cur b' st, o1))) as Hd.
  { cbn [drain]. rewrite Hc, Hg. cbn [mbind run_bind]. cbv zeta.
    rewrite Hs. cbn [client_count set_rbuf]. rewrite Hq, Hr. cbn [mbind run_bind].
    destruct (decide (r = 2)) as [->|Hne].
    - cbn [mbind run_bind]. rewrite decide_True by lia. by rewrite decide_True.
    - cbn [mbind run_bind]. rewrite decide_True by lia. by rewrite decide_False by lia. }
  split; [exact Hd|]. intros st' o' Hret. rewrite Hd in Hret.
  assert (Forall (only_writes (sock_fd c))
            (SysWrite (sock_fd c) (decimal_frame (client_count st)) ret :: ext)) as Hall
    by (by constructor).
  assert (clients st' = clients (set_rbuf cur b' st)
          ∧ ∃ tl, os_log o' = os_log o1 ++ tl ∧ Forall (eq (SysClose (sock_fd c))) tl)
    as (Hcl & tl & Ho' & Htl).
  { destruct (decide (r = 2)).
    - apply _remove_client_spec in Hret as (Hcl & _ & _ & _ & Hl & _).
      split; [done|]. exists [SysClose (sock_fd c)]. split; [done|]. by repeat constructor.
    - injection Hret as <- <-. split; [done|]. exists []. by rewrite app_nil_r. }
  split; [|split].
  - intros fd Hfd. rewrite Ho', He, !sent_to_app.
    rewrite (only_writes_sent (sock_fd c) fd _ Hall) by done.
    rewrite (closes_sent fd _ _ Htl). by rewrite !app_nil_r.
  - exists ((SysWrite (sock_fd c) (decimal_frame (client_count st)) ret :: ext) ++ tl).
    rewrite Ho', He, <- app_assoc. split; [done|]. apply Forall_app. split.
    + eapply Forall_impl; [exact Hall|]. intros e. apply only_writes_not_display.
    + eapply Forall_impl; [exact Htl|]. by intros e <-.
  - rewrite Hcl. by rewrite (set_rbuf_lookup _ _ _ _ Hc).
Qed.

(** Three clients, the second asks: the answer is [3]. *)
Lemma status_query_witness :
  ∃ r a o1,
    reply asking_client 3 query_os = Ret (r, a, o1)
    ∧ (∃ ret ext,
         os_log o1 = os_log query_os ++ SysWrite 6 (str "3" ++ CRLF) ret :: ext
         ∧ Forall (only_writes 6) ext)
    ∧ drain 1 1 query_state query_os =
      (if decide (r = 2)
       then _remove_client (set_rbuf 1 (mkBuf (buf (rbuf asking_client)) 0) query_state) 6 o1
       else Ret (set_rbuf 1 (mkBuf (buf (rbuf asking_client)) 0) query_state, o1))
    ∧ (∀ st' o',
         drain 1 1 query_state query_os = Ret (st', o') ->
         (∀ fd, fd ≠ 6 -> sent_to fd (os_log o') = sent_to fd (os_log query_os))
         ∧ (∃ ext, os_log o' = os_log query_os ++ ext ∧ Forall not_display ext)
         ∧ rbuf <$> clients st' !! 1%nat = Some (mkBuf (buf (rbuf asking_client)) 0)).
Proof.
  apply (status_query_is_answered_in_private 0 1 query_state query_os asking_client
           (store_bytes (zeroed BUF_SIZE) 0 query_frame)
           (mkBuf (buf (rbuf asking_client)) 0) (str "client2")).
  - reflexivity.
  - vm_compute. reflexivity.
  - reflexivity.
  - reflexivity.
  - apply (bool_decide_unpack _). by vm_compute.
  - vm_compute. lia.
  - vm_compute. split; discriminate.
Defined.

(** The same from the start of the server: each client is sent its id, the
    second also the count 3, and nothing is shown to the operator. *)
Example three_clients_query :
  ∃ st o,
    server_rounds 4 8 4 3 (server_init 4 3) os_three = Ret (Running st o)
    ∧ client_count st = 3
    ∧ sent_to 5 (os_log o) = str "1" ++ CRLF
    ∧ sent_to 6 (os_log o) = str "2" ++ CRLF ++ str "3" ++ CRLF
    ∧ sent_to 7 (os_log o) = str "3" ++ CRLF
    ∧ Forall not_display (os_log o).
Proof.
  eexists _, _. split; [vm_compute; reflexivity|].
  repeat split; try reflexivity. by repeat constructor.
Qed.

(** C7: the code does not do what the claim says, in two ways.  When the
    [write] of the answer fails with an error the connection is not removed:
    it stays open, watched and counted, although the comment of
    [_server_commands] promises the return value 2 when sending the response
    failed.  And a frame of 128 bytes whose bytes after the first [:] are
    exactly [\connected] is not answered at all: [snprintf] cuts it to 127
    bytes before the token is compared, and it is shown and broadcast. *)
Theorem status_query_not_as_claimed :
  (∃ st o,
     server_rounds 2 8 4 3 (server_init 4 3) os_reply_fails = Ret (Running st o)
     ∧ os_log o = [SysAccept 5; SysWrite 5 (str "1" ++ CRLF) 3;
                   SysWrite 5 (str "1" ++ CRLF) (-1); SysError (str "ERROR: write")]
     ∧ 5 ∈ all_fds st ∧ (5 ∉ os_closed o) ∧ client_count st = 1)
  ∧ (∃ st o,
       server_rounds 2 8 4 3 (server_init 4 3) os_long_query = Ret (Running st o)
       ∧ c_str (drop 116 long_query) = str "\connected" ++ CRLF
       ∧ os_log o = [SysAccept 5; SysWrite 5 (str "1" ++ CRLF) 3;
                     SysDisplay (take 127 long_query);
                     SysWrite 5 (take 127 long_query ++ CRLF) 129]).
Proof.
  split.
  - eexists _, _. split; [vm_compute; reflexivity|]. split; [reflexivity|].
    split; [apply (bool_decide_unpack _); by vm_compute|].
    split; [apply (bool_decide_unpack _); by vm_compute|reflexivity].
  - eexists _, _. split; [vm_compute; reflexivity|]. split; reflexivity.
Qed.

(** ** Shutdown *)

(** With a client that stays, the server returns 0 when the shell closes the
    pipe, after closing the client's descriptor, the pipe and the listening
    socket. *)
Example server_returns_on_shutdown :
  ∃ o, server 2 8 4 3 os_shutdown = Ret (0, o)
       ∧ os_log o = [SysAccept 5; SysWrite 5 (str "1" ++ CRLF) 3;
                     SysClose 5; SysClose 3; SysClose 4].
Proof. eexists. split; [vm_compute; reflexivity|reflexivity]. Qed.

(** ** The ids *)

(** Lines 98-118 of [server] always come to an end. *)
Lemma accept_client_returns st o :
  INT_MIN <= client_id st + 1 <= INT_MAX ->
  INT_MIN <= client_count st < INT_MAX ->
  ∃ a, accept_client st o = Ret a.
Proof.
  intros Hid Hcnt. unfold accept_client.
  destruct (_accept_connection (clients st) o) as [[[client_fd cl] new_client] o1] eqn:Ha.
  case_decide as Hfd; [by eexists|].
  assert (∃ c, cl !! new_client = Some c) as [c ->].
  { unfold _accept_connection in Ha. destruct (sys_accept o) as [fd o'].
    case_decide; [injection Ha as <- _ _ _; lia|].
    destruct (sys_malloc o') as [[|] o2]; [|injection Ha as <- _ _ _; lia].
    injection Ha as _ <- <- _. eexists. rewrite lookup_app_r by done.
    by rewrite Nat.sub_diag. }
  unfold _send_client_id, int_add. cbn [client_id client_count].
  rewrite !decide_True by (unfold INT_MIN in *; lia). cbn [mbind run_bind].
  rewrite ?decide_True by (unfold INT_MIN in *; lia).
  cbn [mbind run_bind].
  destruct (pretty_int_text _ Hid) as [Ht Hl].
  rewrite strnlen_snprintf_d by done.
  destruct (write_buf_to_client_returns c (snprintf_d (client_id st + 1))
              (Z.of_nat (length (str (pretty (client_id st + 1))))) o1) as (r & a' & o2 & ->).
  { unfold BUF_SIZE, MAX_PROTO_MSG, MAX_USER_MSG. lia. }
  cbn [mbind run_bind].
  destruct (decide (r = 1)); cbn [mbind run_bind].
  { rewrite decide_True by done. by eexists. }
  destruct (decide (r = 2)); cbn [mbind run_bind].
  - rewrite decide_False by lia. rewrite decide_True by done.
    unfold _remove_client, int_add. cbn [client_count].
    rewrite decide_True by lia. cbn [mbind run_bind]. by eexists.
  - rewrite decide_False by lia. rewrite decide_False by lia. by eexists.
Qed.

(** C8, as the code has it.  At every point that a run of the server
    reaches, the call that follows the [accept] of the [k]-th connection that
    was registered ([accept] gave a descriptor and [malloc] a node) is a
    [write] on its descriptor of the decimal digits of [k] and CRLF; the
    counter equals the number of connections registered; and two different
    numbers never give the same frame.  From there, whatever state the
    connections and the operating system are in, the next pass through lines
    98-118 comes to an end and keeps all this: a connection that it registers
    is sent the next number, whoever has disconnected or been removed in
    between, and one for which [malloc] fails is closed without taking a
    number.  And a pass of [_process_client_data] over a client keeps it too,
    the pass that finds the client gone and removes it included. *)
Theorem client_ids_count_up n fuel s_fd server_fd o c :
  os_log o = [] ->
  server_rounds n fuel s_fd server_fd (server_init s_fd server_fd) o = Ret c ->
  let log := os_log (ctl_os c) in
  first_writes log = imap (λ k fd, Some (fd, decimal_frame (Z.of_nat k + 1))) (registered log)
  ∧ client_id (ctl_state c) = Z.of_nat (length (registered log))
  ∧ (∀ i j : Z, decimal_frame i = decimal_frame j -> i = j)
  ∧ (∀ o1, os_log o1 = log ->
       client_id (ctl_state c) < INT_MAX ->
       INT_MIN <= client_count (ctl_state c) < INT_MAX ->
       ∃ a, accept_client (ctl_state c) o1 = Ret a
         ∧ ids_in_order (ctl_state (step_ctl a)) (ctl_os (step_ctl a)))
  ∧ (∀ fuel' cur cl listen st1 o1 cur' st' o',
       ids_in_order st1 o1 ->
       clients st1 !! cur = Some cl ->
       process_client fuel' cur cl listen st1 o1 = Ret (cur', st', o') ->
       ids_in_order st' o').
Proof.
  intros Hlog H. apply server_rounds_ids in H.
  2:{ unfold ids_in_order. rewrite Hlog. done. }
  pose proof H as (Hs & Hi & Hw).
  split; [done|]. split; [done|]. split; [apply decimal_frame_inj|]. split.
  - intros o1 Ho1 Hid Hcnt.
    destruct (accept_client_returns (ctl_state c) o1) as [a Ha]; [|done|].
    { rewrite Hi. unfold INT_MIN. lia. }
    exists a. split; [done|].
    assert (Hinv : ids_in_order (ctl_state c) o1).
    { unfold ids_in_order. by rewrite Ho1. }
    by apply (accept_client_ids _ _ _ Hinv) in Ha.
  - intros fuel' cur cl listen st1 o1 cur' st' o' Hinv Hcl Hp.
    apply process_client_spec in Hp as (_ & Hid & _ & L); [|done].
    eapply ids_in_order_calm; [exact Hinv|by eapply log_ext_calm|exact Hid].
Qed.

(** Three connections: the first is removed at once, the second has closed
    its end when the third is accepted, and is removed after that.  The ids
    are 1, 2 and 3. *)
Lemma client_ids_witness :
  match ids_run with
  | Ret c =>
      os_log os_ids = []
      ∧ registered (os_log (ctl_os c)) = [5; 6]
      ∧ first_writes (os_log (ctl_os c)) = [Some (5, str "1" ++ CRLF); Some (6, str "2" ++ CRLF)]
      ∧ client_id (ctl_state c) = 2
      ∧ client_count (ctl_state c) = 1
      ∧ at_end 6 (ids_os c)
      ∧ ∃ a, accept_client (ctl_state c) (ids_os c) = Ret a
          ∧ registered (os_log (ctl_os (step_ctl a))) = [5; 6; 7]
          ∧ first_writes (os_log (ctl_os (step_ctl a))) =
            [Some (5, str "1" ++ CRLF); Some (6, str "2" ++ CRLF); Some (7, str "3" ++ CRLF)]
          ∧ client_id (ctl_state (step_ctl a)) = 3
          ∧ ∃ st3 o3,
              process_client 8 1 (mkClient 6 0 (mkBuf (zeroed BUF_SIZE) 0)) {[4; 6]}
                (ctl_state (step_ctl a)) (ctl_os (step_ctl a)) = Ret (1%nat, st3, o3)
              ∧ 6 ∈ os_closed o3
              ∧ client_count st3 = 1
              ∧ ids_in_order st3 o3
  | _ => False
  end.
Proof.
  destruct ids_run as [c| |] eqn:E; [|vm_compute in E; discriminate..].
  destruct (client_ids_count_up 2 8 4 3 os_ids c eq_refl E) as (Hw & Hi & _ & Hnext & Hpass).
  assert (Ha : registered (os_log (ctl_os c)) = [5; 6]
               ∧ client_count (ctl_state c) = 1
               ∧ client_id (ctl_state c) = 2
               ∧ at_end 6 (ids_os c))
    by (vm_compute in E; injection E as <-; split; [reflexivity|]; split; [reflexivity|];
        split; [reflexivity|]; right; reflexivity).
  destruct Ha as (Ha & Hn & Hid & Hend).
  destruct (Hnext (ids_os c) eq_refl) as (a & Hacc & Hinv).
  { rewrite Hid. unfold INT_MAX. lia. }
  { rewrite Hn. unfold INT_MIN, INT_MAX. lia. }
  pose proof Hinv as (_ & Hi' & Hw').
  assert (Hr : registered (os_log (ctl_os (step_ctl a))) = [5; 6; 7]
               ∧ clients (ctl_state (step_ctl a)) !! 1%nat
                 = Some (mkClient 6 0 (mkBuf (zeroed BUF_SIZE) 0))
               ∧ ∃ st3 o3,
                   process_client 8 1 (mkClient 6 0 (mkBuf (zeroed BUF_SIZE) 0)) {[4; 6]}
                     (ctl_state (step_ctl a)) (ctl_os (step_ctl a)) = Ret (1%nat, st3, o3)
                   ∧ 6 ∈ os_closed o3 ∧ client_count st3 = 1).
  { vm_compute in E. injection E as <-. vm_compute in Hacc. injection Hacc as <-.
    split; [reflexivity|]. split; [reflexivity|].
    eexists _, _. split; [vm_compute; reflexivity|].
    split; [apply (bool_decide_unpack _); by vm_compute|reflexivity]. }
  destruct Hr as (Hr & Hc6 & st3 & o3 & Hp & Hcl3 & Hn3).
  rewrite Ha in Hw. rewrite Hr in Hw', Hi'.
  split; [reflexivity|]. split; [exact Ha|]. split; [exact Hw|]. split; [exact Hid|].
  split; [exact Hn|]. split; [exact Hend|].
  exists a. split; [exact Hacc|]. split; [exact Hr|]. split; [exact Hw'|]. split; [exact Hi'|].
  exists st3, o3. split; [exact Hp|]. split; [exact Hcl3|]. split; [exact Hn3|].
  exact (Hpass _ _ _ _ _ _ _ _ _ Hinv Hc6 Hp).
Defined.

(** The round of [os_ids] in which the third client is accepted does not
    end, since the second has closed its end: the id 3 is the last thing that
    the server sends. *)
Example ids_run_hangs_afterwards :
  ids_run = Ret (Running ids_state ids_head)
  ∧ ∀ fuel c, server_round fuel 4 3 ids_state ids_head ≠ Ret c.
Proof.
  split; [vm_compute; reflexivity|]. intros fuel c.
  unfold server_round.
  change (sys_select ids_head)
    with (Some (SelReady {[4; 6]}),
          mkOS {[5]} ∅ {[ 5 := [] ]} [7] [] (os_log ids_head) []).
  cbv beta iota zeta.
  set (listen := all_fds ids_state ∩ {[4; 6]}).
  assert (Hl : ∀ fd, fd ∈ listen -> fd = 4 ∨ fd = 6).
  { intros fd [_ Hfd]%elem_of_intersection.
    apply elem_of_union in Hfd as [Hfd|Hfd]; apply elem_of_singleton in Hfd; auto. }
  assert (H4 : 4 ∈ listen) by (apply (bool_decide_unpack _); by vm_compute).
  assert (H6 : 6 ∈ listen) by (apply (bool_decide_unpack _); by vm_compute).
  rewrite decide_True by done.
  match goal with |- context [accept_client ?s ?o] =>
    destruct (accept_client s o) as [[st2 o2|c2]| |] eqn:Ha
  end.
  2-4: vm_compute in Ha; discriminate.
  assert (Hst : clients st2 !! 0%nat = Some (mkClient 5 0 (mkBuf (zeroed BUF_SIZE) 0))
                ∧ clients st2 !! 1%nat = Some (mkClient 6 0 (mkBuf (zeroed BUF_SIZE) 0))
                ∧ default [] (os_in o2 !! 6) = []).
  { vm_compute in Ha. injection Ha as <- <-. done. }
  destruct Hst as (Hc0 & Hc1 & Hend). clear Ha.
  cbn [mbind run_bind].
  unfold server_rest. rewrite decide_False by (intros [?|?]%Hl; lia).
  cbn [mbind run_bind mret run_ret].
  intros H. apply bind_Ret in H as ([st o] & H & _). revert H.
  destruct fuel as [|fuel]; cbn [_process_client_data]; rewrite Hc0; [done|].
  unfold process_client. cbn [sock_fd].
  rewrite decide_True by (intros [?|?]%Hl; lia). cbn [mbind run_bind].
  eapply never_past_a_closed_client; [exact Hc1|exact H6|by right].
Qed.

(** The claim fails as it stands where a connection is accepted and then
    refused: [malloc] gives no node for the first descriptor that [accept]
    returns, which is closed without an id, and the second descriptor that
    [accept] returns is sent the id 1, not 2. *)
Lemma second_accepted_connection_gets_id_1 :
  ∃ st o,
    server_rounds 2 8 4 3 (server_init 4 3) os_refused = Ret (Running st o)
    ∧ accepted (os_log o) = [5; 6]
    ∧ os_log o = [SysAccept 5; SysError (str "server: malloc"); SysClose 5;
                  SysAccept 6; SysWrite 6 (str "1" ++ CRLF) 3]
    ∧ client_id st = 1.
Proof.
  eexists _, _. split; [vm_compute; reflexivity|]. repeat split; reflexivity.
Qed.

(** * The client's first frame *)

(** Once no frame is left in the buffer and none was accepted, the second
    loop of [_recieve_message] does not leave. *)
Lemma message_loop_spins fuel : ∀ msg_len msg s o,
  msg_len <= 2 ->
  get_message (Client.sbuf s) = Ret (1, None, Client.sbuf s) ->
  Client.message_loop fuel msg_len msg s o = Timeout.
Proof.
  induction fuel as [|fuel IH]; intros msg_len msg s o Hl Hg; cbn [Client.message_loop];
    rewrite decide_True by done; [done|].
  rewrite Hg. cbn [mbind run_bind]. by apply IH.
Qed.

(** C10: the first delivery is a lone CRLF.  The read reports a frame, the
    frame is empty, and the second loop of [_recieve_message] then asks
    [get_message] for a frame that is not there, again and again, without
    reading: for no loop bound does the function return. *)
Theorem lone_terminator_spins_forever :
  ∀ fuel, Client._recieve_message fuel fresh_sock (os_sends CRLF) = Timeout.
Proof.
  intros [|fuel]; [reflexivity|].
  unfold Client._recieve_message. cbn [Client.read_loop].
  change (read_from_socket (Client.sock_fd fresh_sock) (Client.sbuf fresh_sock) (os_sends CRLF))
    with (0, mkBuf (store_bytes (zeroed BUF_SIZE) 0 CRLF) 2, os_start {[ 5 := [] ]} ∅ [] []).
  cbv beta iota zeta. rewrite decide_False by (intros H; by apply H).
  cbn [mbind run_bind]. rewrite decide_False by (intros H; by apply H).
  cbn [Client.message_loop]. rewrite decide_True by lia.
  change (get_message (Client.sbuf (Client.mkSock (Client.sock_fd fresh_sock)
                                      (mkBuf (store_bytes (zeroed BUF_SIZE) 0 CRLF) 2))))
    with (Ret (0, Some (store_bytes (zeroed BUF_SIZE) 0 CRLF),
               mkBuf (store_bytes (zeroed BUF_SIZE) 0 CRLF) 0)).
  cbn [mbind run_bind]. cbv zeta.
  change (strnlen (store_bytes (zeroed BUF_SIZE) 0 CRLF) MAX_PROTO_MSG) with 2.
  rewrite decide_True by lia.
  apply message_loop_spins; [lia|reflexivity].
Qed.


(** With a [strtol] that sets [EINVAL] when it finds no digit, the frame
    [hello] makes [client] return -1, and a server that has left still makes
    it return 0. *)
Example first_frame_with_einval :
  (∃ s o, Client.client_handshake true 8 fresh_sock (os_sends (str "hello" ++ CRLF))
          = Ret (Client.Returned (-1), s, o))
  ∧ (∃ s o, Client.client_handshake true 8 fresh_sock os_gone
            = Ret (Client.Returned 0, s, o)).
Proof.
  repeat split; eexists _, _; vm_compute; reflexivity.
Qed.

Lemma read_from_socket_partial fd b o b' o' :
  read_from_socket fd b o = (2, b', o') ->
  buf_ok b ->
  inbuf b < inbuf b' < BUF_SIZE.
Proof.
  intros Hr [Hin Hlen]. unfold read_from_socket in Hr.
  case_decide; [by simplify_eq|].
  destruct (sys_read fd (BUF_SIZE - inbuf b) o) as [[e|bs] o1] eqn:Hs; [by simplify_eq|].
  cbv zeta in Hr. cbn [buf inbuf] in Hr.
  repeat case_decide; simplify_eq. cbn [inbuf]. lia.
Qed.

(** The first loop of [_recieve_message] leaves: a read that returns 2 has
    added a byte and left room, so no more than [BUF_SIZE] reads return 2. *)
Lemma read_loop_returns fuel : ∀ s o,
  buf_ok (Client.sbuf s) ->
  (Z.to_nat (BUF_SIZE - inbuf (Client.sbuf s)) < fuel)%nat ->
  ∃ r s' o', Client.read_loop fuel s o = Ret (r, s', o') ∧ (r = 0 ∨ r = 1 ∨ r = -1).
Proof.
  induction fuel as [|fuel IH]; intros s o Hok Hf; [lia|].
  cbn [Client.read_loop].
  destruct (read_from_socket (Client.sock_fd s) (Client.sbuf s) o) as [[r b] o1] eqn:Hr.
  case_decide; [|eexists _, _, _; split; [done|left; lia]].
  case_decide; [eexists _, _, _; split; [done|lia]|].
  case_decide; [eexists _, _, _; split; [done|lia]|].
  destruct (read_from_socket_capacity _ _ _ _ _ _ Hr Hok) as [Hok' _].
  assert (r = 2) as ->.
  { revert Hr. unfold read_from_socket. case_decide; [intros [= <- _ _]; lia|].
    destruct (sys_read _ _ _) as [[e|bs] o2]; [intros [= <- _ _]; lia|].
    cbv zeta. repeat case_decide; intros [= <- _ _]; lia. }
  pose proof (read_from_socket_partial _ _ _ _ _ Hr Hok) as Hgrow.
  apply IH; [done|]. cbn [Client.sbuf]. lia.
Qed.

(** * More on the framing codec *)

(** ** Where the first terminator is *)

Lemma crlf_pos_none l : crlf_pos l = -1 -> ¬ has_crlf l.
Proof.
  induction l as [|a l IH]; intros H (l1 & l2 & E).
  { destruct l1; discriminate E. }
  destruct l as [|b t]; [destruct l1 as [|? [|? ?]]; discriminate E|].
  rewrite crlf_pos_cons in H. case_decide as Hc.
  { discriminate H. }
  unfold shift in H. pose proof (crlf_pos_range (b :: t)) as Hrg.
  case_decide as Hr; [|lia].
  destruct l1 as [|x l1].
  - simpl in E. injection E as -> -> _. by destruct Hc.
  - simpl in E. injection E as -> E. apply IH; [done|]. by exists l1, l2.
Qed.

Lemma crlf_pos_first l :
  crlf_pos l ≠ -1 ->
  ∃ l1 l2, l = l1 ++ CRLF ++ l2 ∧ crlf_pos l = Z.of_nat (length l1) + 2
           ∧ crlf_pos (l1 ++ [CR]) = -1.
Proof.
  induction l as [|a l IH]; [done|].
  destruct l as [|b t]; [done|].
  rewrite crlf_pos_cons. case_decide as Hc.
  - destruct Hc as [-> ->]. intros _. by exists [], t.
  - unfold shift. case_decide as Hr; [done|]. intros _.
    destruct IH as (l1 & l2 & E & Hp & Hno); [done|].
    exists (a :: l1), l2. split; [by rewrite E|]. split.
    + rewrite Hp. rewrite length_cons. lia.
    + destruct l1 as [|x l1].
      * simpl. simpl in E. injection E as -> _.
        rewrite decide_False; [done|]. intros [-> ?]. discriminate.
      * simpl in E. injection E as <- E.
        change ((a :: b :: l1) ++ [CR]) with (a :: b :: (l1 ++ [CR])).
        rewrite crlf_pos_cons. rewrite decide_False by done.
        change (b :: l1 ++ [CR]) with ((b :: l1) ++ [CR]). by rewrite Hno.
Qed.

Lemma crlf_pos_app_first l1 l2 :
  ¬ has_crlf l1 -> crlf_pos (l1 ++ CRLF ++ l2) = Z.of_nat (length l1) + 2.
Proof.
  induction l1 as [|a l1 IH]; intros Hno; [reflexivity|].
  assert (Hno' : ¬ has_crlf l1).
  { intros (x & y & ->). apply Hno. by exists (a :: x), y. }
  destruct l1 as [|b t].
  - change ([a] ++ CRLF ++ l2) with (a :: CR :: LF :: l2).
    rewrite crlf_pos_cons. rewrite decide_False by (intros [_ ?]; discriminate).
    reflexivity.
  - change ((a :: b :: t) ++ CRLF ++ l2) with (a :: b :: (t ++ CRLF ++ l2)).
    rewrite crlf_pos_cons. rewrite decide_False.
    2:{ intros [-> ->]. apply Hno. by exists [], t. }
    change (b :: t ++ CRLF ++ l2) with ((b :: t) ++ CRLF ++ l2).
    rewrite IH by done. unfold shift. rewrite decide_False by lia.
    rewrite !length_cons. lia.
Qed.

Lemma crlf_pos_frame m :
  ¬ has_crlf m -> crlf_pos (m ++ CRLF) = Z.of_nat (length m) + 2.
Proof. intros H. rewrite <- (crlf_pos_app_first m []) by done. by rewrite app_nil_r. Qed.

Lemma has_crlf_snoc_CR l : has_crlf (l ++ [CR]) -> has_crlf l.
Proof.
  intros (l1 & l2 & E).
  destruct l2 as [|x l2 _] using rev_ind.
  - rewrite app_nil_r in E. change CRLF with ([CR] ++ [LF]) in E.
    rewrite app_assoc in E. apply app_inj_tail in E as [_ E]. discriminate E.
  - rewrite !app_assoc in E. apply app_inj_tail in E as [E _].
    exists l1, l2. by rewrite E, <- app_assoc.
Qed.

Lemma no_CR_no_crlf l : CR ∉ l -> ¬ has_crlf l.
Proof. intros Hn (l1 & l2 & ->). apply Hn. set_solver. Qed.

(** X1: [find_network_newline] returns -1 exactly when the first [inbuf] bytes
    hold no CRLF; otherwise it returns the position just past the first one:
    the two bytes before it are CR and LF, it lies between 2 and [inbuf], and
    no CRLF lies wholly before it. *)
Theorem find_network_newline_first_terminator (a : list ascii) (n : Z) :
  let r := find_network_newline a n in
  (r = -1 ↔ ¬ has_crlf (take (Z.to_nat n) a))
  ∧ (r ≠ -1 ->
     2 <= r <= n ∧ r <= Z.of_nat (length a)
     ∧ char_at a (r - 2) = CR ∧ char_at a (r - 1) = LF
     ∧ ¬ has_crlf (take (Z.to_nat (r - 1)) a)).
Proof.
  intros r. unfold r. clear r. rewrite find_network_newline_spec.
  set (v := take (Z.to_nat n) a). split.
  - split; [apply crlf_pos_none|].
    intros Hno. destruct (decide (crlf_pos v = -1)) as [|Hne]; [done|].
    destruct Hno. by apply crlf_pos_has_crlf.
  - intros Hne. destruct (crlf_pos_first v Hne) as (l1 & l2 & E & Hp & Hno).
    assert (Hlen : length v = (length l1 + 2 + length l2)%nat).
    { rewrite E, !length_app. simpl. lia. }
    assert (Hvl : (length v <= Z.to_nat n)%nat ∧ (length v <= length a)%nat).
    { unfold v. rewrite length_take. lia. }
    assert (Ha : a = l1 ++ CRLF ++ l2 ++ drop (Z.to_nat n) a).
    { rewrite <- (take_drop (Z.to_nat n) a) at 1. fold v. rewrite E.
      by rewrite <- !app_assoc. }
    rewrite Hp. split; [lia|]. split; [lia|].
    unfold char_at.
    replace (Z.to_nat (Z.of_nat (length l1) + 2 - 2)) with (length l1 + 0)%nat by lia.
    replace (Z.to_nat (Z.of_nat (length l1) + 2 - 1)) with (length l1 + 1)%nat by lia.
    split; [|split].
    + rewrite Ha at 1. by rewrite app_nth2_plus.
    + rewrite Ha at 1. by rewrite app_nth2_plus.
    + replace (take (length l1 + 1) a) with (l1 ++ [CR]).
      * intros H. by apply (crlf_pos_none _ Hno).
      * rewrite Ha. rewrite take_app_ge by lia.
        replace (length l1 + 1 - length l1)%nat with 1%nat by lia. reflexivity.
Qed.

(** ** What a read does to the buffer *)

Lemma has_crlf_take k l : has_crlf (take k l) -> has_crlf l.
Proof. intros H. rewrite <- (take_drop k l). by apply has_crlf_app. Qed.

Lemma crlf_pos_frame_ready v :
  (crlf_pos v ≠ -1 ∧ crlf_pos v < BUF_SIZE) ↔ frame_ready v.
Proof.
  split.
  - intros [Hne Hlt]. destruct (crlf_pos_first v Hne) as (l1 & l2 & E & Hp & _).
    exists l1, l2. split; [done|]. rewrite Hp in Hlt. unfold BUF_SIZE, MAX_PROTO_MSG, MAX_USER_MSG in Hlt. lia.
  - intros (m & rest & -> & Hlen).
    assert (Hh : has_crlf (m ++ CRLF ++ rest)) by (by exists m, rest).
    destruct (decide (crlf_pos (m ++ CRLF ++ rest) = -1)) as [Hn|Hn].
    { by destruct (crlf_pos_none _ Hn). }
    split; [done|].
    destruct (crlf_pos_first _ Hn) as (l1 & l2 & E & Hp & Hno).
    rewrite Hp.
    assert (length l1 <= length m)%nat; [|unfold BUF_SIZE, MAX_PROTO_MSG, MAX_USER_MSG; lia].
    destruct (decide (length l1 <= length m)%nat) as [|Hgt]; [done|].
    destruct (crlf_pos_none _ Hno).
    apply (has_crlf_take (length m + 2)).
    assert (Hl : take (length m + 2) (l1 ++ [CR]) = m ++ CRLF).
    { apply (f_equal (take (length m + 2))) in E.
      rewrite app_assoc in E. rewrite take_app_length' in E by (rewrite length_app; simpl; lia).
      rewrite E. rewrite !take_app. f_equal.
      assert (Hd : (length m + 2 - length l1 <= 1)%nat) by lia.
      destruct (length m + 2 - length l1)%nat as [|[|d]]; [done|done|lia]. }
    rewrite Hl. by exists m, [].
Qed.

Lemma sys_read_chunk fd count o c q :
  fd ∉ os_closed o ->
  os_in o !! fd = Some (InData c :: q) ->
  ∃ o', sys_read fd count o = (RdBytes (take (Z.to_nat count) c), o')
        ∧ os_log o' = os_log o ∧ os_closed o' = os_closed o.
Proof.
  intros Hopen Hq. unfold sys_read. rewrite decide_False by done. rewrite Hq. simpl.
  eexists. split; [reflexivity|]. done.
Qed.

(** A read that finds the chunk [c]: the bytes of [c] that fit are appended
    and the return value is that of [classify]. *)
Lemma read_from_socket_chunk fd b o c q :
  fd ∉ os_closed o ->
  os_in o !! fd = Some (InData c :: q) ->
  c ≠ [] ->
  buf_ok b ->
  inbuf b < BUF_SIZE ->
  let got := take (Z.to_nat (BUF_SIZE - inbuf b)) c in
  ∃ b' o', read_from_socket fd b o = (classify (valid b ++ got), b', o')
           ∧ valid b' = valid b ++ got
           ∧ inbuf b' = inbuf b + Z.of_nat (length got)
           ∧ buf_ok b'.
Proof.
  intros Hopen Hq Hc [Hin Hlen] Hroom got.
  destruct (sys_read_chunk fd (BUF_SIZE - inbuf b) o c q Hopen Hq) as (o' & Hs & _).
  assert (Hgl : (0 < length got <= Z.to_nat (BUF_SIZE - inbuf b))%nat).
  { unfold got. rewrite length_take. destruct c; [done|]. simpl. lia. }
  unfold read_from_socket. rewrite decide_False by lia. rewrite Hs. fold got. cbv zeta.
  rewrite decide_False by lia. cbn [buf inbuf].
  rewrite find_network_newline_spec.
  assert (Hv : take (Z.to_nat (inbuf b + Z.of_nat (length got)))
                    (store_bytes (buf b) (inbuf b) got) = valid b ++ got).
  { rewrite store_bytes_spec by lia. unfold valid.
    rewrite app_assoc. rewrite take_app_length'; [done|].
    rewrite length_app, length_take. lia. }
  rewrite Hv.
  exists (mkBuf (store_bytes (buf b) (inbuf b) got) (inbuf b + Z.of_nat (length got))), o'.
  split; [|split; [exact Hv|split; [done|]]].
  - unfold classify. cbv zeta.
    replace (Z.of_nat (length (valid b ++ got))) with (inbuf b + Z.of_nat (length got)).
    2:{ unfold valid. rewrite length_app, length_take. lia. }
    repeat case_decide; try done; lia.
  - split; cbn [buf inbuf]; [lia|by rewrite length_store_bytes].
Qed.

Lemma sys_read_arriving fd n o :
  match (sys_read fd n o).1 with
  | RdBytes bs => bs = arriving fd n o
  | RdErr _ => arriving fd n o = []
  end.
Proof.
  unfold sys_read, arriving. case_decide; [done|].
  by destruct (default [] (os_in o !! fd)) as [|[bs| |] q].
Qed.

(** X2: a read never overwrites what the buffer holds, and loses nothing
    of what arrives.  The bytes received before stay where they are; behind
    them come the bytes that the [read] brings, which are the first bytes of
    what the peer sent, as many as the buffer has room for; the rest of the
    array is untouched and [inbuf] stays within the array. *)
Theorem read_from_socket_keeps_received_bytes fd b o r b' o' :
  read_from_socket fd b o = (r, b', o') ->
  buf_ok b ->
  let bs := if decide (inbuf b < BUF_SIZE) then arriving fd (BUF_SIZE - inbuf b) o else [] in
  valid b' = valid b ++ bs
  ∧ inbuf b' = inbuf b + Z.of_nat (length bs)
  ∧ drop (Z.to_nat (inbuf b')) (buf b') = drop (Z.to_nat (inbuf b')) (buf b)
  ∧ length (buf b') = length (buf b)
  ∧ inbuf b' <= BUF_SIZE.
Proof.
  intros Hr [Hin Hlen] bs. unfold read_from_socket in Hr.
  assert (Hsame : bs = [] ->
            valid b = valid b ++ bs
            ∧ inbuf b = inbuf b + Z.of_nat (length bs)
            ∧ drop (Z.to_nat (inbuf b)) (buf b) = drop (Z.to_nat (inbuf b)) (buf b)
            ∧ length (buf b) = length (buf b)
            ∧ inbuf b <= BUF_SIZE).
  { intros ->. rewrite app_nil_r. simpl. repeat split; lia. }
  destruct (decide (inbuf b >= BUF_SIZE)) as [Hfull|Hroom].
  { injection Hr as <- <- <-. apply Hsame. subst bs. by rewrite decide_False by lia. }
  assert (Hbs : bs = arriving fd (BUF_SIZE - inbuf b) o)
    by (subst bs; by rewrite decide_True by lia).
  pose proof (sys_read_arriving fd (BUF_SIZE - inbuf b) o) as Harr.
  destruct (sys_read fd (BUF_SIZE - inbuf b) o) as [[e|got] o1] eqn:Hs; cbn [fst] in Harr.
  { injection Hr as <- <- <-. apply Hsame. congruence. }
  apply sys_read_bound in Hs. cbv zeta in Hr.
  assert (got = bs) as -> by congruence. clear Harr Hbs.
  set (b1 := mkBuf (store_bytes (buf b) (inbuf b) bs) (inbuf b + Z.of_nat (length bs))) in *.
  assert (Hb1 : valid b1 = valid b ++ bs
                ∧ inbuf b1 = inbuf b + Z.of_nat (length bs)
                ∧ drop (Z.to_nat (inbuf b1)) (buf b1) = drop (Z.to_nat (inbuf b1)) (buf b)
                ∧ length (buf b1) = length (buf b)
                ∧ inbuf b1 <= BUF_SIZE).
  { unfold b1, valid. cbn [buf inbuf].
    rewrite store_bytes_spec by lia. split; [|split; [done|split; [|split]]].
    - rewrite app_assoc. rewrite take_app_length'; [done|].
      rewrite length_app, length_take. lia.
    - rewrite app_assoc. rewrite drop_app_length'.
      + f_equal. lia.
      + rewrite length_app, length_take. lia.
    - rewrite !length_app, length_take, length_drop. lia.
    - lia. }
  repeat case_decide; injection Hr as <- <- <-; exact Hb1.
Qed.

Lemma read_from_socket_keeps_witness :
  buf_ok two_frames_buf
  ∧ valid (read_from_socket 4 two_frames_buf os126).1.2
    = valid two_frames_buf ++ replicate 100 "A"%char
  ∧ inbuf (read_from_socket 4 two_frames_buf os126).1.2 = 6 + 100.
Proof.
  assert (Hok : buf_ok two_frames_buf) by (split; [vm_compute; split; discriminate|reflexivity]).
  split; [exact Hok|].
  destruct (read_from_socket 4 two_frames_buf os126) as [[r b'] o'] eqn:E.
  destruct (read_from_socket_keeps_received_bytes _ _ _ _ _ _ E Hok) as (H1 & H2 & _).
  split; [exact H1|exact H2].
Defined.

(** X3: what each return value of [read_from_socket] says.  0: bytes came
    and the buffer begins with a frame whose terminator ends within its first
    130 bytes.  2: bytes came, the buffer holds no terminator and is not full.
    1: the read returned no byte and the buffer is as before.  -1: nothing
    was stored, or the buffer is now full and does not begin with such a
    frame.  There is no other value. *)
Theorem read_from_socket_codes fd b o r b' o' :
  read_from_socket fd b o = (r, b', o') ->
  buf_ok b ->
  (r = 0 ∧ inbuf b < inbuf b' ∧ frame_ready (valid b'))
  ∨ (r = 2 ∧ inbuf b < inbuf b' < BUF_SIZE ∧ ¬ has_crlf (valid b'))
  ∨ (r = 1 ∧ buf b' = buf b ∧ inbuf b' = inbuf b ∧ inbuf b < BUF_SIZE)
  ∨ (r = -1 ∧ (b' = b ∨ (inbuf b' = BUF_SIZE ∧ ¬ frame_ready (valid b')))).
Proof.
  intros Hr [Hin Hlen]. unfold read_from_socket in Hr.
  case_decide; [simplify_eq; right; right; right; by eauto|].
  destruct (sys_read fd (BUF_SIZE - inbuf b) o) as [[e|bs] o1] eqn:Hs;
    [simplify_eq; right; right; right; by eauto|].
  apply sys_read_bound in Hs. cbv zeta in Hr.
  set (b1 := mkBuf (store_bytes (buf b) (inbuf b) bs) (inbuf b + Z.of_nat (length bs))) in *.
  case_decide as Hz.
  { injection Hr as <- <- <-. right; right; left. unfold b1. cbn [buf inbuf].
    destruct bs; [|simpl in Hz; lia]. unfold store_bytes. simpl. repeat split; lia. }
  rewrite find_network_newline_spec in Hr. fold (valid b1) in Hr.
  assert (Hi1 : inbuf b1 = inbuf b + Z.of_nat (length bs)) by reflexivity.
  case_decide as Hc.
  { injection Hr as <- <- <-. left. split; [done|]. split; [lia|].
    by apply crlf_pos_frame_ready. }
  case_decide as Hfull; injection Hr as <- <- <-.
  - right; right; right. split; [done|]. right. split; [lia|].
    intros Hf. by apply crlf_pos_frame_ready in Hf.
  - right; left. split; [done|]. split; [lia|].
    intros Hh. apply Hc.
    destruct (decide (crlf_pos (valid b1) = -1)) as [Hn|Hn].
    { by destruct (crlf_pos_none _ Hn). }
    split; [done|]. pose proof (crlf_pos_range (valid b1)) as [?|Hrg]; [done|].
    assert (Z.of_nat (length (valid b1)) <= inbuf b1) by (unfold valid; rewrite length_take; lia).
    lia.
Qed.

Lemma read_from_socket_codes_witness :
  buf_ok almost_full_buf
  ∧ ∃ r b' o', read_from_socket 4 almost_full_buf os_one_more = (r, b', o')
     ∧ ((r = 0 ∧ inbuf almost_full_buf < inbuf b' ∧ frame_ready (valid b'))
        ∨ (r = 2 ∧ inbuf almost_full_buf < inbuf b' < BUF_SIZE ∧ ¬ has_crlf (valid b'))
        ∨ (r = 1 ∧ buf b' = buf almost_full_buf ∧ inbuf b' = inbuf almost_full_buf
           ∧ inbuf almost_full_buf < BUF_SIZE)
        ∨ (r = -1 ∧ (b' = almost_full_buf ∨ (inbuf b' = BUF_SIZE ∧ ¬ frame_ready (valid b'))))).
Proof.
  assert (Hok : buf_ok almost_full_buf) by (split; [vm_compute; split; discriminate|reflexivity]).
  split; [exact Hok|].
  destruct (read_from_socket 4 almost_full_buf os_one_more) as [[r b'] o'] eqn:E.
  exists r, b', o'. split; [reflexivity|].
  exact (read_from_socket_codes _ _ _ _ _ _ E Hok).
Defined.

(** X4: the longest frame that is accepted has 128 bytes before its
    terminator.  A frame that arrives whole in an empty buffer is reported
    ready (0) when its payload has at most 128 bytes, and as an error (-1)
    when it has more. *)
Theorem frames_longer_than_128_are_refused fd b o (m : list ascii) q :
  inbuf b = 0 ->
  length (buf b) = Z.to_nat BUF_SIZE ->
  fd ∉ os_closed o ->
  os_in o !! fd = Some (InData (m ++ CRLF) :: q) ->
  ¬ has_crlf m ->
  (read_from_socket fd b o).1.1 = if decide (length m <= 128)%nat then 0 else -1.
Proof.
  intros Hin Hlen Hopen Hq Hno.
  destruct (read_from_socket_chunk fd b o (m ++ CRLF) q) as (b' & o' & Hr & _);
    try done.
  { by destruct m. }
  { split; [rewrite Hin; vm_compute; split; discriminate|done]. }
  { rewrite Hin. reflexivity. }
  rewrite Hr. cbn [fst]. rewrite Hin.
  assert (Hv : valid b = []) by (unfold valid; by rewrite Hin).
  rewrite Hv. cbn [app].
  change (Z.to_nat (BUF_SIZE - 0)) with 131%nat.
  unfold classify. cbv zeta.
  destruct (decide (length m <= 128)%nat) as [Hm|Hm].
  - rewrite take_ge by (rewrite length_app; simpl; lia).
    rewrite crlf_pos_frame by done. rewrite decide_True; [done|].
    unfold BUF_SIZE, MAX_PROTO_MSG, MAX_USER_MSG. lia.
  - destruct (decide (length m = 129%nat)) as [H129|Hlong].
    + rewrite take_ge by (rewrite length_app; simpl; lia).
      rewrite crlf_pos_frame by done.
      rewrite decide_False by (unfold BUF_SIZE, MAX_PROTO_MSG, MAX_USER_MSG; lia).
      rewrite decide_True; [done|]. rewrite length_app. simpl.
      unfold BUF_SIZE, MAX_PROTO_MSG, MAX_USER_MSG. lia.
    + assert (Hnone : crlf_pos (take 131 (m ++ CRLF)) = -1).
      { destruct (decide (crlf_pos (take 131 (m ++ CRLF)) = -1)) as [|Hx]; [done|].
        apply crlf_pos_has_crlf in Hx. destruct Hno. apply has_crlf_snoc_CR.
        apply (has_crlf_take 131).
        replace (take 131 (m ++ [CR])) with (take 131 (m ++ CRLF)); [done|].
        change CRLF with ([CR] ++ [LF]). rewrite app_assoc.
        rewrite (take_app_le (m ++ [CR])); [done|]. rewrite length_app.
        change (length [CR]) with 1%nat. lia. }
      rewrite Hnone. rewrite decide_False by (intros [? _]; done).
      rewrite decide_True; [done|]. rewrite length_take, length_app.
      change (length CRLF) with 2%nat.
      unfold BUF_SIZE, MAX_PROTO_MSG, MAX_USER_MSG. lia.
Qed.

Lemma frames_longer_than_128_witness :
  (read_from_socket 4 empty_buf (os_start {[ 4 := [InData (replicate 129 "B"%char ++ CRLF)] ]} ∅ [] [])).1.1
  = -1.
Proof.
  apply (frames_longer_than_128_are_refused 4 empty_buf _ (replicate 129 "B"%char) []).
  - reflexivity.
  - reflexivity.
  - vm_compute. inversion 1.
  - reflexivity.
  - apply no_crlf_in_B.
Defined.

(** ** Frames come out as they went in *)

Lemma get_message_none b :
  ¬ has_crlf (valid b) -> get_message b = Ret (1, None, b).
Proof.
  intros Hno. unfold get_message. rewrite find_network_newline_spec. fold (valid b).
  rewrite decide_True; [done|].
  destruct (decide (crlf_pos (valid b) = -1)) as [|Hx]; [done|].
  destruct Hno. by apply crlf_pos_has_crlf.
Qed.

Lemma c_str_padded s n : text s -> (0 < n)%nat -> c_str (s ++ replicate n NUL) = s.
Proof. intros Hs Hn. destruct n; [lia|]. by apply c_str_text. Qed.

(** The first frame of the valid bytes, when they begin with [m] and its
    terminator. *)
Lemma get_message_first b m tl :
  buf_ok b ->
  valid b = m ++ CRLF ++ tl ->
  ¬ has_crlf m ->
  (length m <= 128)%nat ->
  ∃ dst b', get_message b = Ret (0, Some dst, b')
            ∧ dst = (m ++ CRLF) ++ replicate (129 - length m) NUL
            ∧ valid b' = tl ∧ buf_ok b'
            ∧ inbuf b' = inbuf b - Z.of_nat (length m) - 2.
Proof.
  intros [Hin Hlen] Hv Hno Hm.
  assert (Hvl : Z.of_nat (length (valid b)) = inbuf b) by (apply valid_length; lia).
  assert (Hc : crlf_pos (valid b) = Z.of_nat (length m) + 2).
  { rewrite Hv. by apply crlf_pos_app_first. }
  pose proof (get_message_frame b) as Hg. cbv zeta in Hg. rewrite Hc in Hg.
  assert (Htot : inbuf b = Z.of_nat (length m) + 2 + Z.of_nat (length tl)).
  { rewrite <- Hvl, Hv, !length_app. simpl. lia. }
  eexists _, _. split; [apply Hg; unfold BUF_SIZE, MAX_PROTO_MSG, MAX_USER_MSG in *; lia|].
  replace (Z.to_nat (Z.of_nat (length m) + 2)) with (length (m ++ CRLF))
    by (rewrite length_app; simpl; lia).
  rewrite Hv. rewrite app_assoc. rewrite take_app_length, drop_app_length.
  split; [|split; [|split]].
  - f_equal. f_equal. unfold BUF_SIZE, MAX_PROTO_MSG, MAX_USER_MSG. lia.
  - unfold valid. cbn [buf inbuf].
    rewrite take_app_length'; [done|]. lia.
  - split; cbn [buf inbuf]; [unfold BUF_SIZE, MAX_PROTO_MSG, MAX_USER_MSG in *; lia|].
    rewrite length_app, length_drop. unfold BUF_SIZE, MAX_PROTO_MSG, MAX_USER_MSG in *. lia.
  - cbn [inbuf]. lia.
Qed.

(** X5: decoding inverts encoding.  When the valid bytes are the frames of
    the messages [ms] (each without NUL and without CRLF inside, at most 128
    bytes) followed by bytes without a terminator, calling [get_message] until
    it fails hands over exactly those frames, in order, each as a C string
    with its CRLF, and leaves the trailing bytes as the valid bytes. *)
Theorem frames_come_out_in_order (ms : list (list ascii)) : ∀ (rest : list ascii) (b : sockbuf) (fuel : nat),
  buf_ok b ->
  valid b = frames ms ++ rest ->
  Forall (λ m, ¬ has_crlf m ∧ text m ∧ (length m <= 128)%nat) ms ->
  ¬ has_crlf rest ->
  (length ms <= fuel)%nat ->
  ∃ b', get_messages fuel b = Ret ((λ m, m ++ CRLF) <$> ms, b')
        ∧ valid b' = rest ∧ buf_ok b'.
Proof.
  induction ms as [|m ms IH]; intros rest b fuel Hok Hv Hms Hrest Hfuel.
  - exists b. unfold frames in Hv. simpl in Hv.
    destruct fuel; cbn [get_messages]; rewrite get_message_none by (by rewrite Hv); done.
  - inversion Hms as [|?? (Hno & Htext & Hlen) Hms']; subst.
    unfold frames in Hv. cbn [fmap list_fmap concat] in Hv.
    rewrite <- !app_assoc in Hv. fold (frames ms) in Hv.
    destruct (get_message_first b m (frames ms ++ rest) Hok Hv Hno Hlen)
      as (dst & b1 & Hg & Hdst & Hv1 & Hok1 & _).
    destruct fuel as [|fuel]; [simpl in Hfuel; lia|].
    destruct (IH rest b1 fuel Hok1 Hv1 Hms' Hrest) as (b2 & Hgs & Hv2 & Hok2);
      [simpl in Hfuel; lia|].
    exists b2. cbn [get_messages]. rewrite Hg. cbn [mbind run_bind].
    rewrite Hgs. cbn [mbind run_bind fmap list_fmap]. split; [|done].
    f_equal. f_equal. f_equal. rewrite Hdst. apply c_str_padded; [|lia].
    apply Forall_app. split; [done|]. by repeat constructor.
Qed.

Lemma frames_come_out_witness :
  ∃ b', get_messages 1 two_frames_buf = Ret ([str "hi" ++ CRLF], b')
        ∧ valid b' = str "yo" ∧ buf_ok b'.
Proof.
  apply (frames_come_out_in_order [str "hi"] (str "yo") two_frames_buf 1).
  - split; [vm_compute; split; discriminate|reflexivity].
  - reflexivity.
  - constructor; [|constructor]. split; [|split].
    + apply no_CR_no_crlf. apply (bool_decide_unpack _). by vm_compute.
    + by repeat constructor.
    + simpl. lia.
  - apply no_CR_no_crlf. apply (bool_decide_unpack _). by vm_compute.
  - simpl. lia.
Defined.

(** ** Writing *)

Lemma chunk_of_frame (data : list ascii) total len :
  0 <= total <= len ->
  take (Z.to_nat (len - total)) (drop (Z.to_nat total) data)
  = drop (Z.to_nat total) (take (Z.to_nat len) data).
Proof.
  intros H. rewrite take_drop_commute. do 2 f_equal. lia.
Qed.

Lemma total_of_nonneg ks : Forall (λ k, 0 < k) ks -> 0 <= total_of ks.
Proof.
  induction 1 as [|x l Hx _ IHl]; cbn [total_of foldr]; [lia|]. unfold total_of in IHl. lia.
Qed.

(** The loop of [write_to_socket] on a script of short writes. *)
Lemma write_loop_script ks : ∀ fuel fd (data : list ascii) total len o w,
  fd ∉ os_closed o ->
  default [] (os_wr o !! fd) = (WCount <$> ks) ++ w ->
  Forall (λ k, 0 < k) ks ->
  0 <= total ->
  total + total_of ks < len <= Z.of_nat (length data) ->
  not_short (len - (total + total_of ks)) w ->
  (Z.to_nat (len - total) <= fuel)%nat ->
  let frame := take (Z.to_nat len) data in
  let rest := drop (Z.to_nat (total + total_of ks)) frame in
  ∃ o', write_loop fuel fd data total len o = Ret ((last_write fd rest w).1, o')
        ∧ os_log o' = os_log o ++ short_writes fd frame total ks ++ (last_write fd rest w).2.
Proof.
  induction ks as [|k ks IH]; intros fuel fd data total len o w Hopen Hwr Hks Ht Hlen Hns Hfuel
    frame rest; subst rest; pose proof (total_of_nonneg _ Hks) as Hsum;
    cbn [total_of foldr] in *;
    (destruct fuel as [|fuel]; [lia|]); cbn [write_loop];
    rewrite decide_True by lia; rewrite chunk_of_frame by lia; fold frame;
    unfold sys_write; rewrite decide_False by done; rewrite Hwr.
  - rewrite Z.add_0_r in *. cbn [fmap list_fmap app short_writes].
    set (rest := drop (Z.to_nat total) frame).
    assert (Hrl : Z.of_nat (length rest) = len - total).
    { unfold rest, frame. rewrite length_drop, length_take. lia. }
    assert (Hdone : ∀ o1, write_loop fuel fd data (total + Z.of_nat (length rest)) len o1
                          = Ret (0, o1)).
    { intros o1. destruct fuel; cbn [write_loop]; by rewrite decide_False by lia. }
    destruct w as [|[|k] w]; cbn [last_write fst snd].
    + rewrite decide_False by lia. rewrite decide_False by lia. rewrite Hdone.
      eexists. split; [reflexivity|done].
    + rewrite decide_True by done. eexists. split; [reflexivity|].
      cbn [log_call os_log set_wr]. by rewrite <- app_assoc.
    + cbn [not_short] in Hns. destruct (decide (k <= 0)) as [Hk|Hk]; cbn [fst snd].
      * replace (0 `max` (k `min` Z.of_nat (length rest))) with 0 by lia.
        rewrite decide_False by lia. rewrite decide_True by done.
        eexists. split; [reflexivity|done].
      * replace (0 `max` (k `min` Z.of_nat (length rest))) with (Z.of_nat (length rest)) by lia.
        rewrite decide_False by lia. rewrite decide_False by lia. rewrite Hdone.
        eexists. split; [reflexivity|done].
  - inversion Hks as [|?? Hk Hks']; subst. cbn [fmap list_fmap app short_writes].
    set (chunk := drop (Z.to_nat total) frame).
    assert (Hcl : Z.of_nat (length chunk) = len - total).
    { unfold chunk, frame. rewrite length_drop, length_take. lia. }
    pose proof (total_of_nonneg _ Hks') as Hpos. unfold total_of in Hpos.
    replace (0 `max` (k `min` Z.of_nat (length chunk))) with k by lia.
    rewrite decide_False by lia. rewrite decide_False by lia.
    destruct (IH fuel fd data (total + k) len
                (log_call (SysWrite fd chunk k) (set_wr fd ((WCount <$> ks) ++ w) o)) w)
      as (o' & Hr & Hlog); try done; try lia.
    + cbn [log_call set_wr os_wr]. by rewrite lookup_insert_eq.
    + unfold total_of. lia.
    + unfold total_of. by rewrite <- Z.add_assoc.
    + unfold total_of in Hr, Hlog. rewrite <- Z.add_assoc in Hr, Hlog. fold frame in Hr, Hlog.
      exists o'. split; [exact Hr|]. rewrite Hlog. cbn [log_call set_wr os_log].
      by rewrite <- app_assoc.
Qed.

(** X6: [write_to_socket] goes on behind each short [write] until the
    bytes are out or a [write] fails.  When the next writes on the descriptor
    take [ks] bytes, fewer than asked each time, every call is given exactly
    the bytes that are left of the first [len], and the call that ends the
    loop decides: when it takes all that is left the result is 0, when it
    fails the result is 1 after a diagnostic, and when it returns 0 the
    result is 2.  These are all the calls that the function makes. *)
Theorem write_to_socket_resumes_short_writes fd (data : list ascii) len o ks w :
  fd ∉ os_closed o ->
  default [] (os_wr o !! fd) = (WCount <$> ks) ++ w ->
  Forall (λ k, 0 < k) ks ->
  total_of ks < len <= Z.of_nat (length data) ->
  not_short (len - total_of ks) w ->
  let frame := take (Z.to_nat len) data in
  let rest := drop (Z.to_nat (total_of ks)) frame in
  ∃ o', write_to_socket fd data len o = Ret ((last_write fd rest w).1, o')
        ∧ os_log o' = os_log o ++ short_writes fd frame 0 ks ++ (last_write fd rest w).2.
Proof.
  intros Hopen Hwr Hks Hlen Hns. unfold write_to_socket.
  apply (write_loop_script ks (Z.to_nat len) fd data 0 len o w); try done; lia.
Qed.

Lemma write_to_socket_witness :
  ∃ o',
    write_to_socket 5 (str "hello") 5 (os_start ∅ {[ 5 := [WCount 2; WCount 1] ]} [] [])
    = Ret (0, o')
    ∧ os_log o' = [] ++ [SysWrite 5 (str "hello") 2; SysWrite 5 (str "llo") 1]
                     ++ [SysWrite 5 (str "lo") 2].
Proof.
  apply (write_to_socket_resumes_short_writes 5 (str "hello") 5
           (os_start ∅ {[ 5 := [WCount 2; WCount 1] ]} [] []) [2; 1] []).
  - apply not_elem_of_empty.
  - reflexivity.
  - repeat constructor.
  - vm_compute. split; [reflexivity|discriminate].
  - exact I.
Defined.

Lemma take_stored_frame (a : list ascii) len :
  0 <= len -> (Z.to_nat len + 2 <= length a)%nat ->
  take (Z.to_nat (len + 2)) (<[Z.to_nat (len + 1) := LF]> (<[Z.to_nat len := CR]> a))
  = take (Z.to_nat len) a ++ CRLF.
Proof.
  intros Hpos Hl. remember (take (Z.to_nat len) a) as t eqn:Ht.
  assert (Htl : length t = Z.to_nat len) by (subst t; rewrite length_take; lia).
  assert (Hsplit : a = t ++ drop (Z.to_nat len) a) by (subst t; by rewrite take_drop).
  assert (Hdl : length (drop (Z.to_nat len) a) = (length a - Z.to_nat len)%nat)
    by apply length_drop.
  destruct (drop (Z.to_nat len) a) as [|x [|y tl]]; [simpl in Hdl; lia..|].
  rewrite Hsplit.
  replace (Z.to_nat len) with (length t + 0)%nat by lia.
  rewrite insert_app_r. cbn [insert list_insert].
  replace (Z.to_nat (len + 1)) with (length t + 1)%nat by lia.
  rewrite insert_app_r. cbn [insert list_insert].
  replace (Z.to_nat (len + 2)) with (length t + 2)%nat by lia.
  by rewrite take_app_add.
Qed.

(** X7: [write_buf_to_client] refuses a length above [BUF_SIZE - 2] with 1,
    sending nothing and leaving the array alone.  Otherwise it puts CR and
    LF behind the first [len] bytes of the array and sends these [len + 2]
    bytes with [write_to_socket]: behind short writes [ks] every call is given
    what is left of the bytes and their CRLF, and the call that ends the loop
    decides the result as there. *)
Theorem write_buf_to_client_sends_frame c (a : list ascii) len o ks w :
  length a = Z.to_nat BUF_SIZE ->
  0 <= len ->
  if decide (len > BUF_SIZE - 2) then write_buf_to_client c a len o = Ret (1, a, o)
  else
    sock_fd c ∉ os_closed o ->
    default [] (os_wr o !! sock_fd c) = (WCount <$> ks) ++ w ->
    Forall (λ k, 0 < k) ks ->
    total_of ks < len + 2 ->
    not_short (len + 2 - total_of ks) w ->
    let frame := take (Z.to_nat len) a ++ CRLF in
    let rest := drop (Z.to_nat (total_of ks)) frame in
    ∃ o',
      write_buf_to_client c a len o =
      Ret ((last_write (sock_fd c) rest w).1,
           <[Z.to_nat (len + 1) := LF]> (<[Z.to_nat len := CR]> a), o')
      ∧ os_log o' = os_log o ++ short_writes (sock_fd c) frame 0 ks
                      ++ (last_write (sock_fd c) rest w).2.
Proof.
  intros Hlen Hpos. unfold write_buf_to_client. case_decide as Hbig; [done|].
  intros Hopen Hwr Hks Htot Hns. set (frame := take (Z.to_nat len) a ++ CRLF).
  rewrite decide_False by lia.
  set (a' := <[Z.to_nat (len + 1) := LF]> (<[Z.to_nat len := CR]> a)).
  assert (Hl' : length a' = length a) by (unfold a'; by rewrite !length_insert).
  assert (Hfr : take (Z.to_nat (len + 2)) a' = frame).
  { apply take_stored_frame; [done|]. rewrite Hlen.
    unfold BUF_SIZE, MAX_PROTO_MSG, MAX_USER_MSG in *. lia. }
  destruct (write_loop_script ks (Z.to_nat (len + 2)) (sock_fd c) a' 0 (len + 2) o w)
    as (o' & Hr & Hlog); try done; try lia.
  rewrite Z.add_0_l in Hr, Hlog. rewrite Hfr in Hr, Hlog.
  exists o'. unfold write_to_socket. rewrite Hr. by cbn [mbind run_bind].
Qed.

Lemma write_buf_to_client_witness :
  ∃ o',
    write_buf_to_client leaving_client (local_array (str "hi")) 2
      (os_start ∅ {[ 5 := [WCount 3; WErr] ]} [] [])
    = Ret (1, <[3%nat := LF]> (<[2%nat := CR]> (local_array (str "hi"))), o')
    ∧ os_log o' = [] ++ [SysWrite 5 (str "hi" ++ CRLF) 3]
                     ++ [SysWrite 5 [LF] (-1); SysError (str "ERROR: write")].
Proof.
  apply (write_buf_to_client_sends_frame leaving_client (local_array (str "hi")) 2
           (os_start ∅ {[ 5 := [WCount 3; WErr] ]} [] []) [3] [WErr]).
  - reflexivity.
  - lia.
  - apply not_elem_of_empty.
  - reflexivity.
  - repeat constructor.
  - reflexivity.
  - exact I.
Defined.

(** * More on the server *)

(** ** What a message becomes on its way through the server *)

Lemma write_to_socket_writable fd (data : list ascii) len o :
  writable fd o -> 0 < len -> len <= Z.of_nat (length data) ->
  write_to_socket fd data len o =
  Ret (0, log_call (SysWrite fd (take (Z.to_nat len) data) len) o).
Proof.
  intros [Hopen Hwr] Hpos Hlen. unfold write_to_socket.
  destruct (Z.to_nat len) as [|k] eqn:Hk; [lia|].
  cbn [write_loop]. rewrite decide_True by lia.
  rewrite Z.sub_0_r. change (Z.to_nat 0) with O. rewrite drop_0. rewrite Hk.
  unfold sys_write. rewrite decide_False by done. rewrite Hwr.
  rewrite length_take.
  replace (Z.of_nat (S k `min` length data)) with len by lia.
  rewrite decide_False by lia. rewrite decide_False by lia.
  destruct k; cbn [write_loop]; by rewrite decide_False by lia.
Qed.

Lemma take_framed (a : list ascii) len :
  length a = Z.to_nat BUF_SIZE -> 0 <= len <= BUF_SIZE - 2 ->
  take (Z.to_nat (len + 2)) (<[Z.to_nat (len + 1) := LF]> (<[Z.to_nat len := CR]> a))
  = take (Z.to_nat len) a ++ CRLF.
Proof.
  intros Hlen Hl. remember (take (Z.to_nat len) a) as t eqn:Ht.
  assert (Htl : length t = Z.to_nat len).
  { subst t. rewrite length_take. unfold BUF_SIZE, MAX_PROTO_MSG, MAX_USER_MSG in *. lia. }
  assert (Hsplit : a = t ++ drop (Z.to_nat len) a) by (subst t; by rewrite take_drop).
  assert (Hdl : length (drop (Z.to_nat len) a) = (length a - Z.to_nat len)%nat)
    by apply length_drop.
  destruct (drop (Z.to_nat len) a) as [|x [|y tl]];
    [simpl in Hdl; unfold BUF_SIZE, MAX_PROTO_MSG, MAX_USER_MSG in *; lia..|].
  rewrite Hsplit.
  replace (Z.to_nat len) with (length t + 0)%nat by lia.
  rewrite insert_app_r. cbn [insert list_insert].
  replace (Z.to_nat (len + 1)) with (length t + 1)%nat by lia.
  rewrite insert_app_r. cbn [insert list_insert].
  replace (Z.to_nat (len + 2)) with (length t + 2)%nat by lia.
  by rewrite take_app_add.
Qed.

Lemma write_buf_to_client_writable c (a : list ascii) len o :
  writable (sock_fd c) o ->
  length a = Z.to_nat BUF_SIZE -> 0 <= len <= BUF_SIZE - 2 ->
  write_buf_to_client c a len o =
  Ret (0, <[Z.to_nat (len + 1) := LF]> (<[Z.to_nat len := CR]> a),
       log_call (SysWrite (sock_fd c) (take (Z.to_nat len) a ++ CRLF) (len + 2)) o).
Proof.
  intros Hw Hlen Hl. unfold write_buf_to_client.
  rewrite decide_False by lia. rewrite decide_False by lia.
  rewrite write_to_socket_writable; [|done|lia|].
  - cbn [mbind run_bind]. by rewrite take_framed.
  - rewrite !length_insert, Hlen. unfold BUF_SIZE, MAX_PROTO_MSG, MAX_USER_MSG in *. lia.
Qed.

Lemma take_insert_ge {A} (l : list A) n i x : (n <= i)%nat -> take n (<[i := x]> l) = take n l.
Proof. intros H. by rewrite take_insert_ge. Qed.

(** The loop of the broadcast when every write goes through: one [write]
    of the bytes and their CRLF for each node from [dest_c] on, in order. *)
Lemma broadcast_writable fuel : ∀ dest_c (a : list ascii) len st o,
  length a = Z.to_nat BUF_SIZE -> 0 <= len <= BUF_SIZE - 2 ->
  Forall (λ fd, writable fd o) (drop dest_c (sock_fd <$> clients st)) ->
  (length (clients st) - dest_c <= fuel)%nat ->
  ∃ a' o', broadcast fuel dest_c a len st o = Ret (a', st, o')
    ∧ os_log o' = os_log o ++
        ((λ fd, SysWrite fd (take (Z.to_nat len) a ++ CRLF) (len + 2))
           <$> drop dest_c (sock_fd <$> clients st))
    ∧ os_closed o' = os_closed o ∧ os_wr o' = os_wr o ∧ os_in o' = os_in o
    ∧ os_select o' = os_select o ∧ os_accept o' = os_accept o.
Proof.
  induction fuel as [|fuel IH]; intros dest_c a len st o Hlen Hl Hw Hfuel.
  - assert (Hnone : clients st !! dest_c = None) by (apply lookup_ge_None; lia).
    cbn [broadcast]. rewrite Hnone. exists a, o.
    rewrite drop_ge by (rewrite length_fmap; lia). simpl. by rewrite app_nil_r.
  - cbn [broadcast]. destruct (clients st !! dest_c) as [d|] eqn:Hd.
    2:{ exists a, o. apply lookup_ge_None in Hd.
        rewrite drop_ge by (rewrite length_fmap; lia). simpl. by rewrite app_nil_r. }
    assert (Hdrop : drop dest_c (sock_fd <$> clients st)
                    = sock_fd d :: drop (S dest_c) (sock_fd <$> clients st)).
    { apply drop_S. by rewrite list_lookup_fmap, Hd. }
    rewrite Hdrop in Hw |- *. inversion Hw as [|?? Hwd Hw']; subst.
    rewrite write_buf_to_client_writable by done. cbn [mbind run_bind].
    rewrite decide_False by lia.
    set (a' := <[Z.to_nat (len + 1) := LF]> (<[Z.to_nat len := CR]> a)).
    set (o1 := log_call _ o).
    destruct (IH (S dest_c) a' len st o1) as (a2 & o2 & Hb & Hlog & Hc & Hwr & Hi & Hs & Hacc).
    + unfold a'. by rewrite !length_insert.
    + done.
    + eapply Forall_impl; [exact Hw'|]. intros fd [? ?]. by split.
    + apply lookup_lt_Some in Hd. lia.
    + exists a2, o2. split; [done|]. split; [|done].
      rewrite Hlog. unfold o1. cbn [log_call os_log]. rewrite <- app_assoc.
      cbn [fmap list_fmap app]. do 4 f_equal.
      unfold a'. rewrite !take_insert_ge by lia. done.
Qed.

Lemma c_str_insert_NUL (s rest : list ascii) i :
  text s -> (i < length s)%nat -> c_str (<[i := NUL]> (s ++ rest)) = take i s.
Proof.
  intros Hs. revert i. induction Hs as [|x s Hx Hs IH]; intros i Hi; [simpl in Hi; lia|].
  destruct i as [|i]; cbn [app insert list_insert c_str take].
  - by rewrite decide_True.
  - rewrite decide_False by done. f_equal. apply IH. simpl in Hi. lia.
Qed.

Lemma strchr_Some_inv (a : list ascii) c i :
  strchr a c = Some i -> c ≠ NUL ->
  ∃ pre rest, a = pre ++ c :: rest ∧ i = Z.of_nat (length pre) ∧ (c ∉ pre) ∧ text pre.
Proof.
  intros H Hc. revert i H. induction a as [|x a IH]; intros i H; [done|].
  cbn [strchr] in H. case_decide as Hx; [done|]. case_decide as Hxc.
  - injection H as <-. subst x. exists [], a.
    split; [done|]. split; [done|]. split; [apply not_elem_of_nil|constructor].
  - destruct (strchr a c) as [j|] eqn:Hj; [|done]. injection H as <-.
    destruct (IH j eq_refl) as (pre & rest & -> & -> & Hni & Ht).
    exists (x :: pre), rest. split; [done|]. split; [rewrite length_cons; lia|].
    split; [|by constructor]. apply not_elem_of_cons. split; [congruence|done].
Qed.

Lemma c_str_app_text (s rest : list ascii) : text s -> c_str (s ++ rest) = s ++ c_str rest.
Proof.
  intros Hs. induction Hs as [|x s Hx Hs IH]; [done|].
  cbn [app c_str]. rewrite decide_False by done. by rewrite IH.
Qed.

(** [_server_commands] on a frame that is no query returns 0 and does
    nothing. *)
Lemma _server_commands_other c (msg : list ascii) data_len count o :
  2 <= data_len <= Z.of_nat (length (c_str msg)) ->
  ¬ is_query (take (Z.to_nat (data_len - 2)) (c_str msg)) ->
  _server_commands c msg data_len count o = Ret (0, o).
Proof.
  intros Hl Hq. destruct (c_str_split msg) as (rest & E & _).
  pose proof (c_str_is_text msg) as Ht.
  unfold _server_commands. rewrite decide_False by lia.
  set (msg' := <[Z.to_nat (data_len - 2) := NUL]> msg).
  assert (Hs : c_str msg' = take (Z.to_nat (data_len - 2)) (c_str msg)).
  { unfold msg'. rewrite E at 1. apply c_str_insert_NUL; [done|lia]. }
  destruct (strchr msg' ":") as [i|] eqn:Hi; [|done].
  apply strchr_Some_inv in Hi as (pre & tl & Hm & -> & Hni & Hpre); [|done].
  rewrite Nat2Z.id. rewrite Hm, drop_app_length.
  rewrite decide_False; [done|]. intros [_ Hcmd].
  change (drop 1 (":"%char :: tl)) with tl in Hcmd.
  apply Hq. exists pre. split; [|done].
  rewrite <- Hs, Hm. rewrite c_str_app_text by done.
  cbn [c_str]. rewrite decide_False by done. by rewrite Hcmd.
Qed.

Lemma text_take (s : list ascii) n : text s -> text (take n s).
Proof. apply Forall_take. Qed.

Lemma text_frame (f : list ascii) : text f -> text (f ++ CRLF).
Proof. intros H. apply Forall_app. split; [done|]. by repeat constructor. Qed.

Lemma fds_set_rbuf_drop cur b st n :
  drop n (sock_fd <$> clients (set_rbuf cur b st)) = drop n (sock_fd <$> clients st).
Proof. by rewrite set_rbuf_fds. Qed.

(** What [drain] does with a frame that is no query: [f] CRLF, alone or
    followed by the beginning of another frame, is in the buffer of the node
    at [cur], and writes go through. *)
Lemma drain_message fuel cur st o c (f tl : list ascii) :
  clients st !! cur = Some c ->
  buf_ok (rbuf c) ->
  valid (rbuf c) = f ++ CRLF ++ tl ->
  ¬ has_crlf f -> text f -> (length f <= 128)%nat ->
  ¬ has_crlf tl ->
  ¬ is_query (take 125 f) ->
  Forall (λ fd, writable fd o) (drop cur (sock_fd <$> clients st)) ->
  (length (clients st) - cur <= fuel)%nat ->
  let shown := take 127 (f ++ CRLF) in
  ∃ st' o',
    drain fuel cur st o = Ret (st', o')
    ∧ os_log o' = os_log o ++ SysDisplay shown ::
        ((λ fd, SysWrite fd (shown ++ CRLF) (Z.of_nat (length shown) + 2))
           <$> drop cur (sock_fd <$> clients st))
    ∧ sock_fd <$> clients st' = sock_fd <$> clients st
    ∧ all_fds st' = all_fds st ∧ client_count st' = client_count st
    ∧ ∃ c', clients st' !! cur = Some c' ∧ valid (rbuf c') = tl.
Proof.
  intros Hc Hok Hv Hno Htext Hlen Htl Hq Hw Hfuel shown.
  destruct (get_message_first (rbuf c) f tl Hok Hv Hno Hlen)
    as (dst & b1 & Hg & Hdst & Hv1 & Hok1 & _).
  assert (Hcs : c_str dst = f ++ CRLF).
  { rewrite Hdst. apply c_str_padded; [by apply text_frame|lia]. }
  assert (Hshown : text shown ∧ (2 <= length shown <= 127)%nat).
  { split; [by apply text_take, text_frame|].
    unfold shown. rewrite length_take, length_app. change (length CRLF) with 2%nat. lia. }
  destruct Hshown as [Hst Hsl].
  assert (Hwb : c_str (snprintf_s MAX_USER_MSG dst) = shown).
  { unfold snprintf_s. change (Z.to_nat (MAX_USER_MSG - 1)) with 127%nat. rewrite Hcs.
    apply c_str_local_array; [done|]. change (Z.to_nat BUF_SIZE) with 131%nat. lia. }
  assert (Hdl : strlen (snprintf_s MAX_USER_MSG dst) = Z.of_nat (length shown)).
  { unfold strlen. by rewrite Hwb. }
  assert (Hcmd : _server_commands c dst (Z.of_nat (length shown)) (client_count st) o = Ret (0, o)).
  { apply _server_commands_other.
    - rewrite Hcs. unfold shown. rewrite length_take, !length_app.
      change (length CRLF) with 2%nat. lia.
    - rewrite Hcs.
      replace (take (Z.to_nat (Z.of_nat (length shown) - 2)) (f ++ CRLF)) with (take 125 f); [done|].
      unfold shown. rewrite length_take, length_app. change (length CRLF) with 2%nat.
      destruct (decide (length f <= 125)%nat).
      + replace (Z.to_nat (Z.of_nat (127 `min` (length f + 2)) - 2)) with (length f) by lia.
        rewrite take_app_length. by rewrite take_ge by lia.
      + replace (Z.to_nat (Z.of_nat (127 `min` (length f + 2)) - 2)) with 125%nat by lia.
        by rewrite take_app_le by lia. }
  assert (Hc1 : clients (set_rbuf cur b1 st) !! cur
                = Some (mkClient (sock_fd c) (state c) b1)) by (by apply set_rbuf_lookup).
  destruct fuel as [|fuel'].
  { apply lookup_lt_Some in Hc. lia. }
  destruct (broadcast_writable (S fuel') cur (snprintf_s MAX_USER_MSG dst)
              (Z.of_nat (length shown)) (set_rbuf cur b1 st)
              (display_message (snprintf_s MAX_USER_MSG dst) o))
    as (a2 & o3 & Hb & Hlog & Hclosed & Hwr & _).
  { unfold snprintf_s, local_array. by rewrite length_store_bytes. }
  { unfold BUF_SIZE, MAX_PROTO_MSG, MAX_USER_MSG. lia. }
  { rewrite fds_set_rbuf_drop. eapply Forall_impl; [exact Hw|]. intros fd [? ?]. by split. }
  { cbn [set_rbuf clients]. rewrite length_alter. lia. }
  assert (Hg1 : get_message b1 = Ret (1, None, b1)).
  { apply get_message_none. by rewrite Hv1. }
  eexists _, o3. split; [|split; [|split; [|split; [|split]]]].
  - cbn [drain]. rewrite Hc, Hg. cbn [mbind run_bind]. cbv zeta.
    rewrite Hdl. cbn [client_count set_rbuf]. rewrite Hcmd. cbn [mbind run_bind].
    rewrite decide_False by lia.
    change (mkState (alter (λ c0, mkClient (sock_fd c0) (state c0) b1) cur (clients st))
              (all_fds st) (client_id st) (client_count st) (max_fd st))
      with (set_rbuf cur b1 st).
    rewrite Hb. cbn [mbind run_bind].
    destruct fuel'; cbn [drain]; rewrite Hc1; cbn [rbuf]; rewrite Hg1; reflexivity.
  - rewrite Hlog. unfold display_message. cbn [log_call os_log]. rewrite Hwb.
    rewrite <- app_assoc. cbn [app]. rewrite fds_set_rbuf_drop.
    do 2 f_equal. apply list_fmap_ext. intros _ fd _. f_equal.
    f_equal. rewrite Nat2Z.id.
    unfold snprintf_s. change (Z.to_nat (MAX_USER_MSG - 1)) with 127%nat. rewrite Hcs.
    fold shown. rewrite local_array_spec by (change (Z.to_nat BUF_SIZE) with 131%nat; lia).
    by rewrite take_app_length.
  - by rewrite !set_rbuf_fds.
  - reflexivity.
  - reflexivity.
  - exists (mkClient (sock_fd c) (state c) b1). split; [|exact Hv1].
    by rewrite (set_rbuf_lookup _ _ _ _ Hc1).
Qed.

Lemma sys_read_keeps fd count o :
  os_log (sys_read fd count o).2 = os_log o
  ∧ os_closed (sys_read fd count o).2 = os_closed o
  ∧ os_wr (sys_read fd count o).2 = os_wr o.
Proof.
  unfold sys_read. case_decide; [done|].
  destruct (default [] (os_in o !! fd)) as [|[bs| |] q]; done.
Qed.

Lemma read_from_socket_keeps fd b o :
  os_log (read_from_socket fd b o).2 = os_log o
  ∧ os_closed (read_from_socket fd b o).2 = os_closed o
  ∧ os_wr (read_from_socket fd b o).2 = os_wr o.
Proof.
  unfold read_from_socket. case_decide; [done|].
  pose proof (sys_read_keeps fd (BUF_SIZE - inbuf b) o) as Hk.
  destruct (sys_read fd (BUF_SIZE - inbuf b) o) as [[?|bs] o']; [exact Hk|].
  cbv zeta. repeat case_decide; exact Hk.
Qed.

(** A read in [process_client] that finds the chunk [chunk], all of which
    fits into the buffer. *)
Lemma read_from_client_chunk c o chunk q :
  sock_fd c ∉ os_closed o ->
  os_in o !! sock_fd c = Some (InData chunk :: q) ->
  chunk ≠ [] ->
  buf_ok (rbuf c) ->
  inbuf (rbuf c) + Z.of_nat (length chunk) <= BUF_SIZE ->
  ∃ b' o', read_from_client c o
           = (classify (valid (rbuf c) ++ chunk), mkClient (sock_fd c) (state c) b', o')
    ∧ valid b' = valid (rbuf c) ++ chunk ∧ buf_ok b'
    ∧ os_log o' = os_log o ∧ os_closed o' = os_closed o ∧ os_wr o' = os_wr o.
Proof.
  intros Hopen Hin Hne Hok Hfit.
  assert (Hroom : inbuf (rbuf c) < BUF_SIZE) by (destruct chunk; [done|simpl in Hfit; lia]).
  destruct (read_from_socket_chunk (sock_fd c) (rbuf c) o chunk q Hopen Hin Hne Hok Hroom)
    as (b' & o' & Hr & Hv & _ & Hok').
  rewrite take_ge in Hr, Hv by lia.
  pose proof (read_from_socket_keeps (sock_fd c) (rbuf c) o) as Hk. rewrite Hr in Hk.
  cbn [snd] in Hk. destruct Hk as (Hk1 & Hk2 & Hk3).
  exists b', o'. unfold read_from_client. rewrite Hr. done.
Qed.

Lemma classify_frame (f tl : list ascii) :
  (length f <= 128)%nat -> classify (f ++ CRLF ++ tl) = 0.
Proof.
  intros Hlen. unfold classify. cbv zeta. rewrite decide_True; [done|].
  apply crlf_pos_frame_ready. by exists f, tl.
Qed.

Lemma classify_partial (v : list ascii) :
  ¬ has_crlf v -> Z.of_nat (length v) < BUF_SIZE -> classify v = 2.
Proof.
  intros Hno Hlen. unfold classify. cbv zeta. rewrite decide_False.
  - by rewrite decide_False by lia.
  - intros [Hne _]. apply Hno. by apply crlf_pos_has_crlf.
Qed.

(** X8: what the server does with a message that is no query.  The node at
    [cur] is reported ready and the bytes that arrive complete the frame
    [f] CRLF, alone or followed by the beginning of another frame, and
    writes go through.  Then the server shows the first 127 bytes of the
    frame, terminator included, to its operator and writes these bytes,
    followed by one more CRLF, once to the sender and once to every node
    behind the sender in the list, in list order, and to no node before it.
    The frame is gone from the buffer, the sender stays in the list, and the
    watched set and the count stay as they were. *)
Theorem message_goes_to_sender_and_later_nodes fuel cur st o c listen chunk q
    (f tl : list ascii) :
  clients st !! cur = Some c ->
  sock_fd c ∈ listen ->
  os_in o !! sock_fd c = Some (InData chunk :: q) ->
  chunk ≠ [] ->
  buf_ok (rbuf c) ->
  inbuf (rbuf c) + Z.of_nat (length chunk) <= BUF_SIZE ->
  valid (rbuf c) ++ chunk = f ++ CRLF ++ tl ->
  ¬ has_crlf f -> text f -> (length f <= 128)%nat ->
  ¬ has_crlf tl ->
  ¬ is_query (take 125 f) ->
  Forall (λ fd, writable fd o) (drop cur (sock_fd <$> clients st)) ->
  (length (clients st) - cur <= fuel)%nat ->
  let shown := take 127 (f ++ CRLF) in
  ∃ st' o',
    process_client fuel cur c listen st o = Ret (S cur, st', o')
    ∧ os_log o' = os_log o ++ SysDisplay shown ::
        ((λ fd, SysWrite fd (shown ++ CRLF) (Z.of_nat (length shown) + 2))
           <$> drop cur (sock_fd <$> clients st))
    ∧ sock_fd <$> clients st' = sock_fd <$> clients st
    ∧ all_fds st' = all_fds st ∧ client_count st' = client_count st
    ∧ ∃ c', clients st' !! cur = Some c' ∧ valid (rbuf c') = tl.
Proof.
  intros Hc Hl Hin Hne Hok Hfit Hv Hno Htext Hlen Htl Hq Hw Hfuel shown.
  assert (Hopen : sock_fd c ∉ os_closed o).
  { rewrite Forall_forall in Hw. apply Hw.
    apply (list_elem_of_lookup_2 _ 0%nat). rewrite lookup_drop, Nat.add_0_r.
    by rewrite list_lookup_fmap, Hc. }
  destruct (read_from_client_chunk c o chunk q Hopen Hin Hne Hok Hfit)
    as (b' & o1 & Hr & Hv' & Hok' & Hlog1 & Hcl1 & Hwr1).
  rewrite Hv, classify_frame in Hr by done.
  destruct (drain_message fuel cur (set_rbuf cur b' st) o1
              (mkClient (sock_fd c) (state c) b') f tl)
    as (st' & o' & Hd & Hlog & Hfds & Hall & Hcount & Hc');
    try done.
  { by apply set_rbuf_lookup. }
  { cbn [rbuf]. by rewrite Hv', Hv. }
  { rewrite fds_set_rbuf_drop. eapply Forall_impl; [exact Hw|].
    intros fd [? ?]. split; by rewrite ?Hcl1, ?Hwr1. }
  { cbn [set_rbuf clients]. rewrite length_alter. lia. }
  exists st', o'. split; [|split; [|split; [|split; [|split]]]].
  - unfold process_client. rewrite decide_False by (intros Hn; by apply Hn).
    rewrite Hr. cbv zeta. cbn [rbuf]. rewrite (decide_False (P := 0 = -1)) by lia.
    rewrite (decide_True (P := 0 = 0)) by done. rewrite Hd. cbn [mbind run_bind].
    by rewrite decide_False by lia.
  - rewrite Hlog, Hlog1. by rewrite fds_set_rbuf_drop.
  - by rewrite Hfds, set_rbuf_fds.
  - by rewrite Hall.
  - by rewrite Hcount.
  - exact Hc'.
Qed.

Lemma message_goes_witness :
  ∃ st' o',
    process_client 2 1 waiting_client {[6]} wait_state os_rest_arrives = Ret (2%nat, st', o')
    ∧ os_log o' = [] ++ SysDisplay (str "client2:hello" ++ CRLF) ::
        [SysWrite 6 (str "client2:hello" ++ CRLF ++ CRLF) 17;
         SysWrite 7 (str "client2:hello" ++ CRLF ++ CRLF) 17]
    ∧ sock_fd <$> clients st' = [5; 6; 7]
    ∧ all_fds st' = all_fds wait_state ∧ client_count st' = 3
    ∧ ∃ c', clients st' !! 1%nat = Some c' ∧ valid (rbuf c') = [].
Proof.
  apply (message_goes_to_sender_and_later_nodes 2 1 wait_state os_rest_arrives waiting_client
           {[6]} (str "llo" ++ CRLF) [] (str "client2:hello") []).
  - reflexivity.
  - by apply elem_of_singleton.
  - reflexivity.
  - discriminate.
  - split; [vm_compute; split; discriminate|reflexivity].
  - vm_compute. discriminate.
  - reflexivity.
  - apply no_CR_no_crlf. apply (bool_decide_unpack _). by vm_compute.
  - by repeat constructor.
  - simpl. lia.
  - apply no_CR_no_crlf. apply not_elem_of_nil.
  - intros (pre & E & Hpre).
    assert (Hlen : length (str "client2:hello") = length (pre ++ ":"%char :: connected_cmd))
      by (f_equal; exact E).
    rewrite length_app in Hlen. simpl in Hlen.
    destruct pre as [|p0 [|p1 [|p2 pre]]]; simpl in Hlen; try lia; discriminate E.
  - repeat constructor; apply (bool_decide_unpack _); by vm_compute.
  - simpl. lia.
Defined.

(** X9: a frame that is not complete yet waits.  When the bytes that
    arrive from a node leave its buffer without a terminator and below 131
    bytes, the server keeps them behind the bytes it holds, writes to nobody,
    shows nothing, keeps the node and goes on with the next one. *)
Theorem partial_frame_waits fuel cur st o c listen chunk q :
  clients st !! cur = Some c ->
  sock_fd c ∈ listen ->
  sock_fd c ∉ os_closed o ->
  os_in o !! sock_fd c = Some (InData chunk :: q) ->
  chunk ≠ [] ->
  buf_ok (rbuf c) ->
  inbuf (rbuf c) + Z.of_nat (length chunk) < BUF_SIZE ->
  ¬ has_crlf (valid (rbuf c) ++ chunk) ->
  ∃ st' o',
    process_client fuel cur c listen st o = Ret (S cur, st', o')
    ∧ os_log o' = os_log o
    ∧ sock_fd <$> clients st' = sock_fd <$> clients st
    ∧ all_fds st' = all_fds st ∧ client_count st' = client_count st
    ∧ ∃ c', clients st' !! cur = Some c' ∧ valid (rbuf c') = valid (rbuf c) ++ chunk.
Proof.
  intros Hc Hl Hopen Hin Hne Hok Hfit Hno.
  destruct (read_from_client_chunk c o chunk q Hopen Hin Hne Hok ltac:(lia))
    as (b' & o1 & Hr & Hv' & Hok' & Hlog1 & _).
  rewrite classify_partial in Hr.
  2: done.
  2:{ rewrite length_app. unfold valid. rewrite length_take. destruct Hok. lia. }
  exists (set_rbuf cur b' st), o1. split; [|split; [|split; [|split; [|split]]]]; try done.
  - unfold process_client. rewrite decide_False by (intros Hn; by apply Hn).
    rewrite Hr. cbv zeta. cbn [rbuf]. rewrite (decide_False (P := 2 = -1)) by lia.
    rewrite (decide_False (P := 2 = 0)) by lia. cbn [mbind run_bind].
    by rewrite decide_False by lia.
  - apply set_rbuf_fds.
  - exists (mkClient (sock_fd c) (state c) b'). split; [by apply set_rbuf_lookup|exact Hv'].
Qed.

Lemma partial_frame_witness :
  ∃ st' o',
    process_client 2 1 waiting_client {[6]} wait_state os_more_arrives = Ret (2%nat, st', o')
    ∧ os_log o' = []
    ∧ sock_fd <$> clients st' = [5; 6; 7]
    ∧ all_fds st' = all_fds wait_state ∧ client_count st' = 3
    ∧ ∃ c', clients st' !! 1%nat = Some c' ∧ valid (rbuf c') = str "client2:he" ++ str "llo".
Proof.
  apply (partial_frame_waits 2 1 wait_state os_more_arrives waiting_client {[6]} (str "llo") []).
  - reflexivity.
  - by apply elem_of_singleton.
  - apply not_elem_of_empty.
  - reflexivity.
  - discriminate.
  - split; [vm_compute; split; discriminate|reflexivity].
  - vm_compute. reflexivity.
  - apply no_CR_no_crlf. apply (bool_decide_unpack _). by vm_compute.
Defined.

(** ** A frame with a [NUL] in front *)

Lemma c_str_short (l : list ascii) :
  l !! 0%nat = Some NUL ∨ l !! 1%nat = Some NUL -> (length (c_str l) <= 1)%nat.
Proof.
  destruct l as [|x [|y l]]; cbn [c_str]; intros [H|H]; try done;
    repeat case_decide; simpl; try lia; simpl in H; congruence.
Qed.

(** X10: a frame whose first or second byte is [NUL] takes the server into
    undefined behaviour.  The copy that [snprintf] makes of such a frame is
    shorter than two bytes, and [_server_commands] stores its [NUL] at index
    [data_len - 2] of the message, which is before the array. *)
Theorem frame_with_NUL_in_front_is_undefined fuel cur st o c :
  clients st !! cur = Some c ->
  buf_ok (rbuf c) ->
  frame_ready (valid (rbuf c)) ->
  valid (rbuf c) !! 0%nat = Some NUL ∨ valid (rbuf c) !! 1%nat = Some NUL ->
  drain (S fuel) cur st o = Undef.
Proof.
  intros Hc [Hin Hlen] Hf Hnul.
  apply crlf_pos_frame_ready in Hf as [Hne Hlt].
  set (crlf := crlf_pos (valid (rbuf c))) in *.
  pose proof (crlf_pos_range (valid (rbuf c))) as [?|Hrg]; [done|]. fold crlf in Hrg.
  set (dst := take (Z.to_nat crlf) (valid (rbuf c)) ++ replicate (Z.to_nat (BUF_SIZE - crlf)) NUL).
  assert (Hshort : (length (c_str dst) <= 1)%nat).
  { apply c_str_short. unfold dst.
    destruct Hnul as [H0|H1]; [left|right].
    - rewrite lookup_app_l by (rewrite length_take; lia).
      rewrite lookup_take_lt by lia. done.
    - rewrite lookup_app_l by (rewrite length_take; lia).
      rewrite lookup_take_lt by lia. done. }
  assert (Hdl : strlen (snprintf_s MAX_USER_MSG dst) <= 1).
  { unfold strlen, snprintf_s. rewrite c_str_local_array.
    - rewrite length_take. lia.
    - apply text_take, c_str_is_text.
    - rewrite length_take. change (Z.to_nat BUF_SIZE) with 131%nat. lia. }
  cbn [drain]. rewrite Hc.
  pose proof (get_message_frame (rbuf c)) as Hg. cbv zeta in Hg. fold crlf in Hg.
  rewrite Hg by (done || lia). cbn [mbind run_bind]. cbv zeta. fold dst.
  unfold _server_commands. by rewrite decide_True by lia.
Qed.

Lemma frame_with_NUL_witness :
  server_rounds 2 8 4 3 (server_init 4 3) os_nul_frame = Undef
  ∧ drain 1 0 nul_state query_os = Undef.
Proof.
  split; [by vm_compute|].
  apply (frame_with_NUL_in_front_is_undefined 0 0 nul_state query_os nul_client).
  - reflexivity.
  - split; [vm_compute; split; discriminate|reflexivity].
  - exists (NUL :: str "hi"), []. split; [reflexivity|simpl; lia].
  - by left.
Defined.

(** ** The nodes of the list through the rounds *)

Lemma get_message_ok b r dst b' :
  get_message b = Ret (r, dst, b') -> buf_ok b -> buf_ok b'.
Proof.
  intros H [Hin Hlen]. unfold get_message in H. rewrite find_network_newline_spec in H.
  fold (valid b) in H.
  pose proof (crlf_pos_range (valid b)) as Hrg.
  assert (Z.of_nat (length (valid b)) = inbuf b) as Hvl by (apply valid_length; lia).
  case_decide; [by injection H as <- <- <-|].
  case_decide; [done|]. injection H as <- <- <-.
  split; cbn [buf inbuf]; [lia|].
  case_decide; [by rewrite length_store_bytes|done].
Qed.

Lemma bufs_ok_set_rbuf cur b st : bufs_ok st -> buf_ok b -> bufs_ok (set_rbuf cur b st).
Proof.
  unfold bufs_ok. cbn [set_rbuf clients]. intros Hst Hb.
  apply Forall_alter; [done|]. by intros x _ _.
Qed.

Lemma bufs_ok_same st st' : clients st' = clients st -> bufs_ok st -> bufs_ok st'.
Proof. unfold bufs_ok. by intros ->. Qed.

Lemma bufs_ok_lookup st cur c : bufs_ok st -> clients st !! cur = Some c -> buf_ok (rbuf c).
Proof. unfold bufs_ok. rewrite Forall_lookup. intros H Hc. by apply (H cur c). Qed.

Lemma drain_ok fuel : ∀ cur st o st' o',
  drain fuel cur st o = Ret (st', o') -> bufs_ok st -> bufs_ok st'.
Proof.
  induction fuel as [|fuel IH]; intros cur st o st' o' H Hok; cbn [drain] in H;
    destruct (clients st !! cur) as [c|] eqn:Hc; try done;
    run_inv H; destruct a as [[failed dst] b];
    (assert (buf_ok b) as Hb
       by (eapply get_message_ok; [exact Hrun|by eapply bufs_ok_lookup]));
    destruct dst as [msg|]; try done;
    try (injection H as <- <-; by apply bufs_ok_set_rbuf).
  cbv zeta in H. run_inv H. destruct a as [ret o1].
  case_decide.
  { case_decide.
    - apply _remove_client_spec in H as (Hcl & _).
      eapply bufs_ok_same; [exact Hcl|]. by apply bufs_ok_set_rbuf.
    - injection H as <- <-. by apply bufs_ok_set_rbuf. }
  run_inv H. destruct a as [[wb st2] o3].
  apply broadcast_spec in Hrun1 as (Hcl & _).
  eapply IH; [exact H|]. eapply bufs_ok_same; [exact Hcl|]. by apply bufs_ok_set_rbuf.
Qed.

Lemma process_client_ok fuel cur c listen st o cur' st' o' :
  process_client fuel cur c listen st o = Ret (cur', st', o') ->
  clients st !! cur = Some c ->
  bufs_ok st -> bufs_ok st'.
Proof.
  unfold process_client. intros H Hc Hok.
  case_decide; [by injection H as <- <- <-|].
  unfold read_from_client in H.
  destruct (read_from_socket _ _ _) as [[r b] o1] eqn:Hr.
  apply read_from_socket_capacity in Hr as [Hb _]; [|by eapply bufs_ok_lookup].
  cbv zeta in H. cbn [rbuf] in H.
  set (client_closed := if decide (r = -1) then 1 else r) in H.
  run_inv H. destruct a as [st2 o2].
  assert (bufs_ok st2) as Hok2.
  { destruct (decide (client_closed = 0)).
    - eapply drain_ok; [exact Hrun|]. by apply bufs_ok_set_rbuf.
    - injection Hrun as <- <-. by apply bufs_ok_set_rbuf. }
  destruct (decide (client_closed = 1)).
  - run_inv H. destruct a as [st3 o3]. injection H as <- <- <-.
    apply _remove_client_spec in Hrun0 as (Hcl & _). by eapply bufs_ok_same.
  - by injection H as <- <- <-.
Qed.

Lemma _process_client_data_ok fuel : ∀ cur listen st o st' o',
  _process_client_data fuel cur listen st o = Ret (st', o') -> bufs_ok st -> bufs_ok st'.
Proof.
  induction fuel as [|fuel IH]; intros cur listen st o st' o' H Hok;
    cbn [_process_client_data] in H;
    destruct (clients st !! cur) as [c|] eqn:Hc; try done;
    try (by injection H as <- <-).
  run_inv H. destruct a as [[cur1 st1] o1].
  eapply IH; [exact H|]. by eapply process_client_ok.
Qed.

(** What the part of a round behind the listening socket does to the
    nodes: their buffers stay within bounds, none is added or unlinked,
    nothing is accepted. *)
Lemma server_rest_nodes fuel server_fd listen st o c :
  server_rest fuel server_fd listen st o = Ret c ->
  (bufs_ok st -> bufs_ok (ctl_state c))
  ∧ sock_fd <$> clients (ctl_state c) = sock_fd <$> clients st
  ∧ log_ext calm o (ctl_os c)
  ∧ match c with Exited s _ _ => s = 0 ∨ s = -1 | Running _ _ => True end.
Proof.
  intros H. pose proof H as Hs. apply server_rest_spec in Hs as [_ L].
  unfold server_rest in H. run_inv H. destruct a as [stop o1].
  destruct stop as [status|].
  - injection H as <-. cbn [ctl_state]. split; [done|]. split; [done|]. split; [done|].
    case_decide; [|done]. run_inv Hrun. destruct a as [closed o0].
    repeat case_decide; simplify_eq; by eauto.
  - run_inv H. destruct a as [st' o2]. injection H as <-. cbn [ctl_state].
    split; [intros Hok; by eapply _process_client_data_ok|].
    apply _process_client_data_spec in Hrun0 as (Hcl & _). by split.
Qed.

(** ** The nodes and the log *)

Lemma nodes_in_order_ext st o st' o' ext :
  nodes_in_order st o ->
  os_log o' = os_log o ++ ext ->
  registered ext = [] ->
  settled (os_log o ++ ext) ->
  sock_fd <$> clients st' = sock_fd <$> clients st ->
  nodes_in_order st' o'.
Proof.
  intros (Hs & Hn) He Hr Hs' Hcl. unfold nodes_in_order.
  rewrite He, registered_app, Hr, app_nil_r by done. split; [done|congruence].
Qed.

Lemma nodes_in_order_calm st o st' o' :
  nodes_in_order st o -> log_ext calm o o' ->
  sock_fd <$> clients st' = sock_fd <$> clients st ->
  nodes_in_order st' o'.
Proof.
  intros Hinv (ext & He & Hf) Hcl.
  eapply nodes_in_order_ext; [exact Hinv|exact He|by apply calm_registered| |exact Hcl].
  destruct Hinv as (Hs & _). apply calm_settled; auto.
Qed.

Lemma nodes_in_order_accept st o fd frame r ext st' o' :
  nodes_in_order st o -> ¬ fd < 0 ->
  os_log o' = (os_log o ++ [SysAccept fd]) ++ SysWrite fd frame r :: ext ->
  Forall calm ext ->
  sock_fd <$> clients st' = (sock_fd <$> clients st) ++ [fd] ->
  nodes_in_order st' o'.
Proof.
  intros (Hs & Hn) Hfd He Hf Hcl. unfold nodes_in_order.
  pose proof (calm_registered ext Hf) as Ha.
  split.
  { rewrite He. apply calm_settled; [by constructor|by left]. }
  rewrite He, <- app_assoc, registered_app by done.
  cbn [app registered no_node]. rewrite decide_False by done.
  by rewrite Ha, Hcl, Hn.
Qed.

(** What lines 98-118 of [server] do to the nodes: a node is added at the
    end of the list exactly when [accept] gives a descriptor and [malloc] a
    node, and no node is unlinked. *)
Lemma accept_client_nodes st o a :
  accept_client st o = Ret a ->
  (bufs_ok st -> bufs_ok (ctl_state (step_ctl a)))
  ∧ (nodes_in_order st o -> nodes_in_order (ctl_state (step_ctl a)) (ctl_os (step_ctl a)))
  ∧ match a with Leave (Exited s _ _) => s = -1 | _ => True end.
Proof.
  intros H. unfold accept_client, _accept_connection, sys_accept in H.
  destruct (os_accept o) as [|fd q] eqn:Hq.
  { cbn [fst snd] in H. rewrite decide_True in H by lia. rewrite decide_True in H by lia.
    injection H as <-. cbn [step_ctl ctl_state ctl_os]. split; [done|]. split; [|done].
    intros Hinv. eapply nodes_in_order_calm; [exact Hinv| |done].
    exists [SysAccept (-1); SysError (str "ERROR: server: accept")].
    cbn [display_error log_call os_log]. rewrite <- app_assoc. split; [done|].
    by repeat constructor. }
  destruct (decide (fd < 0)) as [Hneg|Hpos].
  { rewrite decide_True in H by lia. injection H as <-.
    cbn [step_ctl ctl_state ctl_os]. split; [done|]. split; [|done].
    intros Hinv. eapply nodes_in_order_calm; [exact Hinv| |done].
    exists [SysAccept fd; SysError (str "ERROR: server: accept")].
    cbn [display_error log_call os_log]. rewrite <- app_assoc. split; [done|].
    by repeat constructor. }
  unfold sys_malloc in H. cbn [os_malloc log_call] in H.
  destruct (os_malloc o) as [|[|] m] eqn:Hm; cbn [os_log] in H.
  3:{ rewrite decide_True in H by lia. injection H as <-.
      cbn [step_ctl ctl_state ctl_os]. split; [done|]. split; [|done].
      intros Hinv.
      eapply (nodes_in_order_ext st o _ _
                [SysAccept fd; SysError (str "server: malloc"); SysClose fd]);
        [exact Hinv| | | |done].
      - cbn [sys_close display_error log_call os_log]. by rewrite <- !app_assoc.
      - cbn [registered no_node]. by rewrite decide_False by done.
      - unfold settled. by rewrite last_app. }
  all: rewrite decide_False in H by lia;
    rewrite lookup_app_r in H by done; rewrite Nat.sub_diag in H;
    cbn [lookup list_lookup] in H;
    run_inv H; destruct a0 as [[ret st2] o2];
    apply _send_client_id_spec in Hrun as (Hid & Hcl & r & ext & He & Hf);
    cbn [sock_fd client_id clients log_call os_log] in *;
    assert (Hext : Forall calm ext)
      by (eapply Forall_impl; [exact Hf|]; intros e He';
          by eapply (touches_calm (λ _, True)), only_writes_touches);
    assert (Hok2 : bufs_ok st -> bufs_ok st2)
      by (intros Hok; unfold bufs_ok; rewrite Hcl; apply Forall_app; split; [done|];
          constructor; [|constructor]; cbn [rbuf];
          split; [vm_compute; split; discriminate|reflexivity]);
    assert (Hn2 : nodes_in_order st o -> nodes_in_order st2 o2)
      by (intros Hinv; eapply (nodes_in_order_accept st o fd); try done;
          by rewrite Hcl, fmap_app);
    (case_decide; [by injection H as <-|]);
    (case_decide; [|by injection H as <-]);
    run_inv H; destruct a0 as [st3 o3]; injection H as <-;
    pose proof (_remove_client_log (λ _, True) _ _ _ _ _ Hrun) as L%log_ext_calm;
    apply _remove_client_spec in Hrun as (Hcl3 & _);
    cbn [step_ctl ctl_state ctl_os];
    (split; [intros Hok; eapply bufs_ok_same; [exact Hcl3|by apply Hok2]|]);
    (split; [|done]);
    intros Hinv; eapply nodes_in_order_calm; [by apply Hn2|exact L|by rewrite Hcl3].
Qed.

(** What a round does to the nodes. *)
Lemma server_round_nodes fuel s_fd server_fd st o c :
  server_round fuel s_fd server_fd st o = Ret c ->
  (bufs_ok st -> bufs_ok (ctl_state c))
  ∧ (nodes_in_order st o -> nodes_in_order (ctl_state c) (ctl_os c))
  ∧ match c with Exited s _ _ => s = 0 ∨ s = -1 | Running _ _ => True end.
Proof.
  intros H. unfold server_round in H.
  destruct (sys_select o) as [[[ready| |]|] o0] eqn:Hsel; [| | |done];
    apply sys_select_log in Hsel.
  - assert (Hinv0 : nodes_in_order st o -> nodes_in_order st o0)
      by (intros Hinv; eapply nodes_in_order_calm; [exact Hinv|by apply log_ext_same|done]).
    cbv zeta in H. case_decide.
    2:{ apply server_rest_nodes in H as (Hok & Hcl & L & Hst). split; [done|]. split; [|done].
        intros Hinv. eapply nodes_in_order_calm; [by apply Hinv0|exact L|exact Hcl]. }
    run_inv H. apply accept_client_nodes in Hrun as (Hok & Hn & Hst).
    destruct a as [st2 o2|c'].
    + cbn [step_ctl ctl_state ctl_os] in *.
      apply server_rest_nodes in H as (Hok' & Hcl & L & Hst').
      split; [intros ?; by apply Hok', Hok|]. split; [|done].
      intros Hinv. eapply nodes_in_order_calm; [by apply Hn, Hinv0|exact L|exact Hcl].
    + injection H as <-. cbn [step_ctl] in *. split; [done|]. split; [by intros ?; apply Hn, Hinv0|].
      destruct c'; [done|by right].
  - injection H as <-. cbn [ctl_state ctl_os]. split; [done|]. split; [|done].
    intros Hinv. eapply nodes_in_order_calm; [exact Hinv|by apply log_ext_same|done].
  - injection H as <-. cbn [ctl_state ctl_os]. split; [done|]. split; [|by right].
    intros Hinv. eapply nodes_in_order_calm; [exact Hinv| |done].
    eapply log_ext_trans; [by apply log_ext_same|]. by apply log_ext_call.
Qed.

Lemma server_rounds_nodes n : ∀ fuel s_fd server_fd st o c,
  server_rounds n fuel s_fd server_fd st o = Ret c ->
  (bufs_ok st -> bufs_ok (ctl_state c))
  ∧ (nodes_in_order st o -> nodes_in_order (ctl_state c) (ctl_os c))
  ∧ match c with Exited s _ _ => s = 0 ∨ s = -1 | Running _ _ => True end.
Proof.
  induction n as [|n IH]; intros fuel s_fd server_fd st o c H; cbn [server_rounds] in H.
  - by injection H as <-.
  - run_inv H. apply server_round_nodes in Hrun as (Hok & Hn & Hst).
    destruct a as [st1 o1|status st1 o1].
    + apply IH in H as (Hok' & Hn' & Hst'). cbn [ctl_state ctl_os] in *.
      split; [by intros ?; apply Hok', Hok|]. split; [|done]. by intros ?; apply Hn', Hn.
    + by injection H as <-.
Qed.



(** ** Leaving *)

Lemma _clean_exit_log s_fd server_fd cl o :
  os_log (_clean_exit s_fd server_fd cl o) =
  os_log o ++ (SysClose <$> (sock_fd <$> cl)) ++ [SysClose server_fd; SysClose s_fd].
Proof.
  unfold _clean_exit. cbn [sys_close log_call os_log].
  assert (Hf : ∀ o, os_log (foldl (λ o c, sys_close (sock_fd c) o) o cl)
                    = os_log o ++ (SysClose <$> (sock_fd <$> cl))).
  { clear o. induction cl as [|c cl IH]; intros o; [by rewrite app_nil_r|].
    cbn [foldl fmap list_fmap]. rewrite IH. cbn [sys_close log_call os_log].
    by rewrite <- app_assoc. }
  rewrite Hf. by rewrite <- !app_assoc.
Qed.

Lemma _clean_exit_closed s_fd server_fd cl o fd :
  fd ∈ os_closed (_clean_exit s_fd server_fd cl o)
  ↔ fd = s_fd ∨ fd = server_fd ∨ fd ∈ sock_fd <$> cl ∨ fd ∈ os_closed o.
Proof.
  unfold _clean_exit. cbn [sys_close log_call os_closed].
  assert (Hf : ∀ o, fd ∈ os_closed (foldl (λ o c, sys_close (sock_fd c) o) o cl)
                    ↔ fd ∈ sock_fd <$> cl ∨ fd ∈ os_closed o).
  { clear o. induction cl as [|c cl IH]; intros o.
    - cbn [foldl fmap list_fmap]. rewrite elem_of_nil. tauto.
    - cbn [foldl fmap list_fmap]. rewrite IH. cbn [sys_close log_call os_closed].
      rewrite elem_of_cons, elem_of_union, elem_of_singleton. tauto. }
  rewrite !elem_of_union, !elem_of_singleton, Hf. tauto.
Qed.

(** X12: when [server] returns, it returns 0 or -1, and the last thing it
    did was to close the descriptor of every connection that it had
    registered (accepted, with a node allocated), in the order in which they
    came, those of clients that it had removed before included, and then the
    pipe and the listening socket.  So all of them are closed. *)
Theorem server_closes_every_descriptor_on_return n fuel s_fd server_fd o status o' :
  os_log o = [] ->
  server n fuel s_fd server_fd o = Ret (status, o') ->
  (status = 0 ∨ status = -1)
  ∧ ∃ l, os_log o' = l ++ (SysClose <$> registered l) ++ [SysClose server_fd; SysClose s_fd]
         ∧ s_fd ∈ os_closed o' ∧ server_fd ∈ os_closed o'
         ∧ ∀ fd, fd ∈ registered l -> fd ∈ os_closed o'.
Proof.
  intros Hlog H. unfold server in H. run_inv H.
  apply server_rounds_nodes in Hrun as (_ & Hn & Hst).
  destruct a as [st1 o1|s st1 o1]; [done|]. injection H as <- <-.
  cbn [ctl_state ctl_os] in *.
  destruct Hn as (_ & Hn).
  { unfold nodes_in_order. by rewrite Hlog. }
  split; [done|]. exists (os_log o1).
  split; [by rewrite _clean_exit_log, Hn|].
  split; [apply _clean_exit_closed; by left|].
  split; [apply _clean_exit_closed; right; by left|].
  intros fd Hfd. apply _clean_exit_closed. right; right; left. by rewrite Hn.
Qed.

Lemma server_closes_witness :
  ∃ o', server 3 8 4 3 os_refused_then_shutdown = Ret (0, o')
        ∧ (0 = 0 ∨ 0 = -1)
        ∧ ∃ l, os_log o' = l ++ (SysClose <$> registered l) ++ [SysClose 3; SysClose 4]
               ∧ 4 ∈ os_closed o' ∧ 3 ∈ os_closed o'
               ∧ ∀ fd, fd ∈ registered l -> fd ∈ os_closed o'.
Proof.
  destruct (server 3 8 4 3 os_refused_then_shutdown) as [[s o']| |] eqn:E;
    [|by vm_compute in E..].
  assert (s = 0) as -> by (vm_compute in E; by injection E as <- _).
  exists o'. split; [reflexivity|].
  exact (server_closes_every_descriptor_on_return 3 8 4 3 os_refused_then_shutdown 0 o'
           eq_refl E).
Defined.

Lemma _fd_close_at_end k : ∀ fuel fd o,
  fd ∉ os_closed o ->
  default [] (os_in o !! fd) = replicate k InIntr ->
  (k < fuel)%nat ->
  ∃ o', _fd_close fuel fd o = Ret (1, o') ∧ os_log o' = os_log o.
Proof.
  induction k as [|k IH]; intros fuel fd o Hopen Hq Hfuel;
    (destruct fuel as [|fuel]; [lia|]); cbn [_fd_close]; unfold sys_read;
    rewrite decide_False by done; rewrite Hq; cbn [replicate].
  - by exists o.
  - destruct (IH fuel fd (set_in fd (replicate k InIntr) o)) as (o' & -> & Hl); [done| |lia|].
    + cbn [set_in os_in]. by rewrite lookup_insert_eq.
    + by exists o'.
Qed.

(** X13: a closed pipe ends the server before any client is served.  When
    [select] reports the pipe from the shell (and no new connection) and the
    reads on the pipe find its end, after any number of reads that a signal
    interrupted, the round leaves the loop with status 0: no client is read,
    nothing is written or shown, and the state is as it was, whichever
    clients were ready in that round. *)
Theorem closed_pipe_ends_the_server_before_clients fuel k s_fd server_fd st o ready q :
  os_select o = SelReady ready :: q ->
  s_fd ∉ ready ->
  server_fd ∈ all_fds st ->
  server_fd ∈ ready ->
  server_fd ∉ os_closed o ->
  default [] (os_in o !! server_fd) = replicate k InIntr ->
  (k < fuel)%nat ->
  ∃ o', server_round fuel s_fd server_fd st o = Ret (Exited 0 st o')
        ∧ os_log o' = os_log o.
Proof.
  intros Hsel Hs Hall Hready Hopen Hq Hfuel.
  unfold server_round, sys_select. rewrite Hsel. cbv zeta.
  rewrite decide_False by (rewrite elem_of_intersection; tauto).
  unfold server_rest. rewrite decide_True by (by apply elem_of_intersection).
  set (o0 := mkOS _ _ _ _ _ _ _).
  destruct (_fd_close_at_end k fuel server_fd o0) as (o' & -> & Hl); [done..|].
  cbn [mbind run_bind]. rewrite decide_False by lia. rewrite decide_True by lia.
  cbn [mbind run_bind]. by exists o'.
Qed.

Lemma closed_pipe_witness :
  ∃ o', server_round 8 4 3 talk_state os_late = Ret (Exited 0 talk_state o')
        ∧ os_log o' = [].
Proof.
  apply (closed_pipe_ends_the_server_before_clients 8 1 4 3 talk_state os_late {[3; 6]} []).
  - reflexivity.
  - apply (bool_decide_unpack _). by vm_compute.
  - apply (bool_decide_unpack _). by vm_compute.
  - apply (bool_decide_unpack _). by vm_compute.
  - apply (bool_decide_unpack _). by vm_compute.
  - reflexivity.
  - lia.
Defined.

Lemma write_buf_to_client_error c (a : list ascii) len o w :
  sock_fd c ∉ os_closed o ->
  os_wr o !! sock_fd c = Some (WErr :: w) ->
  length a = Z.to_nat BUF_SIZE -> 0 <= len <= BUF_SIZE - 2 ->
  ∃ a' o', write_buf_to_client c a len o = Ret (1, a', o')
    ∧ os_log o' = os_log o ++ [SysWrite (sock_fd c) (take (Z.to_nat len) a ++ CRLF) (-1);
                               SysError (str "ERROR: write")].
Proof.
  intros Hopen Hw Hlen Hl. unfold write_buf_to_client.
  rewrite decide_False by lia. rewrite decide_False by lia.
  unfold write_to_socket.
  destruct (Z.to_nat (len + 2)) as [|n] eqn:Hn; [lia|].
  cbn [write_loop]. rewrite decide_True by lia.
  rewrite Z.sub_0_r. change (Z.to_nat 0) with O. rewrite drop_0. rewrite Hn.
  unfold sys_write. rewrite decide_False by done. rewrite Hw. cbn [from_option id].
  rewrite decide_True by done. cbn [mbind run_bind].
  eexists _, _. split; [reflexivity|].
  cbn [log_call os_log set_wr]. rewrite <- app_assoc. f_equal.
  rewrite <- Hn. by rewrite take_framed.
Qed.

(** X14: one failed [write] of an id stops the whole server.  When a client
    connects, [malloc] gives its node and the [write] that carries its id
    fails, the round leaves the loop with status -1: the calls are the
    [accept], the failed [write] of the id and the two diagnostics, and every
    other client loses its server with this one.  When [malloc] gives no
    node, the descriptor is closed at once, nothing is written and the server
    goes on. *)
Theorem failed_id_write_stops_the_server fuel s_fd server_fd st o ready q fd acc w :
  os_select o = SelReady ready :: q ->
  s_fd ∈ all_fds st -> s_fd ∈ ready ->
  os_accept o = fd :: acc -> 0 <= fd ->
  os_wr o !! fd = Some (WErr :: w) ->
  0 <= client_id st < INT_MAX -> 0 <= client_count st < INT_MAX ->
  match head (os_malloc o) with
  | Some false =>
      ∃ o', server_round fuel s_fd server_fd st o = Ret (Running st o')
        ∧ os_log o' = os_log o ++
            [SysAccept fd; SysError (str "server: malloc"); SysClose fd]
  | _ =>
      ∃ st' o', server_round fuel s_fd server_fd st o = Ret (Exited (-1) st' o')
        ∧ os_log o' = os_log o ++
            [SysAccept fd; SysWrite fd (decimal_frame (client_id st + 1)) (-1);
             SysError (str "ERROR: write"); SysError (str "ERROR: write_to_socket")]
  end.
Proof.
  intros Hsel Hall Hready Hacc Hfd Hw Hid Hcnt.
  unfold server_round, sys_select. rewrite Hsel. cbv zeta.
  rewrite decide_True by (by apply elem_of_intersection).
  unfold accept_client, _accept_connection, sys_accept. cbn [os_accept]. rewrite Hacc.
  rewrite decide_False by lia. unfold sys_malloc. cbn [os_malloc log_call].
  destruct (os_malloc o) as [|[|] m] eqn:Hm; cbn [head].
  3:{ rewrite decide_True by lia. cbn [mbind run_bind]. eexists. split; [reflexivity|].
      cbn [sys_close display_error log_call os_log]. by rewrite <- !app_assoc. }
  all: rewrite !decide_False by lia;
    rewrite lookup_app_r by done; rewrite Nat.sub_diag; cbn [lookup list_lookup];
    unfold _send_client_id; cbn [client_id client_count clients all_fds max_fd];
    unfold int_add; rewrite !decide_True by (unfold INT_MIN, INT_MAX in *; lia);
    cbn [mbind run_bind]; rewrite ?decide_True by (unfold INT_MIN, INT_MAX in *; lia);
    cbn [mbind run_bind];
    assert (Hrange : INT_MIN <= client_id st + 1 <= INT_MAX)
      by (unfold INT_MIN, INT_MAX in *; lia);
    destruct (pretty_int_text _ Hrange) as [Ht Hl];
    rewrite strnlen_snprintf_d by done;
    match goal with |- context [write_buf_to_client ?c0 _ _ ?o0] =>
      set (o1 := o0); set (c := c0) end;
    destruct (write_buf_to_client_error c (snprintf_d (client_id st + 1))
                (Z.of_nat (length (str (pretty (client_id st + 1))))) o1 w)
      as (a' & o2 & -> & Hlog);
    [cbn [sock_fd os_closed log_call o1 c]; rewrite elem_of_difference, elem_of_singleton; tauto
    |exact Hw
    |unfold snprintf_d, local_array; by rewrite length_store_bytes
    |unfold BUF_SIZE, MAX_PROTO_MSG, MAX_USER_MSG; lia
    |];
    cbn [mbind run_bind]; rewrite decide_True by done;
    cbn [mbind run_bind]; rewrite decide_True by done;
    cbn [mbind run_bind];
    (eexists _, _; split; [reflexivity|]);
    cbn [display_error log_call os_log]; rewrite Hlog; cbn [o1 log_call os_log c sock_fd];
    rewrite <- !app_assoc; cbn [app]; do 3 f_equal;
    unfold decimal_frame; f_equal; rewrite Nat2Z.id;
    unfold snprintf_d; fold (str (pretty (client_id st + 1)));
    rewrite local_array_spec by (change (Z.to_nat BUF_SIZE) with 131%nat; lia);
    by rewrite take_app_length.
Qed.

Lemma failed_id_write_witness :
  ∃ st' o', server_round 8 4 3 (server_init 4 3) os_id_fails = Ret (Exited (-1) st' o')
    ∧ os_log o' = [] ++
        [SysAccept 5; SysWrite 5 (str "1" ++ CRLF) (-1);
         SysError (str "ERROR: write"); SysError (str "ERROR: write_to_socket")].
Proof.
  apply (failed_id_write_stops_the_server 8 4 3 (server_init 4 3) os_id_fails {[4]} [] 5 [] []).
  - reflexivity.
  - apply (bool_decide_unpack _). by vm_compute.
  - apply (bool_decide_unpack _). by vm_compute.
  - reflexivity.
  - lia.
  - reflexivity.
  - vm_compute. split; [discriminate|reflexivity].
  - vm_compute. split; [discriminate|reflexivity].
Defined.

(** * More on the client *)

(** ** Numbers in decimal, read back *)

Lemma pretty_N_go_app k : ∀ x s,
  (x < 10 ^ N.of_nat k)%N ->
  str (pretty_N_go x s) = str (pretty_N_go x "") ++ str s.
Proof.
  induction k as [|k IH]; intros x s Hx.
  - assert (x = 0%N) as -> by (simpl in Hx; lia). by rewrite !pretty_N_go_0.
  - destruct (decide (x = 0%N)) as [->|Hne]; [by rewrite !pretty_N_go_0|].
    assert (Hd : (x `div` 10 < 10 ^ N.of_nat k)%N).
    { apply N.Div0.div_lt_upper_bound.
      replace (N.of_nat (S k)) with (N.succ (N.of_nat k)) in Hx by lia.
      by rewrite N.pow_succ_r' in Hx. }
    rewrite (pretty_N_go_step x s) by lia. rewrite (pretty_N_go_step x "") by lia.
    rewrite (IH _ (String _ s)) by done. rewrite (IH _ (String _ "")) by done.
    by rewrite <- app_assoc.
Qed.

Lemma digit_val_pretty_N_char d :
  (d < 10)%N -> Client.digit_val (pretty_N_char d) = Some (Z.of_N d).
Proof.
  intros Hd.
  assert (d = 0 ∨ d = 1 ∨ d = 2 ∨ d = 3 ∨ d = 4 ∨ d = 5 ∨ d = 6 ∨ d = 7 ∨ d = 8 ∨ d = 9)%N
    as H by lia.
  repeat (destruct H as [->|H]; [reflexivity|]). by subst.
Qed.

Lemma digits_val_app (l1 l2 : list ascii) : ∀ acc,
  Forall is_digit l1 ->
  Client.digits_val (l1 ++ l2) acc = Client.digits_val l2 (Client.digits_val l1 acc).
Proof.
  induction l1 as [|c l1 IH]; intros acc Hd; [done|].
  inversion Hd as [|?? [d Hc] Hd']; subst.
  cbn [app Client.digits_val]. rewrite Hc. by apply IH.
Qed.

(** The digits that [pretty] writes for [x] are digits, and read back they
    give [x]. *)
Lemma digits_of_N k : ∀ x,
  (x < 10 ^ N.of_nat k)%N ->
  Forall is_digit (str (pretty_N_go x ""))
  ∧ Client.digits_val (str (pretty_N_go x "")) 0 = Z.of_N x.
Proof.
  induction k as [|k IH]; intros x Hx.
  - assert (x = 0%N) as -> by (simpl in Hx; lia). rewrite pretty_N_go_0. by split.
  - destruct (decide (x = 0%N)) as [->|Hne]; [rewrite pretty_N_go_0; by split|].
    assert (Hd : (x `div` 10 < 10 ^ N.of_nat k)%N).
    { apply N.Div0.div_lt_upper_bound.
      replace (N.of_nat (S k)) with (N.succ (N.of_nat k)) in Hx by lia.
      by rewrite N.pow_succ_r' in Hx. }
    destruct (IH _ Hd) as [Hall Hval].
    rewrite pretty_N_go_step by lia. rewrite (pretty_N_go_app k) by done.
    assert (Hc : Client.digit_val (pretty_N_char (x `mod` 10)) = Some (Z.of_N (x `mod` 10))).
    { apply digit_val_pretty_N_char. by apply N.mod_lt. }
    split.
    + apply Forall_app. split; [done|]. constructor; [|constructor]. by eexists.
    + rewrite digits_val_app by done. rewrite Hval.
      change (str (String (pretty_N_char (x `mod` 10)) "")) with [pretty_N_char (x `mod` 10)].
      cbn [Client.digits_val]. rewrite Hc.
      rewrite (N.div_mod x 10) at 3 by done. lia.
Qed.

Lemma digit_not_space c : is_digit c -> Client.isspace c = false.
Proof.
  intros [d Hd]. unfold Client.digit_val in Hd. case_decide as Hr; [|done].
  unfold Client.isspace. apply bool_decide_eq_false. intros Hin.
  repeat (apply elem_of_cons in Hin as [->|Hin]; [cbn in Hr; lia|]).
  by apply elem_of_nil in Hin.
Qed.

Lemma digit_not_sign c : is_digit c -> c ≠ "-"%char ∧ c ≠ "+"%char ∧ c ≠ NUL.
Proof.
  intros [d Hd]. unfold Client.digit_val in Hd. case_decide as Hr; [|done].
  repeat split; intros ->; cbn in Hr; lia.
Qed.

Lemma text_digits l : Forall is_digit l -> text l.
Proof. intros H. eapply Forall_impl; [exact H|]. intros c Hc. by apply digit_not_sign. Qed.

Lemma digits_val_nonneg (l : list ascii) : ∀ acc,
  Forall is_digit l -> 0 <= acc -> 0 <= Client.digits_val l acc.
Proof.
  induction l as [|x l IH]; intros acc Hd Hacc; [done|].
  inversion Hd as [|?? [d Hx] Hd']; subst.
  cbn [Client.digits_val]. rewrite Hx. apply IH; [done|].
  unfold Client.digit_val in Hx. case_decide; [|done]. injection Hx as <-. lia.
Qed.

(** [strtol] on a string of digits that need not end the array: the
    number, and [errno] stays clear. *)
Lemma strtol_digits einval (ds : list ascii) (a : list ascii) :
  c_str a = ds -> ds ≠ [] -> Forall is_digit ds ->
  Client.digits_val ds 0 <= Client.LONG_MAX ->
  Client.strtol einval a = (Client.digits_val ds 0, false).
Proof.
  intros Ha Hne Hd Hmax. unfold Client.strtol. rewrite Ha.
  destruct ds as [|c ds]; [done|]. inversion Hd as [|?? Hc Hd']; subst.
  cbn [Client.skip_space]. rewrite (digit_not_space c Hc).
  destruct (digit_not_sign c Hc) as (Hm & Hp & _).
  assert (Hsign : (match c :: ds with
                   | "-"%char :: rest => (true, rest)
                   | "+"%char :: rest => (false, rest)
                   | _ => (false, c :: ds)
                   end) = (false, c :: ds)).
  { destruct c as [[] [] [] [] [] [] [] []]; try reflexivity; by (destruct Hm || destruct Hp). }
  rewrite Hsign. cbn [Client.starts_with_digit]. rewrite bool_decide_eq_true_2 by done.
  cbn [negb].
  assert (0 <= Client.digits_val (c :: ds) 0) by (by apply digits_val_nonneg).
  rewrite decide_False by lia. rewrite decide_False by (unfold Client.LONG_MIN; lia). done.
Qed.

Lemma pretty_nonneg_digits (n : Z) :
  0 <= n <= INT_MAX ->
  str (pretty n) ≠ [] ∧ Forall is_digit (str (pretty n))
  ∧ Client.digits_val (str (pretty n)) 0 = n.
Proof.
  intros Hn. destruct n as [|p|p]; [| |lia].
  - split; [done|]. split; [|done]. constructor; [by eexists|constructor].
  - change (pretty (Z.pos p)) with (pretty (N.pos p)).
    unfold pretty, pretty_N. rewrite decide_False by done.
    destruct (digits_of_N 10 (N.pos p)) as [Hall Hval].
    { change (10 ^ N.of_nat 10)%N with 10000000000%N. unfold INT_MAX in Hn. lia. }
    split; [|split; [done|]].
    + rewrite pretty_N_go_step by lia. rewrite (pretty_N_go_app 10).
      * intros E. apply (f_equal length) in E. rewrite length_app in E. simpl in E. lia.
      * apply N.Div0.div_lt_upper_bound.
        change (10 ^ N.of_nat 10)%N with 10000000000%N. unfold INT_MAX in Hn. lia.
    + rewrite Hval. lia.
Qed.

(** ** Receiving *)

(** The second loop of [_recieve_message] drops the empty frames in front
    and hands over the first message. *)
Lemma message_loop_skips k : ∀ fuel msg_len msg s o (m rest : list ascii),
  buf_ok (Client.sbuf s) ->
  valid (Client.sbuf s) = concat (replicate k CRLF) ++ m ++ CRLF ++ rest ->
  text m -> ¬ has_crlf m -> (1 <= length m <= 128)%nat ->
  msg_len <= 2 ->
  (k < fuel)%nat ->
  ∃ tl s', Client.message_loop fuel msg_len msg s o = Ret (0, Some (m ++ NUL :: tl), s', o)
           ∧ length (m ++ NUL :: tl) = Z.to_nat BUF_SIZE
           ∧ valid (Client.sbuf s') = rest ∧ buf_ok (Client.sbuf s')
           ∧ Client.sock_fd s' = Client.sock_fd s.
Proof.
  induction k as [|k IH]; intros fuel msg_len msg s o m rest Hok Hv Hm Hno Hlen Hml Hfuel;
    (destruct fuel as [|fuel]; [lia|]); cbn [Client.message_loop];
    rewrite decide_True by done.
  - cbn [replicate concat app] in Hv.
    destruct (get_message_first (Client.sbuf s) m rest Hok Hv Hno) as (dst & b1 & -> & Hdst & Hv1 & Hok1 & _);
      [lia|].
    cbn [mbind run_bind].
    assert (Hcs : c_str dst = m ++ CRLF).
    { rewrite Hdst. apply c_str_padded; [by apply text_frame|lia]. }
    assert (Hsl : strnlen dst MAX_PROTO_MSG = Z.of_nat (length m) + 2).
    { unfold strnlen, strlen. rewrite Hcs, length_app. change (length CRLF) with 2%nat.
      unfold MAX_PROTO_MSG, MAX_USER_MSG. lia. }
    rewrite Hsl. rewrite decide_False by lia.
    rewrite decide_False by (unfold MAX_PROTO_MSG, MAX_USER_MSG; lia).
    replace (Z.to_nat (Z.of_nat (length m) + 2 - 2)) with (length m) by lia.
    assert (Hins : <[length m := NUL]> dst
                   = m ++ NUL :: LF :: replicate (129 - length m) NUL).
    { rewrite Hdst. rewrite <- !app_assoc.
      replace (length m) with (length m + 0)%nat at 1 by lia.
      by rewrite insert_app_r. }
    rewrite Hins.
    exists (LF :: replicate (129 - length m) NUL), (Client.mkSock (Client.sock_fd s) b1).
    split; [destruct fuel; cbn [Client.message_loop]; by rewrite decide_False by lia|].
    split; [|done].
    rewrite length_app, !length_cons, length_replicate.
    change (Z.to_nat BUF_SIZE) with 131%nat. lia.
  - cbn [replicate concat] in Hv. rewrite <- app_assoc in Hv.
    destruct (get_message_first (Client.sbuf s) [] _ Hok Hv) as (dst & b1 & -> & Hdst & Hv1 & Hok1 & _).
    { apply no_CR_no_crlf, not_elem_of_nil. }
    { simpl. lia. }
    cbn [mbind run_bind].
    assert (Hsl : strnlen dst MAX_PROTO_MSG = 2) by (by rewrite Hdst).
    rewrite Hsl. rewrite decide_True by lia.
    destruct (IH fuel 2 None (Client.mkSock (Client.sock_fd s) b1) o m rest)
      as (tl & s' & Hl & Hlen' & Hv' & Hok' & Hfd); try done; try lia.
    by exists tl, s'.
Qed.

(** A read that completes a frame ends the first loop of
    [_recieve_message]. *)
Lemma read_loop_frame fuel s o c q :
  buf_ok (Client.sbuf s) ->
  Client.sock_fd s ∉ os_closed o ->
  os_in o !! Client.sock_fd s = Some (InData c :: q) ->
  c ≠ [] ->
  inbuf (Client.sbuf s) + Z.of_nat (length c) <= BUF_SIZE ->
  frame_ready (valid (Client.sbuf s) ++ c) ->
  ∃ s' o', Client.read_loop (S fuel) s o = Ret (0, s', o')
           ∧ valid (Client.sbuf s') = valid (Client.sbuf s) ++ c
           ∧ buf_ok (Client.sbuf s')
           ∧ Client.sock_fd s' = Client.sock_fd s
           ∧ os_log o' = os_log o
           ∧ o' = set_in (Client.sock_fd s) q o.
Proof.
  intros [Hin Hlen] Hopen Hq Hc Hfit Hf.
  destruct (read_from_socket_data (Client.sock_fd s) (Client.sbuf s) o c q)
    as (b' & Hr & Hv & Hi & Hl); try done; try lia.
  cbn [Client.read_loop]. rewrite Hr.
  assert (Hcl : classify (valid (Client.sbuf s) ++ c) = 0).
  { unfold classify. cbv zeta. rewrite decide_True; [done|]. by apply crlf_pos_frame_ready. }
  rewrite Hcl. rewrite decide_False by lia.
  eexists _, _. split; [reflexivity|]. cbn [Client.sbuf Client.sock_fd].
  split; [done|]. split; [|done]. split; [lia|congruence].
Qed.

Lemma frame_ready_after_empty k (m rest : list ascii) :
  (length m <= 128)%nat -> frame_ready (concat (replicate k CRLF) ++ m ++ CRLF ++ rest).
Proof.
  intros Hm. destruct k as [|k].
  - by exists m, rest.
  - exists [], (concat (replicate k CRLF) ++ m ++ CRLF ++ rest).
    cbn [replicate concat]. rewrite <- app_assoc. split; [done|simpl; lia].
Qed.

(** [_recieve_message] when a read brings the bytes that complete a
    message, behind any number of empty frames. *)
Lemma _recieve_message_next fuel s o c q k (m rest : list ascii) :
  buf_ok (Client.sbuf s) ->
  Client.sock_fd s ∉ os_closed o ->
  os_in o !! Client.sock_fd s = Some (InData c :: q) ->
  c ≠ [] ->
  inbuf (Client.sbuf s) + Z.of_nat (length c) <= BUF_SIZE ->
  valid (Client.sbuf s) ++ c = concat (replicate k CRLF) ++ m ++ CRLF ++ rest ->
  text m -> ¬ has_crlf m -> (1 <= length m <= 128)%nat ->
  (k < fuel)%nat ->
  ∃ tl s' o', Client._recieve_message fuel s o = Ret (0, Some (m ++ NUL :: tl), s', o')
              ∧ length (m ++ NUL :: tl) = Z.to_nat BUF_SIZE
              ∧ valid (Client.sbuf s') = rest ∧ buf_ok (Client.sbuf s')
              ∧ Client.sock_fd s' = Client.sock_fd s
              ∧ os_log o' = os_log o
              ∧ o' = set_in (Client.sock_fd s) q o.
Proof.
  intros Hok Hopen Hq Hc Hfit Hv Hm Hno Hlen Hfuel.
  destruct fuel as [|fuel]; [lia|].
  destruct (read_loop_frame fuel s o c q) as (s1 & o1 & Hr & Hv1 & Hok1 & Hfd1 & Hl1 & Ho1); try done.
  { rewrite Hv. apply frame_ready_after_empty. lia. }
  unfold Client._recieve_message. rewrite Hr. cbn [mbind run_bind].
  rewrite decide_False by lia.
  destruct (message_loop_skips k (S fuel) (-1) None s1 o1 m rest)
    as (tl & s2 & -> & Hl2 & Hv2 & Hok2 & Hfd2); try done; try lia.
  { by rewrite Hv1. }
  exists tl, s2, o1. split; [done|]. split; [done|]. split; [done|]. split; [done|].
  split; [congruence|done].
Qed.

Lemma strncat_newline (m tl : list ascii) :
  text m -> (length m <= 128)%nat -> length (m ++ NUL :: tl) = Z.to_nat BUF_SIZE ->
  ∃ a, strncat (m ++ NUL :: tl) [LF; NUL] 2 = Ret a ∧ c_str a = m ++ [LF].
Proof.
  intros Hm Hlen Hl. unfold strncat.
  assert (Hs : strlen (m ++ NUL :: tl) = Z.of_nat (length m)).
  { unfold strlen. by rewrite c_str_text. }
  rewrite Hs. change (take (Z.to_nat 2) (c_str [LF; NUL])) with [LF].
  rewrite decide_True.
  2:{ rewrite Hl. change (Z.to_nat BUF_SIZE) with 131%nat. simpl. lia. }
  eexists. split; [reflexivity|].
  rewrite length_app, length_cons in Hl. change (Z.to_nat BUF_SIZE) with 131%nat in Hl.
  destruct tl as [|x tl]; [simpl in Hl; lia|].
  rewrite store_bytes_spec; [|lia|].
  2:{ rewrite !length_app, !length_cons. simpl. lia. }
  rewrite Nat2Z.id, take_app_length.
  change (([LF] ++ [NUL]) ++ drop (length m + length ([LF] ++ [NUL])) (m ++ NUL :: x :: tl))
    with (LF :: NUL :: drop (length m + 2) (m ++ NUL :: x :: tl)).
  change (m ++ LF :: NUL :: drop (length m + 2) (m ++ NUL :: x :: tl))
    with (m ++ [LF] ++ NUL :: drop (length m + 2) (m ++ NUL :: x :: tl)).
  rewrite app_assoc. apply c_str_text.
  apply Forall_app. split; [done|]. by repeat constructor.
Qed.

(** X15: a message from the server is shown with a line feed.  When the
    socket is ready and the read brings the bytes that complete the message
    [m], behind any number of empty frames such as the second CRLF that the
    server puts behind every broadcast, the client shows [m] and a line feed.
    The bytes behind the frame stay in the buffer, complete frames among
    them too: one message is shown for each time the socket is ready. *)
Theorem message_from_server_is_shown fuel s o c q k (m rest : list ascii) :
  buf_ok (Client.sbuf s) ->
  Client.sock_fd s ∉ os_closed o ->
  os_in o !! Client.sock_fd s = Some (InData c :: q) ->
  c ≠ [] ->
  inbuf (Client.sbuf s) + Z.of_nat (length c) <= BUF_SIZE ->
  valid (Client.sbuf s) ++ c = concat (replicate k CRLF) ++ m ++ CRLF ++ rest ->
  text m -> ¬ has_crlf m -> (1 <= length m <= 128)%nat ->
  (k < fuel)%nat ->
  ∃ s' o',
    ClientMain.show_message fuel s o = Ret (s', o')
    ∧ os_log o' = os_log o ++ [SysDisplay (m ++ [LF])]
    ∧ valid (Client.sbuf s') = rest
    ∧ buf_ok (Client.sbuf s').
Proof.
  intros Hok Hopen Hq Hc Hfit Hv Hm Hno Hlen Hfuel.
  destruct (_recieve_message_next fuel s o c q k m rest)
    as (tl & s' & o' & Hr & Hl & Hv' & Hok' & _ & Hlog & _); try done.
  destruct (strncat_newline m tl) as (a & Ha & Hca); [done|lia|done|].
  unfold ClientMain.show_message. rewrite Hr. cbn [mbind run_bind]. rewrite Ha.
  cbn [mbind run_bind]. eexists _, _. split; [reflexivity|].
  unfold display_message. cbn [log_call os_log]. by rewrite Hca, Hlog.
Qed.

Lemma message_from_server_witness :
  ∃ s' o',
    ClientMain.show_message 3 fresh_sock os_hello_after_empty = Ret (s', o')
    ∧ os_log o' = [] ++ [SysDisplay (str "hello" ++ [LF])]
    ∧ valid (Client.sbuf s') = str "wor"
    ∧ buf_ok (Client.sbuf s').
Proof.
  apply (message_from_server_is_shown 3 fresh_sock os_hello_after_empty
           (CRLF ++ CRLF ++ str "hello" ++ CRLF ++ str "wor") [] 2 (str "hello") (str "wor")).
  - split; [vm_compute; split; discriminate|reflexivity].
  - apply (bool_decide_unpack _). by vm_compute.
  - reflexivity.
  - discriminate.
  - vm_compute. discriminate.
  - reflexivity.
  - by repeat constructor.
  - apply no_CR_no_crlf. apply (bool_decide_unpack _). by vm_compute.
  - simpl. lia.
  - lia.
Defined.

(** The second loop of [_recieve_message] on a buffer that holds empty
    frames and no complete one behind them. *)
Lemma message_loop_empty_frames k : ∀ fuel msg_len msg s o (part : list ascii),
  buf_ok (Client.sbuf s) ->
  valid (Client.sbuf s) = concat (replicate k CRLF) ++ part ->
  ¬ has_crlf part ->
  msg_len <= 2 ->
  Client.message_loop fuel msg_len msg s o = Timeout.
Proof.
  induction k as [|k IH]; intros fuel msg_len msg s o part Hok Hv Hno Hml.
  - apply message_loop_spins; [done|]. apply get_message_none. by rewrite Hv.
  - destruct fuel as [|fuel]; cbn [Client.message_loop]; rewrite decide_True by done; [done|].
    cbn [replicate concat] in Hv. rewrite <- app_assoc in Hv.
    destruct (get_message_first (Client.sbuf s) [] _ Hok Hv) as (dst & b1 & -> & Hdst & Hv1 & Hok1 & _).
    { apply no_CR_no_crlf, not_elem_of_nil. }
    { simpl. lia. }
    cbn [mbind run_bind].
    assert (Hsl : strnlen dst MAX_PROTO_MSG = 2) by (by rewrite Hdst).
    rewrite Hsl. rewrite decide_True by lia.
    by apply (IH fuel 2 None (Client.mkSock (Client.sock_fd s) b1) o part).
Qed.

(** X16: empty frames alone hang the client.  When a read leaves the
    buffer with one or more empty frames, such as the second CRLF that the
    server puts behind every broadcast, and behind them only the beginning of
    a message, [_recieve_message] drops the empty frames and then asks
    [get_message] again and again without reading: for no loop bound
    [fuel] does it return, whatever the server sends later, and neither does
    the code of [client] that shows a message. *)
Theorem empty_frames_alone_hang_the_client fuel s o c q k (part : list ascii) :
  buf_ok (Client.sbuf s) ->
  Client.sock_fd s ∉ os_closed o ->
  os_in o !! Client.sock_fd s = Some (InData c :: q) ->
  c ≠ [] ->
  inbuf (Client.sbuf s) + Z.of_nat (length c) <= BUF_SIZE ->
  valid (Client.sbuf s) ++ c = concat (replicate k CRLF) ++ part ->
  (1 <= k)%nat ->
  ¬ has_crlf part ->
  Client._recieve_message fuel s o = Timeout
  ∧ ClientMain.show_message fuel s o = Timeout.
Proof.
  intros Hok Hopen Hq Hc Hfit Hv Hk Hno.
  assert (Hr : Client._recieve_message fuel s o = Timeout).
  { destruct fuel as [|fuel]; [reflexivity|].
    destruct (read_loop_frame fuel s o c q) as (s1 & o1 & Hr & Hv1 & Hok1 & _); try done.
    { rewrite Hv. destruct k as [|k]; [lia|].
      exists [], (concat (replicate k CRLF) ++ part).
      cbn [replicate concat]. rewrite <- app_assoc. split; [done|simpl; lia]. }
    unfold Client._recieve_message. rewrite Hr. cbn [mbind run_bind].
    rewrite decide_False by lia.
    apply (message_loop_empty_frames k _ _ _ _ _ part); [done| |done|lia].
    by rewrite Hv1. }
  split; [done|]. unfold ClientMain.show_message. by rewrite Hr.
Qed.

Lemma empty_frames_witness :
  Client._recieve_message 1000 sock_after_message (os_sends (str "client1:he")) = Timeout
  ∧ ClientMain.show_message 1000 sock_after_message (os_sends (str "client1:he")) = Timeout.
Proof.
  apply (empty_frames_alone_hang_the_client 1000 sock_after_message (os_sends (str "client1:he"))
           (str "client1:he") [] 1 (str "client1:he")).
  - split; [vm_compute; split; discriminate|reflexivity].
  - apply (bool_decide_unpack _). by vm_compute.
  - reflexivity.
  - discriminate.
  - vm_compute. discriminate.
  - reflexivity.
  - lia.
  - apply no_CR_no_crlf. apply (bool_decide_unpack _). by vm_compute.
Defined.

(** The handshake on the frame in which the server sends the id. *)
Lemma client_handshake_id einval fuel s o q id :
  buf_ok (Client.sbuf s) ->
  inbuf (Client.sbuf s) = 0 ->
  Client.sock_fd s ∉ os_closed o ->
  os_in o !! Client.sock_fd s = Some (InData (decimal_frame id) :: q) ->
  0 <= id <= INT_MAX ->
  (0 < fuel)%nat ->
  ∃ s' o',
    Client.client_handshake einval fuel s o = Ret (Client.Session id, s', o')
    ∧ valid (Client.sbuf s') = []
    ∧ os_log o' = os_log o
    ∧ Client.sock_fd s' = Client.sock_fd s
    ∧ o' = set_in (Client.sock_fd s) q o.
Proof.
  intros Hok Hin Hopen Hq Hid Hfuel.
  destruct (pretty_nonneg_digits id Hid) as (Hne & Hdig & Hval).
  destruct (pretty_int_text id) as [Htext Hlen]; [unfold INT_MIN; lia|].
  assert (Hvb : valid (Client.sbuf s) = []) by (unfold valid; by rewrite Hin).
  destruct (_recieve_message_next fuel s o (decimal_frame id) q 0 (str (pretty id)) [])
    as (tl & s' & o' & Hr & Hl & Hv' & Hok' & Hfd' & Hlog & Ho'); try done.
  { unfold decimal_frame. by destruct (str (pretty id)). }
  { rewrite Hin. unfold decimal_frame. rewrite length_app. change (length CRLF) with 2%nat.
    unfold BUF_SIZE, MAX_PROTO_MSG, MAX_USER_MSG. lia. }
  { rewrite Hvb. unfold decimal_frame. cbn [replicate concat app]. by rewrite app_nil_r. }
  { apply no_CR_no_crlf. intros Hcr.
    rewrite Forall_forall in Hdig. apply Hdig in Hcr as [d Hd]. by vm_compute in Hd. }
  { split; [|lia]. destruct (str (pretty id)); [done|simpl; lia]. }
  exists s', o'. split; [|done].
  unfold Client.client_handshake, Client._get_client_id. rewrite Hr. cbn [mbind run_bind].
  rewrite decide_False by lia. rewrite decide_False by lia.
  rewrite (strtol_digits einval (str (pretty id))); try done.
  - rewrite Hval. cbn [mbind run_bind].
    rewrite decide_False by lia. rewrite decide_False by lia.
    unfold Client.long_to_int. unfold INT_MAX in Hid. rewrite Z.mod_small by lia.
    by replace (id + 2147483648 - 2147483648) with id by lia.
  - apply c_str_text. done.
  - rewrite Hval. unfold Client.LONG_MAX, INT_MAX in *. lia.
Qed.

(** X17: the id that the server sends is the id that the client takes.
    When the first bytes that the client reads are the frame in which
    [_send_client_id] writes the number [id], the client goes on to its
    session with [id], whichever C library it runs on, and its buffer is
    empty again. *)
Theorem id_from_server_is_read_back einval fuel s o q id :
  buf_ok (Client.sbuf s) ->
  inbuf (Client.sbuf s) = 0 ->
  Client.sock_fd s ∉ os_closed o ->
  os_in o !! Client.sock_fd s = Some (InData (decimal_frame id) :: q) ->
  0 <= id <= INT_MAX ->
  (0 < fuel)%nat ->
  ∃ s' o',
    Client.client_handshake einval fuel s o = Ret (Client.Session id, s', o')
    ∧ valid (Client.sbuf s') = []
    ∧ os_log o' = os_log o.
Proof.
  intros Hok Hin Hopen Hq Hid Hfuel.
  destruct (client_handshake_id einval fuel s o q id Hok Hin Hopen Hq Hid Hfuel)
    as (s' & o' & Hh & Hv & Hlog & _).
  by exists s', o'.
Qed.

Lemma id_from_server_witness :
  ∃ s' o',
    Client.client_handshake true 1 fresh_sock (os_sends (decimal_frame 42))
    = Ret (Client.Session 42, s', o')
    ∧ valid (Client.sbuf s') = []
    ∧ os_log o' = [].
Proof.
  apply (id_from_server_is_read_back true 1 fresh_sock (os_sends (decimal_frame 42)) [] 42).
  - split; [vm_compute; split; discriminate|reflexivity].
  - reflexivity.
  - apply (bool_decide_unpack _). by vm_compute.
  - reflexivity.
  - vm_compute. split; discriminate.
  - lia.
Defined.

(** ** A server that has gone *)

(** X18: when the server has gone, the client runs into undefined
    behaviour.  The socket is ready and its read finds the end of the
    stream or fails; [_recieve_message] then returns without a message, and
    [client], which does not look at the return value, hands the pointer
    that was never set to [strncat]. *)
Theorem lost_server_is_undefined fuel cid (wb : list ascii) plen s inp o ready q :
  at_eof inp = false ->
  os_select o = SelReady ready :: q ->
  0 ∉ ready ->
  Client.sock_fd s ∈ ready ->
  at_end (Client.sock_fd s) o ->
  ClientMain.client_loop (S fuel) cid wb plen s inp o = Undef.
Proof.
  intros Heof Hsel H0 Hs Hend.
  cbn [ClientMain.client_loop]. rewrite Heof. unfold sys_select. rewrite Hsel.
  rewrite decide_False by done. cbn [mbind run_bind]. rewrite decide_True by done.
  set (o0 := mkOS _ _ _ _ _ _ _).
  destruct (read_from_socket_at_end (Client.sock_fd s) (Client.sbuf s) o0 Hend)
    as (r & b' & Hr & Hcase).
  unfold ClientMain.show_message, Client._recieve_message. cbn [Client.read_loop].
  rewrite Hr. rewrite decide_True by lia.
  destruct Hcase as [-> | ->].
  - rewrite decide_False by lia. rewrite decide_True by done. cbn [mbind run_bind].
    by rewrite decide_True by lia.
  - rewrite decide_True by done. cbn [mbind run_bind]. by rewrite decide_True by lia.
Qed.

Lemma lost_server_witness :
  ClientMain.client_loop 1 1 used_buf 8 fresh_sock (mkStdin [] false) os_server_gone = Undef.
Proof.
  apply (lost_server_is_undefined 0 1 used_buf 8 fresh_sock (mkStdin [] false)
           os_server_gone {[5]} []).
  - reflexivity.
  - reflexivity.
  - apply (bool_decide_unpack _). by vm_compute.
  - apply (bool_decide_unpack _). by vm_compute.
  - right. reflexivity.
Defined.

(** ** From a line to a frame *)

Lemma take_line_newline (line more : list ascii) : ∀ k,
  LF ∉ line -> (length line < k)%nat ->
  take_line k (line ++ LF :: more) = line ++ [LF].
Proof.
  induction line as [|c line IH]; intros k Hno Hk.
  - destruct k; [simpl in Hk; lia|]. cbn [app take_line]. by rewrite decide_True.
  - destruct k; [simpl in Hk; lia|]. cbn [app take_line].
    apply not_elem_of_cons in Hno as [Hc Hno].
    rewrite decide_False by done. f_equal. apply IH; [done|]. simpl in Hk. lia.
Qed.

Lemma take_line_no_newline (l : list ascii) : ∀ k, LF ∉ l -> take_line k l = take k l.
Proof.
  induction l as [|c l IH]; intros k Hno; [by destruct k|].
  destruct k; [done|]. cbn [take_line take].
  apply not_elem_of_cons in Hno as [Hc Hno].
  rewrite decide_False by done. f_equal. by apply IH.
Qed.

(** What [strncat] gives when it returns: the strings one behind the
    other, in an array of the same length. *)
Lemma strncat_ret (dst src : list ascii) n d :
  strncat dst src n = Ret d ->
  ∃ tl, dst = c_str dst ++ NUL :: tl
        ∧ d = c_str dst ++ take (Z.to_nat n) (c_str src) ++
              NUL :: drop (length (take (Z.to_nat n) (c_str src))) tl
        ∧ length d = length dst.
Proof.
  unfold strncat. set (s := take (Z.to_nat n) (c_str src)). unfold strlen.
  case_decide as Hfit; [|done]. intros [= <-].
  destruct (c_str_split dst) as (rest & E & Hrest).
  remember (c_str dst) as p eqn:Hp.
  destruct Hrest as [->|[tl ->]].
  { rewrite app_nil_r in E. rewrite E in Hfit. lia. }
  exists tl. split; [done|]. split; [|apply length_store_bytes].
  clear Hp. subst dst. rewrite length_app, length_cons in Hfit.
  rewrite store_bytes_spec; [|lia|rewrite !length_app, length_cons, Nat2Z.id; simpl; lia].
  rewrite !Nat2Z.id, take_app_length. f_equal.
  rewrite <- app_assoc. f_equal. cbn [app]. f_equal.
  rewrite length_app. change (length [NUL]) with 1%nat.
  rewrite drop_app_add. by replace (length s + 1)%nat with (S (length s)) by lia.
Qed.

Lemma c_str_strncat (dst src : list ascii) n d :
  strncat dst src n = Ret d ->
  c_str d = c_str dst ++ take (Z.to_nat n) (c_str src) ∧ length d = length dst.
Proof.
  intros H. destruct (strncat_ret _ _ _ _ H) as (tl & _ & -> & Hl). split; [|done].
  rewrite app_assoc. apply c_str_text. apply Forall_app. split; [apply c_str_is_text|].
  apply text_take, c_str_is_text.
Qed.

Lemma strncat_fits (dst src : list ascii) n :
  strlen dst + Z.of_nat (length (take (Z.to_nat n) (c_str src))) + 1 <= Z.of_nat (length dst) ->
  ∃ d, strncat dst src n = Ret d.
Proof. intros H. unfold strncat. rewrite decide_True by done. by eexists. Qed.

Lemma strchr_None (a : list ascii) c : c ∉ c_str a -> strchr a c = None.
Proof.
  induction a as [|x a IH]; [done|]. cbn [c_str strchr].
  case_decide; [done|]. intros Hn. apply not_elem_of_cons in Hn as [Hc Hn].
  rewrite decide_False by done. by rewrite IH.
Qed.

Lemma strchr_in_str (a pre tl : list ascii) c :
  c_str a = pre ++ c :: tl -> c ∉ pre -> c ≠ NUL ->
  strchr a c = Some (Z.of_nat (length pre)).
Proof.
  intros Hs Hc Hn. destruct (c_str_split a) as (rest & E & _).
  rewrite E, Hs, <- app_assoc. cbn [app]. apply strchr_found; [|done..].
  pose proof (c_str_is_text a) as Ht. rewrite Hs in Ht. by apply Forall_app in Ht as [? _].
Qed.

Lemma take_c_str (a : list ascii) : take (length (c_str a)) a = c_str a.
Proof.
  destruct (c_str_split a) as (rest & E & _). rewrite E at 2. by rewrite take_app_length.
Qed.

(** [_read_user_input] on a line that fits behind the prompt. *)
Lemma _read_user_input_line s (a p line more : list ascii) o :
  length a = Z.to_nat BUF_SIZE ->
  c_str a = p -> LF ∉ p ->
  text line -> LF ∉ line ->
  (length p + length line <= 128)%nat ->
  ∃ wb,
    ClientMain._read_user_input s a (Z.of_nat (length p)) (mkStdin (line ++ LF :: more) false) o
    = Ret (0, wb, Some (Z.of_nat (length p + length line + 2)), mkStdin more false, o)
    ∧ take (length p + length line + 2) wb = p ++ line ++ CRLF
    ∧ length wb = Z.to_nat BUF_SIZE.
Proof.
  intros Hla Hp Hnp Hline Hnl Hfit.
  change (Z.to_nat BUF_SIZE) with 131%nat in *.
  unfold ClientMain._read_user_input, fgets. cbn [at_eof pending].
  rewrite decide_False by (unfold MAX_USER_MSG; lia).
  rewrite take_line_newline by (done || unfold MAX_USER_MSG; lia).
  rewrite decide_True by (left; by rewrite last_snoc).
  rewrite decide_False by (rewrite length_app; simpl; unfold BUF_SIZE, MAX_PROTO_MSG, MAX_USER_MSG; lia).
  replace (drop (length (line ++ [LF])) (line ++ LF :: more)) with more.
  2:{ change (line ++ LF :: more) with (line ++ [LF] ++ more).
      by rewrite app_assoc, drop_app_length. }
  assert (Hsrc : c_str ((line ++ [LF]) ++ [NUL]) = line ++ [LF]).
  { apply c_str_text. apply Forall_app. split; [done|]. by repeat constructor. }
  assert (Htk : take (Z.to_nat (MAX_USER_MSG + 2 - Z.of_nat (length p))) (line ++ [LF])
                = line ++ [LF]).
  { apply take_ge. rewrite length_app. simpl. unfold MAX_USER_MSG. lia. }
  destruct (strncat_fits a ((line ++ [LF]) ++ [NUL]) (MAX_USER_MSG + 2 - Z.of_nat (length p)))
    as [wb1 Hcat].
  { rewrite Hsrc, Htk. unfold strlen. rewrite Hp, Hla, length_app. simpl. lia. }
  rewrite Hcat. cbn [mbind run_bind].
  destruct (strncat_ret _ _ _ _ Hcat) as (tl & Ha & Hwb1 & Hl1).
  rewrite Hsrc, Htk, Hp in Hwb1. rewrite Hp in Ha.
  assert (Hcs : c_str wb1 = (p ++ line) ++ LF :: []).
  { apply c_str_strncat in Hcat as [-> _]. by rewrite Hsrc, Htk, Hp, app_assoc. }
  assert (Hnot : LF ∉ p ++ line) by (rewrite elem_of_app; tauto).
  rewrite (strchr_in_str wb1 (p ++ line) []) by done.
  rewrite decide_True by (rewrite Hl1, Hla, length_app; lia).
  assert (Hsl : strnlen wb1 (MAX_USER_MSG + 1) + 1 = Z.of_nat (length p + length line + 2)).
  { unfold strnlen, strlen. rewrite Hcs, !length_app. simpl. unfold MAX_USER_MSG. lia. }
  rewrite Hsl. eexists. split; [reflexivity|].
  split; [|by rewrite !length_insert, Hl1].
  rewrite Hwb1. rewrite length_app.
  replace (Z.to_nat (Z.of_nat (length p + length line)))
    with (length (p ++ line) + 0)%nat by (rewrite length_app; lia).
  replace (Z.to_nat (Z.of_nat (length p + length line) + 1))
    with (length (p ++ line) + 1)%nat by (rewrite length_app; lia).
  replace (length p + length line + 2)%nat with (length (p ++ line) + 2)%nat
    by (rewrite length_app; lia).
  rewrite <- (app_assoc line), (app_assoc p line).
  cbn [app]. rewrite insert_app_r. cbn [insert list_insert].
  rewrite insert_app_r. cbn [insert list_insert].
  rewrite take_app_add. by rewrite <- app_assoc.
Qed.

(** X19: a line that the user types becomes one frame.  With the prompt
    [p] in the array and a line of which prompt and text together have at
    most 128 bytes on the standard input, [_read_user_input] takes the line
    and its line feed from the input, and the first [*write_len] bytes of the
    array are the prompt, the text of the line and CRLF. *)
Theorem typed_line_becomes_one_frame s (a p line more : list ascii) o :
  length a = Z.to_nat BUF_SIZE ->
  c_str a = p -> LF ∉ p ->
  text line -> LF ∉ line ->
  (length p + length line <= 128)%nat ->
  ∃ wb,
    ClientMain._read_user_input s a (Z.of_nat (length p)) (mkStdin (line ++ LF :: more) false) o
    = Ret (0, wb, Some (Z.of_nat (length p + length line + 2)), mkStdin more false, o)
    ∧ take (length p + length line + 2) wb = p ++ line ++ CRLF
    ∧ length wb = Z.to_nat BUF_SIZE.
Proof. apply _read_user_input_line. Qed.

Lemma typed_line_witness :
  ∃ wb,
    ClientMain._read_user_input fresh_sock used_buf 8
      (mkStdin (str "hi" ++ LF :: str "next") false) query_os
    = Ret (0, wb, Some 12, mkStdin (str "next") false, query_os)
    ∧ take 12 wb = prompt1 ++ str "hi" ++ CRLF
    ∧ length wb = Z.to_nat BUF_SIZE.
Proof.
  apply (typed_line_becomes_one_frame fresh_sock used_buf prompt1 (str "hi") (str "next") query_os).
  - reflexivity.
  - reflexivity.
  - apply (bool_decide_unpack _). by vm_compute.
  - by repeat constructor.
  - apply (bool_decide_unpack _). by vm_compute.
  - simpl. lia.
Defined.

Lemma digit_not_LF c : is_digit c -> c ≠ LF.
Proof.
  intros [d Hd]. unfold Client.digit_val in Hd. case_decide as Hr; [|done].
  intros ->. cbn in Hr. lia.
Qed.

(** The prompt of a client whose id is not negative: no [NUL] and no line
    feed. *)
Lemma id_prompt_plain cid :
  0 <= cid <= INT_MAX -> text (ClientMain.id_prompt cid) ∧ LF ∉ ClientMain.id_prompt cid.
Proof.
  intros Hc. destruct (pretty_nonneg_digits cid Hc) as (_ & Hd & _).
  unfold ClientMain.id_prompt. fold (str "client") (str (pretty cid)). split.
  - apply Forall_app. split; [by repeat constructor|].
    apply Forall_app. split; [by apply text_digits|by repeat constructor].
  - intros Hin. apply elem_of_app in Hin as [Hin|Hin].
    { revert Hin. apply (bool_decide_unpack _). by vm_compute. }
    apply elem_of_app in Hin as [Hin|Hin].
    + rewrite Forall_forall in Hd. by apply (digit_not_LF LF (Hd _ Hin)).
    + apply list_elem_of_singleton in Hin. discriminate Hin.
Qed.

Lemma c_str_snprintf_id (a : list ascii) cid :
  text (ClientMain.id_prompt cid) ->
  (length (ClientMain.id_prompt cid) < length a)%nat ->
  length a = Z.to_nat BUF_SIZE ->
  c_str (ClientMain.snprintf_id a cid) = ClientMain.id_prompt cid
  ∧ length (ClientMain.snprintf_id a cid) = length a.
Proof.
  intros Ht Hl Ha. unfold ClientMain.snprintf_id.
  rewrite take_ge by (rewrite Ha in Hl; lia).
  split; [|by rewrite length_store_bytes].
  rewrite store_bytes_spec;
    [|lia|rewrite length_app; change (length [NUL]) with 1%nat; change (Z.to_nat 0) with 0%nat; lia].
  change (Z.to_nat 0) with 0%nat. cbn [take app]. rewrite <- app_assoc. by apply c_str_text.
Qed.

(** Lines 90-112 of [client] on a line that fits behind the prompt, with
    a socket that takes writes. *)
Lemma send_line_sent cid s (a line more : list ascii) o :
  0 <= cid <= INT_MAX ->
  length a = Z.to_nat BUF_SIZE ->
  c_str a = ClientMain.id_prompt cid ->
  text line -> LF ∉ line ->
  (length (ClientMain.id_prompt cid) + length line <= 128)%nat ->
  writable (Client.sock_fd s) o ->
  ∃ wb,
    ClientMain.send_line cid a (Z.of_nat (length (ClientMain.id_prompt cid))) s
      (mkStdin (line ++ LF :: more) false) o
    = Ret (None, wb, mkStdin more false,
           log_call (SysWrite (Client.sock_fd s) (ClientMain.id_prompt cid ++ line ++ CRLF)
                       (Z.of_nat (length (ClientMain.id_prompt cid) + length line + 2))) o)
    ∧ c_str wb = ClientMain.id_prompt cid ∧ length wb = Z.to_nat BUF_SIZE.
Proof.
  intros Hc Hla Hp Hline Hnl Hfit Hw.
  destruct (id_prompt_plain cid Hc) as [Htp Hnp].
  destruct (_read_user_input_line s a (ClientMain.id_prompt cid) line more o Hla Hp Hnp Hline Hnl Hfit)
    as (wb & Hr & Htake & Hlw).
  destruct (c_str_snprintf_id wb cid Htp) as [Hcs Hls].
  { rewrite Hlw. change (Z.to_nat BUF_SIZE) with 131%nat. lia. }
  { done. }
  exists (ClientMain.snprintf_id wb cid).
  split; [|split; [done|by rewrite Hls]].
  unfold ClientMain.send_line. rewrite Hr. cbn [mbind run_bind].
  rewrite decide_False by lia.
  rewrite write_to_socket_writable; [|done|lia|rewrite Hlw; change (Z.to_nat BUF_SIZE) with 131%nat; lia].
  cbn [mbind run_bind]. rewrite !decide_False by lia.
  by rewrite Nat2Z.id, Htake.
Qed.

(** X20: a typed line goes out under the name of the client, and the
    next line starts from the same array.  With the prompt [client<id>:] in
    the array, a line that fits behind it and a socket that takes writes,
    [client] sends the prompt, the text of the line and CRLF in one [write],
    and puts the prompt into the array again, and goes on. *)
Theorem typed_line_goes_out_under_the_id cid s (a line more : list ascii) o :
  0 <= cid <= INT_MAX ->
  length a = Z.to_nat BUF_SIZE ->
  c_str a = ClientMain.id_prompt cid ->
  text line -> LF ∉ line ->
  (length (ClientMain.id_prompt cid) + length line <= 128)%nat ->
  writable (Client.sock_fd s) o ->
  let p := ClientMain.id_prompt cid in
  ∃ wb o',
    ClientMain.send_line cid a (Z.of_nat (length p)) s (mkStdin (line ++ LF :: more) false) o
    = Ret (None, wb, mkStdin more false, o')
    ∧ os_log o' = os_log o ++
        [SysWrite (Client.sock_fd s) (p ++ line ++ CRLF)
                  (Z.of_nat (length p + length line + 2))]
    ∧ c_str wb = p ∧ length wb = Z.to_nat BUF_SIZE.
Proof.
  intros Hc Hla Hp Hline Hnl Hfit Hw p. subst p.
  destruct (send_line_sent cid s a line more o Hc Hla Hp Hline Hnl Hfit Hw) as (wb & Hs & Hcs & Hl).
  by eexists wb, _.
Qed.

Lemma typed_line_goes_out_witness :
  ∃ wb o',
    ClientMain.send_line 1 used_buf 8 fresh_sock (mkStdin (str "hi" ++ LF :: str "next") false)
      query_os
    = Ret (None, wb, mkStdin (str "next") false, o')
    ∧ os_log o' = [] ++ [SysWrite 5 (str "client1:" ++ str "hi" ++ CRLF) 12]
    ∧ c_str wb = str "client1:" ∧ length wb = Z.to_nat BUF_SIZE.
Proof.
  apply (typed_line_goes_out_under_the_id 1 fresh_sock used_buf (str "hi") (str "next") query_os).
  - unfold INT_MAX. lia.
  - reflexivity.
  - reflexivity.
  - by repeat constructor.
  - apply (bool_decide_unpack _). by vm_compute.
  - simpl. lia.
  - split; [apply not_elem_of_empty|reflexivity].
Defined.

Lemma take_frame_at (pre rest : list ascii) x y n :
  length pre = n ->
  take (S (S n)) (<[S n := LF]> (<[n := CR]> (pre ++ x :: y :: rest))) = pre ++ CRLF.
Proof.
  intros <-.
  replace (length pre) with (length pre + 0)%nat at 3 by lia.
  rewrite insert_app_r. cbn [insert list_insert].
  replace (S (length pre)) with (length pre + 1)%nat at 2 by lia.
  rewrite insert_app_r. cbn [insert list_insert].
  replace (S (S (length pre))) with (length pre + 2)%nat by lia.
  by rewrite take_app_add.
Qed.

Lemma take_line_full (l more : list ascii) : LF ∉ l -> take_line (length l) (l ++ more) = l.
Proof.
  induction l as [|c l IH]; intros Hno; [by destruct more|].
  apply not_elem_of_cons in Hno as [Hc Hno].
  cbn [length app take_line]. rewrite decide_False by done. f_equal. by apply IH.
Qed.

(** [_read_user_input] when [fgets] hands over bytes without a line feed:
    the second branch, which frames the first 128 bytes of the array. *)
Lemma _read_user_input_no_newline s (a p l : list ascii) inp inp' o :
  length a = Z.to_nat BUF_SIZE ->
  c_str a = p -> LF ∉ p ->
  text l -> LF ∉ l ->
  (length p + length l <= 129)%nat ->
  fgets (MAX_USER_MSG + 2 - Z.of_nat (length p)) inp = (Some l, inp') ->
  ∃ tl, a = p ++ NUL :: tl
    ∧ ClientMain._read_user_input s a (Z.of_nat (length p)) inp o
      = Ret (0, <[129%nat := LF]> (<[128%nat := CR]> (p ++ l ++ NUL :: drop (length l) tl)),
             Some 130, ungetc (char_at (p ++ l ++ NUL :: drop (length l) tl) 128) inp', o).
Proof.
  intros Hla Hp Hnp Hl Hnl Hfit Hfg.
  change (Z.to_nat BUF_SIZE) with 131%nat in *.
  unfold ClientMain._read_user_input. rewrite Hfg.
  rewrite decide_False by (unfold BUF_SIZE, MAX_PROTO_MSG, MAX_USER_MSG; lia).
  assert (Hsrc : c_str (l ++ [NUL]) = l) by (by apply c_str_text).
  assert (Htk : take (Z.to_nat (MAX_USER_MSG + 2 - Z.of_nat (length p))) l = l).
  { apply take_ge. unfold MAX_USER_MSG. lia. }
  destruct (strncat_fits a (l ++ [NUL]) (MAX_USER_MSG + 2 - Z.of_nat (length p)))
    as [wb1 Hcat].
  { rewrite Hsrc, Htk. unfold strlen. rewrite Hp, Hla. lia. }
  rewrite Hcat. cbn [mbind run_bind].
  destruct (strncat_ret _ _ _ _ Hcat) as (tl & Ha & Hwb1 & Hl1).
  rewrite Hsrc, Htk, Hp in Hwb1. rewrite Hp in Ha.
  exists tl. split; [done|].
  rewrite strchr_None.
  2:{ apply c_str_strncat in Hcat as [-> _]. rewrite Hsrc, Htk, Hp, elem_of_app. tauto. }
  rewrite decide_True by (rewrite Hl1, Hla; unfold MAX_USER_MSG; lia).
  by rewrite Hwb1.
Qed.

(** X21: a line that is too long is cut behind 128 bytes.  When the
    prompt and the next bytes of the input, none of them a line feed, fill
    129 bytes, the frame is the prompt, all of these bytes but the last, and
    CRLF, 130 bytes in all.  The last byte, [x], goes back to the input, to be
    read with the next frame, unless it is the byte 255: as a [char] that is
    [EOF], for which [ungetc] does nothing, and the byte is in neither
    frame. *)
Theorem long_line_is_cut_behind_128_bytes s (a p chunk more : list ascii) x o :
  length a = Z.to_nat BUF_SIZE ->
  c_str a = p -> LF ∉ p ->
  text (chunk ++ [x]) -> LF ∉ chunk ++ [x] ->
  (length p + length chunk = 128)%nat ->
  ∃ wb,
    ClientMain._read_user_input s a (Z.of_nat (length p))
      (mkStdin (chunk ++ x :: more) false) o
    = Ret (0, wb, Some 130,
           mkStdin ((if decide (x = "255"%char) then [] else [x]) ++ more) false, o)
    ∧ take 130 wb = p ++ chunk ++ CRLF.
Proof.
  intros Hla Hp Hnp Ht Hnl Hlen.
  destruct (_read_user_input_no_newline s a p (chunk ++ [x])
              (mkStdin (chunk ++ x :: more) false) (mkStdin more false) o)
    as (tl & Ha & ->); try done.
  { rewrite length_app. simpl. lia. }
  { unfold fgets. cbn [at_eof pending].
    rewrite decide_False by (unfold MAX_USER_MSG; lia).
    replace (Z.to_nat (MAX_USER_MSG + 2 - Z.of_nat (length p) - 1))
      with (length (chunk ++ [x])) by (rewrite length_app; simpl; unfold MAX_USER_MSG; lia).
    change (chunk ++ x :: more) with (chunk ++ [x] ++ more). rewrite app_assoc.
    rewrite take_line_full by done. rewrite decide_True by (by right).
    by rewrite drop_app_length. }
  eexists. split.
  - f_equal. f_equal. f_equal. unfold ungetc, char_at.
    change (Z.to_nat 128) with 128%nat.
    rewrite <- !app_assoc. rewrite (app_assoc p chunk).
    rewrite app_nth2 by (rewrite length_app; lia).
    replace (128 - length (p ++ chunk))%nat with 0%nat by (rewrite length_app; lia).
    cbn [app nth pending]. by case_decide.
  - rewrite <- !app_assoc. rewrite !(app_assoc p chunk).
    apply (take_frame_at (p ++ chunk) _ x NUL 128). rewrite length_app. lia.
Qed.

Lemma long_line_witness :
  ∃ wb,
    ClientMain._read_user_input fresh_sock used_buf 8
      (mkStdin (replicate 120 "a"%char ++ "b"%char :: str "cd") false) query_os
    = Ret (0, wb, Some 130, mkStdin ("b"%char :: str "cd") false, query_os)
    ∧ take 130 wb = prompt1 ++ replicate 120 "a"%char ++ CRLF.
Proof.
  apply (long_line_is_cut_behind_128_bytes fresh_sock used_buf prompt1 (replicate 120 "a"%char)
           (str "cd") "b"%char query_os).
  - reflexivity.
  - reflexivity.
  - apply (bool_decide_unpack _). by vm_compute.
  - apply (bool_decide_unpack _). by vm_compute.
  - apply (bool_decide_unpack _). by vm_compute.
  - reflexivity.
Defined.

(** The byte 255 at the cut is lost: it is not in the frame and does not
    go back to the input. *)
Example long_line_loses_byte_255 :
  ∃ wb,
    ClientMain._read_user_input fresh_sock used_buf 8
      (mkStdin (replicate 120 "a"%char ++ "255"%char :: str "cd") false) query_os
    = Ret (0, wb, Some 130, mkStdin (str "cd") false, query_os)
    ∧ take 130 wb = prompt1 ++ replicate 120 "a"%char ++ CRLF.
Proof. eexists. split; [vm_compute; reflexivity|reflexivity]. Qed.

(** X22: input that ends without a line feed is sent with what the array
    held before.  [_read_user_input] then frames the first 128 bytes of the
    array whatever their number: [*write_len] is 130, and the bytes are the
    prompt, the input, the [NUL] that ends them, the bytes that an earlier
    line left in the array, and CRLF.  The byte that the array held at index
    128 goes to the standard input as if it had been typed, and the
    end-of-file indicator is cleared, so that the client reads on; only when
    that byte is 255, which as a [char] is [EOF], nothing goes back and the
    indicator stays set. *)
Theorem input_without_line_feed_sends_stale_bytes s (a p line : list ascii) o :
  length a = Z.to_nat BUF_SIZE ->
  c_str a = p -> LF ∉ p ->
  text line -> LF ∉ line -> line ≠ [] ->
  (length p + length line < 128)%nat ->
  ∃ wb,
    ClientMain._read_user_input s a (Z.of_nat (length p)) (mkStdin line false) o
    = Ret (0, wb, Some 130,
           (if decide (char_at a 128 = "255"%char) then mkStdin [] true
            else mkStdin [char_at a 128] false), o)
    ∧ take (length p + length line + 1) wb = p ++ line ++ [NUL]
    ∧ (∀ i, (length p + length line < i < 128)%nat -> wb !! i = a !! i)
    ∧ drop 128 (take 130 wb) = CRLF.
Proof.
  intros Hla Hp Hnp Ht Hnl Hne Hlen.
  destruct (_read_user_input_no_newline s a p line (mkStdin line false) (mkStdin [] true) o)
    as (tl & Ha & ->); try done; [lia| |].
  { unfold fgets. cbn [at_eof pending].
    rewrite decide_False by (unfold MAX_USER_MSG; lia).
    rewrite take_line_no_newline by done.
    rewrite take_ge by (unfold MAX_USER_MSG; lia).
    rewrite decide_False.
    2:{ intros [Hlast|Hk]; [|unfold MAX_USER_MSG in Hk; lia].
        apply last_Some_elem_of in Hlast. by apply Hnl. }
    rewrite decide_False by done. by rewrite drop_all. }
  change (Z.to_nat BUF_SIZE) with 131%nat in *.
  assert (Htl : length tl = (130 - length p)%nat).
  { apply (f_equal length) in Ha. rewrite length_app, length_cons in Ha. lia. }
  set (wb1 := p ++ line ++ NUL :: drop (length line) tl).
  assert (Hl1 : length wb1 = 131%nat).
  { unfold wb1. rewrite !length_app, length_cons, length_drop. lia. }
  assert (Hsame : ∀ i, (length p + length line < i)%nat -> wb1 !! i = a !! i).
  { intros i Hi. unfold wb1. rewrite Ha.
    rewrite app_assoc. rewrite lookup_app_r by (rewrite length_app; lia).
    rewrite (lookup_app_r p) by lia. rewrite length_app.
    destruct (i - (length p + length line))%nat as [|j] eqn:Hj; [lia|].
    destruct (i - length p)%nat as [|j'] eqn:Hj'; [lia|].
    change ((NUL :: drop (length line) tl) !! S j) with (drop (length line) tl !! j).
    change ((NUL :: tl) !! S j') with (tl !! j').
    rewrite lookup_drop. f_equal. lia. }
  eexists. split; [|split; [|split]].
  - assert (Hch : char_at wb1 128 = char_at a 128).
    { unfold char_at. change (Z.to_nat 128) with 128%nat.
      assert (Hlk : wb1 !! 128%nat = a !! 128%nat) by (apply Hsame; lia).
      destruct (lookup_lt_is_Some_2 wb1 128) as [y Hy]; [lia|].
      rewrite (nth_lookup_Some _ _ _ _ Hy). rewrite Hlk in Hy.
      by rewrite (nth_lookup_Some _ _ _ _ Hy). }
    fold wb1. rewrite Hch. unfold ungetc. cbn [pending]. reflexivity.
  - fold wb1. rewrite !take_insert_ge by lia. unfold wb1.
    rewrite (app_assoc p line). change (NUL :: drop (length line) tl)
      with ([NUL] ++ drop (length line) tl). rewrite app_assoc.
    rewrite take_app_length'; [by rewrite <- app_assoc|].
    rewrite !length_app. simpl. lia.
  - intros i Hi. fold wb1. rewrite !list_lookup_insert_ne by lia. apply Hsame. lia.
  - fold wb1.
    apply list_eq. intros i. rewrite lookup_drop.
    destruct i as [|[|i]].
    + rewrite lookup_take_lt by lia. rewrite Nat.add_0_r.
      rewrite list_lookup_insert_ne by lia. rewrite list_lookup_insert_eq; [done|lia].
    + rewrite lookup_take_lt by lia.
      replace (128 + 1)%nat with 129%nat by lia.
      rewrite list_lookup_insert_eq; [done|rewrite length_insert; lia].
    + rewrite lookup_take_ge by lia. done.
Qed.

Lemma input_without_line_feed_witness :
  ∃ wb,
    ClientMain._read_user_input fresh_sock used_buf 8 (mkStdin (str "hi") false) query_os
    = Ret (0, wb, Some 130, mkStdin [CR] false, query_os)
    ∧ take 11 wb = prompt1 ++ str "hi" ++ [NUL]
    ∧ (∀ i, (10 < i < 128)%nat -> wb !! i = used_buf !! i)
    ∧ drop 128 (take 130 wb) = CRLF.
Proof.
  apply (input_without_line_feed_sends_stale_bytes fresh_sock used_buf prompt1 (str "hi") query_os).
  - reflexivity.
  - reflexivity.
  - apply (bool_decide_unpack _). by vm_compute.
  - by repeat constructor.
  - apply (bool_decide_unpack _). by vm_compute.
  - discriminate.
  - simpl. lia.
Defined.

(** A round of the loop of [client] that finds the input at its end. *)
Lemma client_loop_end_of_input fuel cid (wb : list ascii) plen s o ready q :
  os_select o = SelReady ready :: q ->
  0 ∈ ready ->
  0 <= plen <= MAX_USER_MSG ->
  ClientMain.client_loop (S fuel) cid wb plen s (mkStdin [] false) o
  = Ret (0, mkStdin [] true, sys_close (Client.sock_fd s) (after_select o)).
Proof.
  intros Hsel H0 Hp.
  cbn [ClientMain.client_loop at_eof]. unfold sys_select. rewrite Hsel.
  rewrite decide_True by done.
  unfold ClientMain.send_line, ClientMain._read_user_input, fgets. cbn [at_eof pending].
  rewrite decide_False by lia.
  destruct (Z.to_nat (MAX_USER_MSG + 2 - plen - 1)) as [|k] eqn:Hk; [lia|].
  cbn [take_line length drop last].
  rewrite decide_False by (intros [?|?]; done).
  rewrite decide_True by done. cbn [mbind run_bind]. rewrite decide_True by done.
  cbn [mbind run_bind]. unfold after_select. by rewrite Hsel.
Qed.

(** X23: the end of the input ends the client.  When the standard input
    is ready and at its end, [client] closes the socket and returns 0: nothing
    is written, and a socket that is ready in the same round is not read. *)
Theorem end_of_input_ends_the_client fuel cid (wb : list ascii) plen s o ready q :
  os_select o = SelReady ready :: q ->
  0 ∈ ready ->
  0 <= plen <= MAX_USER_MSG ->
  ClientMain.client_loop (S fuel) cid wb plen s (mkStdin [] false) o
  = Ret (0, mkStdin [] true, sys_close (Client.sock_fd s) (after_select o)).
Proof. apply client_loop_end_of_input. Qed.

Lemma end_of_input_witness :
  ClientMain.client_loop 1 1 used_buf 8 fresh_sock (mkStdin [] false) os_input_ready
  = Ret (0, mkStdin [] true, sys_close 5 (after_select os_input_ready)).
Proof.
  apply (end_of_input_ends_the_client 0 1 used_buf 8 fresh_sock os_input_ready {[0]} []).
  - reflexivity.
  - apply (bool_decide_unpack _). by vm_compute.
  - vm_compute. split; discriminate.
Defined.

(** ** A single message *)

Lemma c_str_of_text (s : list ascii) : text s -> c_str s = s.
Proof. intros H. rewrite <- (app_nil_r s) at 1. rewrite c_str_app_text by done. by rewrite app_nil_r. Qed.

(** The loop of [send_msg] when the words fit. *)
Lemma append_tokens_fits M (words : list (list ascii)) : ∀ (wb : list ascii) total,
  length wb = Z.to_nat BUF_SIZE ->
  Forall text words ->
  total <= strlen wb ->
  (length (c_str wb) + length (spaced words) <= 128)%nat ->
  ∃ wb', ClientMain.append_tokens M words wb total = Ret wb'
         ∧ c_str wb' = c_str wb ++ spaced words
         ∧ length wb' = Z.to_nat BUF_SIZE.
Proof.
  induction words as [|w words IH]; intros wb total Hl Ht Htot Hfit.
  - exists wb. cbn [ClientMain.append_tokens]. unfold spaced. simpl. by rewrite app_nil_r.
  - inversion Ht as [|?? Hw Ht']; subst.
    unfold spaced in Hfit. cbn [fmap list_fmap concat] in Hfit. fold (spaced words) in Hfit.
    rewrite !length_app in Hfit. change (length [" "%char]) with 1%nat in Hfit.
    change (Z.to_nat BUF_SIZE) with 131%nat in *. unfold strlen in Htot.
    cbn [ClientMain.append_tokens].
    rewrite decide_True by (unfold BUF_SIZE, MAX_PROTO_MSG, MAX_USER_MSG; lia).
    assert (Htk : take (Z.to_nat (BUF_SIZE - total)) (c_str w) = w).
    { rewrite c_str_of_text by done. apply take_ge.
      unfold BUF_SIZE, MAX_PROTO_MSG, MAX_USER_MSG. lia. }
    destruct (strncat_fits wb w (BUF_SIZE - total)) as [wb1 H1].
    { rewrite Htk. unfold strlen. lia. }
    rewrite H1. cbn [mbind run_bind].
    apply c_str_strncat in H1 as [Hc1 Hl1]. rewrite Htk in Hc1.
    destruct (strncat_fits wb1 [" "%char; NUL] 2) as [wb2 H2].
    { unfold strlen. rewrite Hc1, length_app, Hl1, Hl. simpl. lia. }
    rewrite H2. cbn [mbind run_bind].
    apply c_str_strncat in H2 as [Hc2 Hl2].
    change (take (Z.to_nat 2) (c_str [" "%char; NUL])) with [" "%char] in Hc2.
    destruct (IH wb2 (total + strnlen w M + 1)) as (wb' & -> & Hc' & Hl'); try done.
    + congruence.
    + unfold strlen, strnlen. rewrite Hc2, Hc1, !length_app. unfold strlen.
      rewrite c_str_of_text by done. simpl. lia.
    + rewrite Hc2, Hc1, !length_app. simpl. lia.
    + exists wb'. split; [done|]. split; [|done].
      rewrite Hc', Hc2, Hc1. unfold spaced. cbn [fmap list_fmap concat].
      by rewrite <- !app_assoc.
Qed.

(** The loop of [send_msg] and the [strncat] behind it when the words do
    not fit: one of the calls of [strncat] stores behind the array. *)
Lemma append_tokens_overflow {A} M (words : list (list ascii)) : ∀ (wb : list ascii) total (k : list ascii → run A),
  length wb = Z.to_nat BUF_SIZE ->
  Forall text words ->
  total <= strlen wb ->
  (length (c_str wb) <= 130)%nat ->
  (length (c_str wb) + length (spaced words) > 128)%nat ->
  (ClientMain.append_tokens M words wb total ≫= λ wb', strncat wb' [CR; LF; NUL] 3 ≫= k) = Undef.
Proof.
  induction words as [|w words IH]; intros wb total k Hl Ht Htot Hin Hover.
  - cbn [ClientMain.append_tokens mbind run_bind]. unfold strncat.
    change (take (Z.to_nat 3) (c_str [CR; LF; NUL])) with CRLF.
    unfold spaced in Hover. simpl in Hover.
    rewrite decide_False; [done|]. unfold strlen. rewrite Hl.
    change (Z.to_nat BUF_SIZE) with 131%nat. simpl. lia.
  - inversion Ht as [|?? Hw Ht']; subst.
    unfold spaced in Hover. cbn [fmap list_fmap concat] in Hover. fold (spaced words) in Hover.
    rewrite !length_app in Hover. change (length [" "%char]) with 1%nat in Hover.
    change (Z.to_nat BUF_SIZE) with 131%nat in *. unfold strlen in Htot.
    cbn [ClientMain.append_tokens].
    rewrite decide_True by (unfold BUF_SIZE, MAX_PROTO_MSG, MAX_USER_MSG; lia).
    destruct (strncat wb w (BUF_SIZE - total)) as [wb1| |] eqn:H1;
      [|reflexivity|unfold strncat in H1; by case_decide].
    cbn [mbind run_bind].
    assert (Htk : take (Z.to_nat (BUF_SIZE - total)) (c_str w) = w).
    { rewrite c_str_of_text by done.
      destruct (decide (length w <= Z.to_nat (BUF_SIZE - total))%nat) as [|Hlong];
        [by apply take_ge|].
      unfold strncat in H1. rewrite c_str_of_text in H1 by done.
      rewrite decide_False in H1; [done|]. rewrite length_take, Hl. unfold strlen.
      unfold BUF_SIZE, MAX_PROTO_MSG, MAX_USER_MSG in *. lia. }
    assert (Hfit1 : (length (c_str wb) + length w + 1 <= 131)%nat).
    { unfold strncat in H1. rewrite Htk in H1. case_decide as Hf; [|done].
      unfold strlen in Hf. lia. }
    apply c_str_strncat in H1 as [Hc1 Hl1]. rewrite Htk in Hc1.
    destruct (strncat wb1 [" "%char; NUL] 2) as [wb2| |] eqn:H2;
      [|reflexivity|unfold strncat in H2; by case_decide].
    cbn [mbind run_bind].
    assert (Hfit2 : (length (c_str wb1) + 1 + 1 <= 131)%nat).
    { unfold strncat in H2. case_decide as Hf; [|done].
      unfold strlen in Hf. simpl in Hf. lia. }
    apply c_str_strncat in H2 as [Hc2 Hl2].
    change (take (Z.to_nat 2) (c_str [" "%char; NUL])) with [" "%char] in Hc2.
    apply IH; try done.
    + congruence.
    + unfold strlen, strnlen. rewrite Hc2, Hc1, !length_app. unfold strlen.
      rewrite c_str_of_text by done. simpl. lia.
    + rewrite Hc2, length_app. simpl. lia.
    + rewrite Hc2, Hc1, !length_app. simpl. lia.
Qed.

Lemma _client_setup_ok env (b0 : list ascii) o :
  0 <= ClientMain.net_socket env -> 1 <= ClientMain.net_pton env ->
  ClientMain.net_connect env ≠ -1 ->
  ClientMain._client_setup env b0 o =
  (0, Client.mkSock (ClientMain.net_socket env) (mkBuf b0 0),
   mkOS (os_closed o ∖ {[ClientMain.net_socket env]}) (os_in o) (os_wr o) (os_accept o)
        (os_select o) (os_log o) (os_malloc o)).
Proof.
  intros Hs Hp Hc. unfold ClientMain._client_setup.
  rewrite decide_False by lia. rewrite decide_False by lia. by rewrite decide_False.
Qed.

(** X24: [send_msg] sends the words of the message, each followed by a
    space, and CRLF, as one frame, closes the socket and returns 0, when the
    words and their spaces have at most 128 bytes in all. *)
Theorem send_msg_sends_the_words einval M env (b0 cmd port host : list ascii) words o v :
  Client.strtol einval port = (v, false) ->
  0 <= ClientMain.net_socket env -> 1 <= ClientMain.net_pton env ->
  ClientMain.net_connect env ≠ -1 ->
  default [] (os_wr o !! ClientMain.net_socket env) = [] ->
  Forall text words ->
  (length (spaced words) <= 128)%nat ->
  ∃ o', ClientMain.send_msg einval M env b0 (cmd :: port :: host :: words) o = Ret (0, o')
        ∧ os_log o' = os_log o ++
            [SysWrite (ClientMain.net_socket env) (spaced words ++ CRLF)
                      (Z.of_nat (length (spaced words)) + 2);
             SysClose (ClientMain.net_socket env)].
Proof.
  intros Hport Hs Hp Hc Hwr Ht Hfit.
  unfold ClientMain.send_msg. cbn [lookup list_lookup drop]. rewrite drop_0, Hport.
  rewrite _client_setup_ok by done. rewrite decide_False by lia.
  set (o1 := mkOS _ _ _ _ _ _ _).
  destruct (append_tokens_fits M words (zeroed BUF_SIZE) 0) as (wb & -> & Hcs & Hl); try done.
  cbn [mbind run_bind]. simpl in Hcs.
  destruct (strncat_fits wb [CR; LF; NUL] 3) as [wb2 H2].
  { unfold strlen. rewrite Hcs, Hl. change (Z.to_nat BUF_SIZE) with 131%nat. simpl. lia. }
  rewrite H2. cbn [mbind run_bind].
  apply c_str_strncat in H2 as [Hc2 Hl2].
  change (take (Z.to_nat 3) (c_str [CR; LF; NUL])) with CRLF in Hc2. rewrite Hcs in Hc2.
  assert (Hlen : strnlen wb2 BUF_SIZE = Z.of_nat (length (spaced words)) + 2).
  { unfold strnlen, strlen. rewrite Hc2, length_app. simpl.
    unfold BUF_SIZE, MAX_PROTO_MSG, MAX_USER_MSG. lia. }
  rewrite Hlen. cbn [Client.sock_fd].
  rewrite write_to_socket_writable.
  - cbn [mbind run_bind]. rewrite decide_False by lia. rewrite decide_False by lia.
    eexists. split; [reflexivity|]. cbn [sys_close log_call os_log o1].
    rewrite <- app_assoc. f_equal.
    replace (Z.to_nat (Z.of_nat (length (spaced words)) + 2))
      with (length (c_str wb2)) by (rewrite Hc2, length_app; simpl; lia).
    by rewrite take_c_str, Hc2.
  - split; [|exact Hwr]. cbn [os_closed o1].
    rewrite elem_of_difference, elem_of_singleton. tauto.
  - lia.
  - rewrite Hl2, Hl. change (Z.to_nat BUF_SIZE) with 131%nat. lia.
Qed.

Lemma send_msg_witness :
  ∃ o', ClientMain.send_msg false 64 net_ok (zeroed BUF_SIZE) send_hello query_os = Ret (0, o')
        ∧ os_log o' = [] ++ [SysWrite 5 (str "hello world " ++ CRLF) 14; SysClose 5].
Proof.
  apply (send_msg_sends_the_words false 64 net_ok (zeroed BUF_SIZE) (str "send") (str "8080")
           (str "127.0.0.1") [str "hello"; str "world"] query_os 8080).
  - reflexivity.
  - vm_compute. discriminate.
  - vm_compute. discriminate.
  - discriminate.
  - reflexivity.
  - by repeat constructor.
  - simpl. lia.
Defined.

(** X25: a message of more than 128 bytes makes [send_msg] store behind
    its array.  When the words and their spaces have more than 128 bytes in
    all, one of the calls of [strncat] puts a byte at index 131 or beyond of
    the 131 bytes of [write_buf], whatever [MAX_STR_LEN] is: nothing bounds
    what is appended by the room that is left. *)
Theorem send_msg_overflows_on_a_long_message einval M env (b0 cmd port host : list ascii)
    words o v :
  Client.strtol einval port = (v, false) ->
  0 <= ClientMain.net_socket env -> 1 <= ClientMain.net_pton env ->
  ClientMain.net_connect env ≠ -1 ->
  Forall text words ->
  (length (spaced words) > 128)%nat ->
  ClientMain.send_msg einval M env b0 (cmd :: port :: host :: words) o = Undef.
Proof.
  intros Hport Hs Hp Hc Ht Hover.
  unfold ClientMain.send_msg. cbn [lookup list_lookup drop]. rewrite drop_0, Hport.
  rewrite _client_setup_ok by done. rewrite decide_False by lia.
  apply append_tokens_overflow; try done; simpl; lia.
Qed.

Lemma send_msg_overflow_witness :
  ClientMain.send_msg false 64 net_ok (zeroed BUF_SIZE) send_long query_os = Undef.
Proof.
  apply (send_msg_overflows_on_a_long_message false 64 net_ok (zeroed BUF_SIZE) (str "send")
           (str "8080") (str "127.0.0.1") [replicate 128 "w"%char] query_os 8080).
  - reflexivity.
  - vm_compute. discriminate.
  - vm_compute. discriminate.
  - discriminate.
  - constructor; [|constructor]. apply Forall_replicate. discriminate.
  - simpl. lia.
Defined.

(** ** The port *)

Lemma Forall_c_str (P : ascii → Prop) (a : list ascii) : Forall P a -> Forall P (c_str a).
Proof.
  induction 1 as [|c a Hc Ha IH]; [constructor|]. cbn [c_str].
  case_decide; [constructor|]. by constructor.
Qed.

Lemma Forall_skip_space (P : ascii → Prop) (s : list ascii) :
  Forall P s -> Forall P (Client.skip_space s).
Proof.
  induction 1 as [|c s Hc Hs IH]; [constructor|]. cbn [Client.skip_space].
  destruct (Client.isspace c); [done|]. by constructor.
Qed.

(** [strtol] on a string without a digit: 0, and [errno] as the library
    has it. *)
Lemma strtol_no_digit einval (a : list ascii) :
  Forall (λ c, ¬ is_digit c) a -> Client.strtol einval a = (0, einval).
Proof.
  intros Ha. unfold Client.strtol.
  pose proof (Forall_skip_space _ _ (Forall_c_str _ _ Ha)) as Hs.
  set (s := Client.skip_space (c_str a)) in *.
  assert (∃ neg s1, (match s with
                     | "-"%char :: rest => (true, rest)
                     | "+"%char :: rest => (false, rest)
                     | _ => (false, s)
                     end) = (neg, s1) ∧ Forall (λ c, ¬ is_digit c) s1) as (neg & s1 & -> & Hs1).
  { clearbody s. destruct s as [|c s']; [by eexists _, _|].
    inversion Hs as [|?? Hc Hs']; subst.
    destruct c as [[] [] [] [] [] [] [] []]; eexists _, _; (split; [reflexivity|]);
      done || by constructor. }
  assert (Client.starts_with_digit s1 = false) as ->; [|done].
  destruct s1 as [|c s1]; [done|]. inversion Hs1 as [|?? Hc _]; subst.
  cbn [Client.starts_with_digit]. by apply bool_decide_eq_false.
Qed.

(** X26: the port is taken as it comes.  Neither program looks at what
    [strtol] has read: with a C library whose [strtol] leaves [errno] alone
    when it finds no digit, the server and the client accept an argument
    without any digit as port 0, and do nothing else; with a library that
    sets [EINVAL] they refuse it, and the server closes the pipe. *)
Theorem port_is_taken_as_it_comes (cmd port host : list ascii) server_fd o :
  Forall (λ c, ¬ is_digit c) port ->
  ServerMain._parse_port_num false [cmd; port] server_fd o = (0, Some 0, o)
  ∧ ClientMain._parse_port_num false [cmd; port; host] o = Ret (0, 0, o)
  ∧ ServerMain._parse_port_num true [cmd; port] server_fd o
    = (-1, Some 0, sys_close server_fd (display_error "ERROR: No port provided" o))
  ∧ ClientMain._parse_port_num true [cmd; port; host] o
    = Ret (-1, 0, display_error "ERROR: No port provided" o).
Proof.
  intros Hp. unfold ServerMain._parse_port_num, ClientMain._parse_port_num.
  cbn [lookup list_lookup]. by rewrite !strtol_no_digit.
Qed.

Lemma port_is_taken_witness :
  ServerMain._parse_port_num false [str "start-server"; str "http"] 3 query_os
  = (0, Some 0, query_os)
  ∧ ClientMain._parse_port_num false [str "start-client"; str "http"; str "127.0.0.1"] query_os
    = Ret (0, 0, query_os)
  ∧ ServerMain._parse_port_num true [str "start-server"; str "http"] 3 query_os
    = (-1, Some 0, sys_close 3 (display_error "ERROR: No port provided" query_os))
  ∧ ClientMain._parse_port_num true [str "start-client"; str "http"; str "127.0.0.1"] query_os
    = Ret (-1, 0, display_error "ERROR: No port provided" query_os).
Proof.
  apply (port_is_taken_as_it_comes (str "start-server") (str "http") (str "127.0.0.1") 3 query_os).
  repeat constructor; intros [d Hd]; by vm_compute in Hd.
Defined.

(** ** A whole session *)

(** A round of the loop of [client] in which only the input is ready, with
    a line that fits. *)
Lemma client_loop_line fuel cid s (a line more : list ascii) o ready qs :
  0 <= cid <= INT_MAX ->
  length a = Z.to_nat BUF_SIZE ->
  c_str a = ClientMain.id_prompt cid ->
  text line -> LF ∉ line ->
  (length (ClientMain.id_prompt cid) + length line <= 128)%nat ->
  writable (Client.sock_fd s) o ->
  os_select o = SelReady ready :: qs ->
  0 ∈ ready -> Client.sock_fd s ∉ ready ->
  ∃ wb,
    ClientMain.client_loop (S fuel) cid a (Z.of_nat (length (ClientMain.id_prompt cid))) s
      (mkStdin (line ++ LF :: more) false) o
    = ClientMain.client_loop fuel cid wb (Z.of_nat (length (ClientMain.id_prompt cid))) s
        (mkStdin more false)
        (log_call (SysWrite (Client.sock_fd s) (ClientMain.id_prompt cid ++ line ++ CRLF)
                     (Z.of_nat (length (ClientMain.id_prompt cid) + length line + 2)))
           (after_select o))
    ∧ c_str wb = ClientMain.id_prompt cid ∧ length wb = Z.to_nat BUF_SIZE.
Proof.
  intros Hc Hla Hp Hline Hnl Hfit Hw Hsel H0 Hfd.
  destruct (send_line_sent cid s a line more (after_select o) Hc Hla Hp Hline Hnl Hfit)
    as (wb & Hs & Hcw & Hlw); [exact Hw|].
  exists wb. split; [|done].
  cbn [ClientMain.client_loop at_eof]. unfold sys_select. rewrite Hsel.
  rewrite decide_True by done.
  unfold after_select in Hs. rewrite Hsel in Hs. cbn [tail] in Hs. rewrite Hs.
  cbn [mbind run_bind]. rewrite decide_False by done. cbn [mbind run_bind].
  unfold after_select. by rewrite Hsel.
Qed.

(** X27: a whole session of [start-client].  The connection stands, the
    server sends the id, the user types one line and closes the input.  Then
    [client] returns 0, and all it has done is one [write] of the prompt
    [client<id>:], the text of the line and CRLF to the socket, and the
    [close] of the socket. *)
Theorem client_sends_a_line_and_leaves einval fuel env (b0 a0 cmd port host line : list ascii)
    e o v id q ready1 ready2 qs :
  Client.strtol einval port = (v, false) ->
  0 < ClientMain.net_socket env -> 1 <= ClientMain.net_pton env ->
  ClientMain.net_connect env ≠ -1 ->
  length b0 = Z.to_nat BUF_SIZE -> length a0 = Z.to_nat BUF_SIZE ->
  os_in o !! ClientMain.net_socket env = Some (InData (decimal_frame id) :: q) ->
  default [] (os_wr o !! ClientMain.net_socket env) = [] ->
  os_select o = SelReady ready1 :: SelReady ready2 :: qs ->
  0 ∈ ready1 -> ClientMain.net_socket env ∉ ready1 -> 0 ∈ ready2 ->
  0 <= id <= INT_MAX ->
  text line -> LF ∉ line ->
  (length (ClientMain.id_prompt id) + length line <= 128)%nat ->
  ∃ o',
    ClientMain.client einval (S (S fuel)) env b0 a0 [cmd; port; host]
      (mkStdin (line ++ [LF]) e) o
    = Ret (0, mkStdin [] true, o')
    ∧ os_log o' = os_log o ++
        [SysWrite (ClientMain.net_socket env) (ClientMain.id_prompt id ++ line ++ CRLF)
                  (Z.of_nat (length (ClientMain.id_prompt id) + length line + 2));
         SysClose (ClientMain.net_socket env)].
Proof.
  intros Hport Hsock Hpton Hconn Hb0 Ha0 Hin Hwr Hsel H01 Hfd1 H02 Hid Hline Hnl Hfit.
  set (fd := ClientMain.net_socket env) in *.
  set (o1 := mkOS (os_closed o ∖ {[fd]}) (os_in o) (os_wr o) (os_accept o) (os_select o) (os_log o) (os_malloc o)).
  set (s := Client.mkSock fd (mkBuf b0 0)).
  destruct (client_handshake_id einval (S (S fuel)) s o1 q id)
    as (s1 & o2 & Hh & _ & _ & Hfd & Ho2); try done; try lia.
  { intros Hc. apply elem_of_difference in Hc as [_ Hc]. apply Hc. by apply elem_of_singleton. }
  cbn [Client.sock_fd s] in Hfd, Ho2.
  destruct (id_prompt_plain id Hid) as [Htp Hnp].
  destruct (c_str_snprintf_id a0 id Htp) as [Hcs Hls]; [|done|].
  { rewrite Ha0. change (Z.to_nat BUF_SIZE) with 131%nat. lia. }
  assert (Hplen : strnlen (ClientMain.snprintf_id a0 id) BUF_SIZE
                  = Z.of_nat (length (ClientMain.id_prompt id))).
  { unfold strnlen, strlen. rewrite Hcs. unfold BUF_SIZE, MAX_PROTO_MSG, MAX_USER_MSG. lia. }
  destruct (client_loop_line (S fuel) id s1 (ClientMain.snprintf_id a0 id) line [] o2
              ready1 (SelReady ready2 :: qs))
    as (wb & Hl & Hcw & Hlw); try done.
  { by rewrite Hls. }
  { rewrite Hfd, Ho2. split; [|exact Hwr].
    intros Hc. apply elem_of_difference in Hc as [_ Hc]. apply Hc. by apply elem_of_singleton. }
  { by rewrite Ho2. }
  { by rewrite Hfd. }
  rewrite (client_loop_end_of_input fuel id wb _ s1 _ ready2 qs) in Hl.
  2:{ rewrite Ho2. unfold o1, after_select, set_in, log_call. cbn [os_select].
      by rewrite Hsel. }
  2:{ done. }
  2:{ unfold MAX_USER_MSG. lia. }
  eexists. split.
  - unfold ClientMain.client, ClientMain._verify_user_input. cbn [lookup list_lookup].
    rewrite decide_False by lia. cbn [pending].
    unfold ClientMain._parse_port_num. cbn [lookup list_lookup]. rewrite Hport.
    cbn [mbind run_bind]. rewrite decide_False by lia.
    unfold ClientMain._client_setup. fold fd. rewrite decide_False by lia.
    rewrite decide_False by lia. rewrite (decide_False (P := ClientMain.net_connect env = -1)) by done.
    rewrite decide_False by lia. fold o1 s.
    unfold ClientMain.client_session. rewrite Hh. cbn [mbind run_bind].
    rewrite Hplen. exact Hl.
  - rewrite Hfd, Ho2. unfold o1, sys_close, after_select, set_in, log_call. cbn [os_log].
    by rewrite <- app_assoc.
Qed.

Lemma client_sends_a_line_witness :
  ∃ o',
    ClientMain.client true 2 net_ok (zeroed BUF_SIZE) used_buf
      [str "start-client"; str "8080"; str "127.0.0.1"] (mkStdin (str "hi" ++ [LF]) true)
      os_one_line
    = Ret (0, mkStdin [] true, o')
    ∧ os_log o' = [] ++ [SysWrite 5 (str "client7:" ++ str "hi" ++ CRLF) 12; SysClose 5].
Proof.
  apply (client_sends_a_line_and_leaves true 0 net_ok (zeroed BUF_SIZE) used_buf
           (str "start-client") (str "8080") (str "127.0.0.1") (str "hi") true os_one_line
           8080 7 [] {[0]} {[0]} []).
  - by vm_compute.
  - by vm_compute.
  - by vm_compute.
  - discriminate.
  - reflexivity.
  - reflexivity.
  - reflexivity.
  - reflexivity.
  - reflexivity.
  - by apply elem_of_singleton.
  - intros Hc. apply elem_of_singleton in Hc. discriminate Hc.
  - by apply elem_of_singleton.
  - unfold INT_MAX. lia.
  - by repeat constructor.
  - apply (bool_decide_unpack _). by vm_compute.
  - simpl. lia.
Defined.
